(** * Task-priority control of a mobile manipulator: kinematic model and tasks

    A shallow embedding of [src/utils/mobile_manipulator.py] and
    [src/utils/task.py].

    Conventions of the embedding.
    - A Python float is a real number ([R]); the arithmetic of the code is
      read exactly (no rounding), and a state holds real numbers.
    - The one float-specific event that is kept is the division by an exact
      zero.  numpy then yields [inf], [-inf] or [nan] with a RuntimeWarning
      and the program carries on with that value.  The two methods that
      divide, [move_and_rotate_simultaneously] and [Obstacle3D.update], are
      therefore given twice: over floats that may be inf or nan
      ([FKinematics], [FObstacle3D]), which is the program on every input,
      and over real-valued states ([Kinematics], [Obstacle3D]), which is
      the same program on the runs whose values all stay finite.  A
      real-valued run that meets a value that is no real number stops
      with the outcome [NonFinite]; this is a limit of the real-valued
      reading and no exception of the program.
    - A Python exception is the outcome [Raise e]; a method is a function
      from the state before the call to an outcome and the state after it.
    - A column vector of shape [(n,1)] is the list of its [n] entries; a
      two-dimensional array is the list of its rows. *)

From Stdlib Require Import Reals Lra Lia ZArith.
From Stdlib Require String.
Import String.StringSyntax.
Delimit Scope string_scope with string.
From stdpp Require Import base list.

Open Scope Z_scope.

(** ** The constants of [config.py] the scenarios use *)
Module config.
Local Open Scope R_scope.
Definition limit_joint1_upper : R := 1571 / 1000.
Definition limit_joint1_lower : R := - (1571 / 1000).
Definition limit_joint2_upper : R := 50 / 1000.
Definition limit_joint2_lower : R := - (1571 / 1000).
Definition limit_joint3_upper : R := 50 / 1000.
Definition limit_joint3_lower : R := - (1571 / 1000).
Definition limit_joint4_upper : R := 1571 / 1000.
Definition limit_joint4_lower : R := - (1571 / 1000).
Definition limit_joint_threshold_activate : R := 5 / 100.
Definition limit_joint_threshold_deactivate : R := 8 / 100.
End config.

(** ** Outcomes of a call *)

Inductive exn : Set :=
| IndexError        (* sequence index out of range *)
| ValueError        (* wrong number of values to unpack, impossible reshape,
                       operands of different shapes *)
| AttributeError    (* attribute never assigned *)
| NonFinite.        (* no exception of Python: a float of the run is inf
                       or nan, and the real-valued reading ends here *)

Inductive result (A : Type) : Type :=
| Ok (a : A)
| Raise (e : exn).
Arguments Ok {A} a.
Arguments Raise {A} e.

(** ** Methods: state and exceptions

    [M S A] is a method body over the mutable state [S] returning an [A].
    When a statement raises, the state is left as the statements before it
    made it. *)

Definition M (S A : Type) : Type := S -> result A * S.

Definition ret {S A} (a : A) : M S A := fun s => (Ok a, s).
Definition raise {S A} (e : exn) : M S A := fun s => (Raise e, s).
Definition bind {S A B} (m : M S A) (k : A -> M S B) : M S B :=
  fun s => match m s with
           | (Ok a, s') => k a s'
           | (Raise e, s') => (Raise e, s')
           end.
Definition gets {S A} (f : S -> A) : M S A := fun s => (Ok (f s), s).
Definition modify {S} (f : S -> S) : M S unit := fun s => (Ok tt, f s).
Definition lift {S A} (x : result A) : M S A := fun s => (x, s).

Notation "x <- m ;; k" := (bind m (fun x => k))
  (at level 100, m at next level, right associativity).
Notation "m ;;; k" := (bind m (fun _ => k))
  (at level 100, right associativity).

(** Python's [a and b] on truth values: [b] is evaluated only if [a] holds. *)
Definition and_ {S} (a b : M S bool) : M S bool :=
  x <- a ;; if x then b else ret false.

(** [for i in range(n): body(i)]. *)
Fixpoint for_each {S} (l : list Z) (body : Z -> M S unit) : M S unit :=
  match l with
  | [] => ret tt
  | i :: l' => body i ;;; for_each l' body
  end.
Definition range (n : Z) : list Z := map Z.of_nat (seq 0 (Z.to_nat n)).
Definition for_range {S} (n : Z) (body : Z -> M S unit) : M S unit :=
  for_each (range n) body.

(** ** Sequences and arrays *)

(** [l[k]] for a Python list or a numpy array along its first axis:
    a negative [k] counts from the end; outside [-len, len) it raises. *)
Definition getitem {A} (l : list A) (k : Z) : result A :=
  let n := Z.of_nat (length l) in
  if (0 <=? k) && (k <? n) then
    match l !! Z.to_nat k with Some a => Ok a | None => Raise IndexError end
  else if (- n <=? k) && (k <? 0) then
    match l !! Z.to_nat (n + k) with Some a => Ok a | None => Raise IndexError end
  else Raise IndexError.

(** [l[k] = v], same indexing. *)
Definition setitem {A} (l : list A) (k : Z) (v : A) : result (list A) :=
  let n := Z.of_nat (length l) in
  if (0 <=? k) && (k <? n) then Ok (<[Z.to_nat k := v]> l)
  else if (- n <=? k) && (k <? 0) then Ok (<[Z.to_nat (n + k) := v]> l)
  else Raise IndexError.

Definition Matrix : Type := list (list R).

Definition ncols (m : Matrix) : nat :=
  match m with [] => 0%nat | row :: _ => length row end.
Definition shape (m : Matrix) : nat * nat := (length m, ncols m).

(** [np.zeros((r, c))] and [np.eye(n)] ([n] negative: ValueError). *)
Definition zeros (r c : nat) : Matrix := replicate r (replicate c 0%R).
Definition unit_row (n i : nat) : list R := <[i := 1%R]> (replicate n 0%R).
Definition eye (n : Z) : result Matrix :=
  if n <? 0 then Raise ValueError
  else Ok (map (unit_row (Z.to_nat n)) (seq 0 (Z.to_nat n))).

(** [J[:, j] = col]: the column must exist and [col] must have one entry
    per row. *)
Definition set_col (J : Matrix) (j : nat) (col : list R) : result Matrix :=
  if negb (j <? ncols J)%nat then Raise IndexError
  else if negb (length col =? length J)%nat then Raise ValueError
  else Ok (zip_with (fun row v => <[j := v]> row) J col).

(** [a, b, c, d = l]. *)
Definition unpack4 (l : list R) : result (R * R * R * R) :=
  match l with
  | [a; b; c; d] => Ok (a, b, c, d)
  | _ => Raise ValueError
  end.

(** ** Floats that may be inf or nan

    A value of [float] is a real number or [InfOrNan], which stands for
    the three floats that are none: [inf], [-inf] and [nan].  The sum, the
    difference and the product of two floats one of which is inf or nan
    are inf or nan again (also [0 * inf], which is nan), and so are its
    sine and cosine. *)
Module IEEE.
Local Open Scope R_scope.

Inductive float : Type :=
| Finite (x : R)
| InfOrNan.

Definition lift2 (f : R -> R -> R) (a b : float) : float :=
  match a, b with
  | Finite x, Finite y => Finite (f x y)
  | _, _ => InfOrNan
  end.
Definition add : float -> float -> float := lift2 Rplus.
Definition sub : float -> float -> float := lift2 Rminus.
Definition mul : float -> float -> float := lift2 Rmult.
Definition lift1 (f : R -> R) (a : float) : float :=
  match a with
  | Finite x => Finite (f x)
  | InfOrNan => InfOrNan
  end.

(** [x / y] on numpy floats: with [y = 0] the quotient is [inf], [-inf]
    or [nan] (and a RuntimeWarning), no exception. *)
Definition divide (x y : R) : float :=
  if Req_dec_T y 0 then InfOrNan else Finite (x / y).

(** Arrays of floats. *)
Definition Matrix : Type := list (list float).
Definition floats (l : list R) : list float := map Finite l.
Definition of_matrix (m : list (list R)) : Matrix := map floats m.

Definition dot (u v : list float) : float := foldr add (Finite 0) (zip_with mul u v).
Definition mat_vec (a : Matrix) (b : list float) : list float :=
  map (fun row => dot row b) a.
Definition vec_add (u v : list float) : list float := zip_with add u v.

(** [m / d] for an array [m] and a float [d]. *)
Definition divide_by (m : list (list R)) (d : R) : Matrix :=
  map (map (fun x => divide x d)) m.

Definition ncols (m : Matrix) : nat :=
  match m with [] => 0%nat | row :: _ => length row end.
Definition flatten (m : Matrix) : list float := concat m.
(** [np.block([[a], [b]])]: [b] under [a]. *)
Definition vstack (a b : Matrix) : result Matrix :=
  if (ncols a =? ncols b)%nat then Ok (a ++ b) else Raise ValueError.
Fixpoint chunks (c : nat) (n : nat) (data : list float) : Matrix :=
  match n with
  | O => []
  | S n' => take c data :: chunks c n' (drop c data)
  end.
(** [data.reshape(r, c)]. *)
Definition reshape (data : list float) (r c : Z) : result Matrix :=
  if (0 <=? r)%Z && (0 <=? c)%Z && (r * c =? Z.of_nat (length data))%Z
  then Ok (chunks (Z.to_nat c) (Z.to_nat r) data)
  else Raise ValueError.

(** The real-valued reading of floats: the real number a float is, and
    [NonFinite] where it is none. *)
Definition real (a : float) : result R :=
  match a with
  | Finite x => Ok x
  | InfOrNan => Raise NonFinite
  end.
Fixpoint reals (l : list float) : result (list R) :=
  match l with
  | [] => Ok []
  | a :: l' =>
      match real a, reals l' with
      | Ok x, Ok v => Ok (x :: v)
      | Raise e, _ => Raise e
      | _, Raise e => Raise e
      end
  end.
Fixpoint real_matrix (m : Matrix) : result (list (list R)) :=
  match m with
  | [] => Ok []
  | row :: m' =>
      match reals row, real_matrix m' with
      | Ok v, Ok rest => Ok (v :: rest)
      | Raise e, _ => Raise e
      | _, Raise e => Raise e
      end
  end.

End IEEE.

(** [x / y] in a real-valued run: the quotient where it is a real number;
    where it is inf or nan the real-valued reading of the run ends. *)
Definition divide (x y : R) : result R := IEEE.real (IEEE.divide x y).

(** Comparisons of floats as truth values. *)
Definition Rgeb (x y : R) : bool := if Rge_dec x y then true else false.
Definition Rleb (x y : R) : bool := if Rle_dec x y then true else false.

(** ** The robot: [class MobileManipulator] *)

(** [class ManipulatorParams]: the constants of the arm, in metres. *)
Module ManipulatorParams.
Definition dof : nat := 4.
Definition bx : R := 132 / 10000.
Definition bz : R := 108 / 1000.
Definition d1 : R := 142 / 1000.
Definition d2 : R := 1588 / 10000.
Definition mz : R := 722 / 10000.
Definition mx : R := 565 / 10000.
End ManipulatorParams.

(** The attributes the methods below read or write.  [T] is the list of
    link transforms; the class as it stands assigns it in no method (the
    [update] that did is shadowed by the later [update(self, jointState)]),
    so it may be unassigned ([None]). *)
Record MobileManipulator : Type := mkRobot {
  dof : Z;
  q : list R;
  eta : list R;
  T : option (list Matrix);
}.

Definition set_q (v : list R) (r : MobileManipulator) : MobileManipulator :=
  {| dof := dof r; q := v; eta := eta r; T := T r |}.
Definition set_eta (v : list R) (r : MobileManipulator) : MobileManipulator :=
  {| dof := dof r; q := q r; eta := v; T := T r |}.

(** [__init__]: four joints, the joint positions and the base pose at 0. *)
Definition init : MobileManipulator :=
  {| dof := 4; q := replicate 4 0%R; eta := replicate 4 0%R; T := None |}.

Module Robot.

Definition Method (A : Type) : Type := M MobileManipulator A.

(** [self.eta[k]]. *)
Definition eta_at (k : Z) : Method R := e <- gets eta ;; lift (getitem e k).

Definition getEETransform : Method Matrix :=
  t <- gets T ;;
  match t with
  | None => raise AttributeError
  | Some ts => lift (getitem ts (-1))
  end.

(** [return self.q[joint-1]]. *)
Definition getJointPos (joint : Z) : Method R :=
  qs <- gets q ;; lift (getitem qs (joint - 1)).

Definition getBasePose : Method (list R) := gets eta.

Definition getDOF : Method Z := gets dof.

(** [update(self, jointState)], with [position] the joint positions of
    the message. *)
Definition update (position : list R) : Method unit :=
  modify (set_q position) ;;;
  modify (set_eta (replicate 4 0%R)).

End Robot.

(** *** Kinematics and base integration *)

Definition dot (u v : list R) : R := foldr Rplus 0%R (zip_with Rmult u v).
(** [a @ b] for a matrix and a column vector, [u + v] for two columns. *)
Definition mat_vec (a : Matrix) (b : list R) : list R := map (fun row => dot row b) a.
Definition vec_add (u v : list R) : list R := zip_with Rplus u v.

Module Kinematics.
Import ManipulatorParams Robot.
Local Open Scope R_scope.

(** [getEEJacobian]: the 6 x 4 array is filled column by column.
    [self.eta[3]] is read at each of its occurrences; the attribute does not
    change in between, so one read is bound to [yaw]. *)
Definition getEEJacobian : Method Matrix :=
  let J := zeros 6 ManipulatorParams.dof in
  qs <- gets q ;;
  u <- lift (unpack4 qs) ;;
  let '(q1, q2, q3, q4) := u in
  let l1p := - d1 * sin q2 in
  let l2p := d2 * cos q3 in
  let l := bx + l1p + l2p + mx in
  yaw <- eta_at 3 ;;
  let dx_dq1 := - l * sin q1 * cos yaw - l * cos q1 * sin yaw in
  let dy_dq1 := - l * sin q1 * sin yaw + l * cos q1 * cos yaw in
  let dx_dq2 := - d1 * cos q2 * (cos q1 * cos yaw - sin q1 * sin yaw) in
  let dy_dq2 := - d1 * cos q2 * (cos q1 * sin yaw + sin q1 * cos yaw) in
  let dz_dq2 := d1 * sin q2 in
  let dx_dq3 := - d2 * sin q3 * (cos q1 * cos yaw - sin q1 * sin yaw) in
  let dy_dq3 := - d2 * sin q3 * (cos q1 * cos yaw - sin q1 * sin yaw) in
  let dz_dq3 := - d2 * cos q3 in
  J <- lift (set_col J 0 [dx_dq1; dy_dq1; 0; 0; 0; 1]) ;;
  J <- lift (set_col J 1 [dx_dq2; dy_dq2; dz_dq2; 0; 0; 0]) ;;
  J <- lift (set_col J 2 [dx_dq3; dy_dq3; dz_dq3; 0; 0; 0]) ;;
  J <- lift (set_col J 3 [0; 0; 0; 0; 0; 1]) ;;
  ret J.

(** [getEEposition]: the 3 x 1 column [x; y; z].  The heading [yaw] is
    computed (so [self.eta[3]] is read) and not returned. *)
Definition getEEposition : Method Matrix :=
  qs <- gets q ;;
  u <- lift (unpack4 qs) ;;
  let '(q1, q2, q3, q4) := u in
  let l1p := - d1 * sin q2 in
  let l2p := d2 * cos q3 in
  let l := bx + l1p + l2p + mx in
  e0 <- eta_at 0 ;;
  let x := l * cos q1 + e0 in
  e1 <- eta_at 1 ;;
  let y := l * sin q1 + e1 in
  e2 <- eta_at 2 ;;
  let z := - (bz + d1 * cos (- q2) + d2 * sin q3 - mz) + e2 in
  e3 <- eta_at 3 ;;
  let yaw := q1 + q4 + e3 in
  ret [[x]; [y]; [z]].

(** [move_and_rotate_simultaneously(dQ, dt)]: the base moves on the arc of
    radius [R = forward_vel / angular_vel] around the centre [ICC].  [dQ] is
    a column; here [self.eta[2]] is the heading.  This is the real-valued
    reading: with [angular_vel = 0] the radius is no real number and the
    reading stops there, while the program goes on as
    [FKinematics.move_and_rotate_simultaneously] below has it. *)
Definition move_and_rotate_simultaneously (dQ : list R) (dt : R) : Method unit :=
  forward_vel <- lift (getitem dQ 1) ;;
  angular_vel <- lift (getitem dQ 0) ;;
  R <- lift (divide forward_vel angular_vel) ;;
  e0 <- eta_at 0 ;;
  e2 <- eta_at 2 ;;
  e1 <- eta_at 1 ;;
  let ICC := [e0 - R * sin e2; e1 + R * cos e2] in
  let a := [ [cos (angular_vel * dt); - sin (angular_vel * dt); 0];
             [sin (angular_vel * dt); cos (angular_vel * dt); 0];
             [0; 0; 1] ] in
  icc0 <- lift (getitem ICC 0) ;;
  icc1 <- lift (getitem ICC 1) ;;
  let b := [e0 - icc0; e1 - icc1; e2] in
  let c := ICC ++ [angular_vel * dt] in
  modify (set_eta (vec_add (mat_vec a b) c)).

End Kinematics.

(** *** The simultaneous policy over floats

    The robot with its base pose held as floats, and
    [move_and_rotate_simultaneously] as the program runs it on every
    command: the radius [R] is the float quotient, and whatever it is the
    pose is computed from it and assigned. *)
Module FKinematics.
Import IEEE.
Local Open Scope R_scope.

Record MobileManipulator : Type := mkRobot {
  dof : Z;
  q : list R;
  eta : list float;
  T : option (list (list (list R)));
}.

Definition set_eta (v : list float) (r : MobileManipulator) : MobileManipulator :=
  {| dof := dof r; q := q r; eta := v; T := T r |}.

Definition Method (A : Type) : Type := M MobileManipulator A.

(** [self.eta[k]]. *)
Definition eta_at (k : Z) : Method float := e <- gets eta ;; lift (getitem e k).

Definition move_and_rotate_simultaneously (dQ : list R) (dt : R) : Method unit :=
  forward_vel <- lift (getitem dQ 1) ;;
  angular_vel <- lift (getitem dQ 0) ;;
  let R := divide forward_vel angular_vel in
  e0 <- eta_at 0 ;;
  e2 <- eta_at 2 ;;
  e1 <- eta_at 1 ;;
  let ICC := [sub e0 (mul R (lift1 sin e2)); add e1 (mul R (lift1 cos e2))] in
  let a := of_matrix
             [ [cos (angular_vel * dt); - sin (angular_vel * dt); 0];
               [sin (angular_vel * dt); cos (angular_vel * dt); 0];
               [0; 0; 1] ] in
  icc0 <- lift (getitem ICC 0) ;;
  icc1 <- lift (getitem ICC 1) ;;
  let b := [sub e0 icc0; sub e1 icc1; e2] in
  let c := ICC ++ [Finite (angular_vel * dt)] in
  modify (set_eta (vec_add (mat_vec a b) c)).

End FKinematics.

(** The real-valued robot as a robot over floats. *)
Definition float_robot (r : MobileManipulator) : FKinematics.MobileManipulator :=
  FKinematics.mkRobot (dof r) (q r) (IEEE.floats (eta r)) (T r).

(** ** Arrays of the tasks

    The operations of numpy the tasks use, on two-dimensional arrays.
    Operands of different shapes are a [ValueError] here: numpy's
    broadcasting between unequal shapes and the [-1] dimension of [reshape]
    are not modelled. *)
Module np.
Local Open Scope R_scope.

Definition flatten (m : Matrix) : list R := concat m.

(** [m[a:b, :]] for [0 <= a <= b]. *)
Definition rows (m : Matrix) (a b : nat) : Matrix := take (b - a) (drop a m).

(** [m[[i1, ..., ik]]]. *)
Fixpoint take_rows (m : Matrix) (idx : list Z) : result Matrix :=
  match idx with
  | [] => Ok []
  | i :: idx' =>
      match getitem m i, take_rows m idx' with
      | Ok row, Ok rest => Ok (row :: rest)
      | Raise e, _ => Raise e
      | _, Raise e => Raise e
      end
  end.

(** [m[a:b, j]], a one-dimensional array. *)
Definition rows_col (m : Matrix) (a b : nat) (j : nat) : result (list R) :=
  if negb (j <? ncols m)%nat then Raise IndexError
  else Ok (map (fun row => nth j row 0) (rows m a b)).

Fixpoint chunks (c : nat) (n : nat) (data : list R) : Matrix :=
  match n with
  | O => []
  | S n' => take c data :: chunks c n' (drop c data)
  end.

(** [data.reshape(r, c)]. *)
Definition reshape (data : list R) (r c : Z) : result Matrix :=
  if (0 <=? r)%Z && (0 <=? c)%Z && (r * c =? Z.of_nat (length data))%Z
  then Ok (chunks (Z.to_nat c) (Z.to_nat r) data)
  else Raise ValueError.

Definition same_shape (a b : Matrix) : bool :=
  bool_decide (map length a = map length b).

Definition elementwise (f : R -> R -> R) (a b : Matrix) : result Matrix :=
  if same_shape a b then Ok (zip_with (zip_with f) a b) else Raise ValueError.
Definition sub : Matrix -> Matrix -> result Matrix := elementwise Rminus.
Definition add : Matrix -> Matrix -> result Matrix := elementwise Rplus.

Definition column (m : Matrix) (j : nat) : list R := map (fun row => nth j row 0) m.

(** [a @ b]. *)
Definition matmul (a b : Matrix) : result Matrix :=
  if (ncols a =? length b)%nat
  then Ok (map (fun row => map (fun j => dot row (column b j)) (seq 0 (ncols b))) a)
  else Raise ValueError.

(** [np.block([[a], [b]])]: [b] under [a]. *)
Definition vstack (a b : Matrix) : result Matrix :=
  if (ncols a =? ncols b)%nat then Ok (a ++ b) else Raise ValueError.

(** [np.linalg.norm(m)]. *)
Definition norm (m : Matrix) : R :=
  sqrt (foldr Rplus 0 (map (fun x => x * x) (flatten m))).

(** [m / d] for a float [d], in a real-valued run: the quotients where
    they are real numbers. *)
Definition divide_by (m : Matrix) (d : R) : result Matrix :=
  IEEE.real_matrix (IEEE.divide_by m d).

End np.

(** ** The tasks: [class Task] and its subclasses *)

(** The attributes of [Task].  [Act] is the type of the activation value:
    an integer for the plain tasks, an array for [JointLimits], a boolean
    for [Obstacle3D].  [J] is unassigned until a constructor or [update]
    sets it. *)
Record Task (Act : Type) : Type := mkTask {
  name : String.string;
  sigma_d : Matrix;
  task_dim : nat;
  FeedForward : Matrix;
  K : Matrix;
  err_hist : list R;
  activation : Act;
  err : Matrix;
  J : option Matrix;
}.
Arguments mkTask {Act}.
Arguments name {Act}.
Arguments sigma_d {Act}.
Arguments task_dim {Act}.
Arguments FeedForward {Act}.
Arguments K {Act}.
Arguments err_hist {Act}.
Arguments activation {Act}.
Arguments err {Act}.
Arguments J {Act}.

Definition set_J {Act} (v : Matrix) (t : Task Act) : Task Act :=
  mkTask (name t) (sigma_d t) (task_dim t) (FeedForward t) (K t)
         (err_hist t) (activation t) (err t) (Some v).
Definition set_err {Act} (v : Matrix) (t : Task Act) : Task Act :=
  mkTask (name t) (sigma_d t) (task_dim t) (FeedForward t) (K t)
         (err_hist t) (activation t) v (J t).
Definition set_activation {Act} (v : Act) (t : Task Act) : Task Act :=
  mkTask (name t) (sigma_d t) (task_dim t) (FeedForward t) (K t)
         (err_hist t) v (err t) (J t).
Definition set_err_hist {Act} (v : list R) (t : Task Act) : Task Act :=
  mkTask (name t) (sigma_d t) (task_dim t) (FeedForward t) (K t)
         v (activation t) (err t) (J t).

(** [Task.__init__(name, desired, feedforward, gain)]. *)
Definition Task_init (name : String.string) (desired feedforward gain : Matrix) : Task Z :=
  mkTask name desired (length desired) feedforward gain [] 1 (zeros (length desired) 1) None.

(** A task method runs on the robot it is passed and on the task itself. *)
Definition World (C : Type) : Type := (MobileManipulator * C)%type.
Definition Method (C A : Type) : Type := M (World C) A.

(** A call [robot.m(...)]. *)
Definition on_robot {C A} (m : Robot.Method A) : Method C A :=
  fun w => let (x, r') := m (fst w) in (x, (r', snd w)).
(** Reading and assigning the task's own attributes. *)
Definition self {C A} (f : C -> A) : Method C A := gets (fun w => f (snd w)).
Definition assign {C} (f : C -> C) : Method C unit :=
  modify (fun w => (fst w, f (snd w))).

(** [self.K @ (self.getDesired() - measured) + self.getFeedForward().reshape(self.task_dim, 1)],
    the error every tracking task computes, [measured] being the robot
    accessor of the task. *)
Definition tracking_error {Act} (measured : Robot.Method Matrix) : Method (Task Act) Matrix :=
  k <- self K ;;
  d <- self sigma_d ;;
  m <- on_robot measured ;;
  diff <- lift (np.sub d m) ;;
  kd <- lift (np.matmul k diff) ;;
  ff <- self FeedForward ;;
  td <- self task_dim ;;
  ff' <- lift (np.reshape (np.flatten ff) (Z.of_nat td) 1) ;;
  lift (np.add kd ff').

Module EEPosition3D.
Definition t : Type := Task Z.

(** [__init__]. *)
Definition init (name : String.string) (desired feedforward gain : Matrix) : t :=
  set_J (zeros (task_dim (Task_init name desired feedforward gain)) 6)
        (Task_init name desired feedforward gain).

Definition update : Method t unit :=
  DoF <- on_robot Robot.getDOF ;;
  Jee <- on_robot Kinematics.getEEJacobian ;;
  assign (set_J (np.rows Jee 0 3)) ;;;
  e <- tracking_error Kinematics.getEEposition ;;
  assign (set_err e).

Definition updateActivation : Method t unit := ret tt.
End EEPosition3D.

(** The accessors [getEEorientation], [getMMJacobian], [getMMorientation]
    and [getMMposition] are called by the tasks below and defined nowhere
    in [MobileManipulator]; they are parameters of those tasks. *)
Section Accessors.
Context (getEEorientation getMMJacobian getMMorientation getMMposition : Robot.Method Matrix).

(** [class EEOrientation3D]. *)
Definition EEOrientation3D_update : Method (Task Z) unit :=
  DoF <- on_robot Robot.getDOF ;;
  Jee <- on_robot Kinematics.getEEJacobian ;;
  last <- lift (getitem Jee (-1)) ;;
  td <- self task_dim ;;
  Jr <- lift (np.reshape last (Z.of_nat td) DoF) ;;
  assign (set_J Jr) ;;;
  e <- tracking_error getEEorientation ;;
  assign (set_err e).

(** [class EEConfiguration3D], with its two extra attributes. *)
Record EEConfiguration3D : Type := mkEEConfiguration3D {
  cfg_task : Task Z;
  err_pos : option Matrix;
  err_ori : option Matrix;
}.
Definition cfg_on_task (f : Task Z -> Task Z) (c : EEConfiguration3D) : EEConfiguration3D :=
  mkEEConfiguration3D (f (cfg_task c)) (err_pos c) (err_ori c).
Definition set_err_pos (v : Matrix) (c : EEConfiguration3D) : EEConfiguration3D :=
  mkEEConfiguration3D (cfg_task c) (Some v) (err_ori c).
Definition set_err_ori (v : Matrix) (c : EEConfiguration3D) : EEConfiguration3D :=
  mkEEConfiguration3D (cfg_task c) (err_pos c) (Some v).

Definition EEConfiguration3D_update : Method EEConfiguration3D unit :=
  DoF <- on_robot Robot.getDOF ;;
  Jee <- on_robot Kinematics.getEEJacobian ;;
  sel <- lift (np.take_rows Jee [0; 1; 2; 5]) ;;
  td <- self (fun c => task_dim (cfg_task c)) ;;
  Jr <- lift (np.reshape (np.flatten sel) (Z.of_nat td) DoF) ;;
  assign (cfg_on_task (set_J Jr)) ;;;
  d <- self (fun c => sigma_d (cfg_task c)) ;;
  d03 <- lift (np.rows_col d 0 3 0) ;;
  d03' <- lift (np.reshape d03 3 1) ;;
  p <- on_robot Kinematics.getEEposition ;;
  ep <- lift (np.sub d03' p) ;;
  assign (set_err_pos ep) ;;;
  d <- self (fun c => sigma_d (cfg_task c)) ;;
  dl <- lift (getitem d (-1)) ;;
  o <- on_robot getEEorientation ;;
  eo <- lift (np.sub [dl] o) ;;
  assign (set_err_ori eo) ;;;
  k <- self (fun c => K (cfg_task c)) ;;
  blk <- lift (np.vstack ep eo) ;;
  td <- self (fun c => task_dim (cfg_task c)) ;;
  blk' <- lift (np.reshape (np.flatten blk) (Z.of_nat td) 1) ;;
  kd <- lift (np.matmul k blk') ;;
  ff <- self (fun c => FeedForward (cfg_task c)) ;;
  ff' <- lift (np.reshape (np.flatten ff) (Z.of_nat td) 1) ;;
  e <- lift (np.add kd ff') ;;
  assign (cfg_on_task (set_err e)).

(** [class MMOrientation]. *)
Definition MMOrientation_update : Method (Task Z) unit :=
  DoF <- on_robot Robot.getDOF ;;
  Jmm <- on_robot getMMJacobian ;;
  last <- lift (getitem Jmm (-1)) ;;
  td <- self task_dim ;;
  Jr <- lift (np.reshape last (Z.of_nat td) DoF) ;;
  assign (set_J Jr) ;;;
  e <- tracking_error getMMorientation ;;
  assign (set_err e).

(** [class MMposition]. *)
Definition MMposition_update : Method (Task Z) unit :=
  DoF <- on_robot Robot.getDOF ;;
  Jmm <- on_robot getMMJacobian ;;
  td <- self task_dim ;;
  Jr <- lift (np.reshape (np.flatten (np.rows Jmm 0 2)) (Z.of_nat td) DoF) ;;
  assign (set_J Jr) ;;;
  e <- tracking_error getMMposition ;;
  assign (set_err e).

End Accessors.

(** *** [class JointLimits]

    The activation is the 6 x 1 array of the constructor, one entry per
    command dimension: entries 0 and 1 for the base, entry [i + 2] for the
    joint of position [getJointPos(i + 1)].  Its entries are the integers
    the code stores and compares ([-1], [0], [1]). *)
Module JointLimits.
Local Open Scope R_scope.

Record t : Type := mk {
  task : Task (list Z);
  lower_limits : list R;
  upper_limits : list R;
  activation_thresh : R;
  deactivation_thresh : R;
}.

Definition on_task (f : Task (list Z) -> Task (list Z)) (s : t) : t :=
  mk (f (task s)) (lower_limits s) (upper_limits s)
     (activation_thresh s) (deactivation_thresh s).

(** [__init__]: the Jacobian and the error start as zeros (the error a
    one-dimensional array, here one row), the activation as [np.zeros((6, 1))]. *)
Definition init (name : String.string) (desired : Matrix)
    (lower_limits upper_limits : list R) (activation_thresh deactivation_thresh : R)
    (feedforward gain : Matrix) : t :=
  let base := Task_init name desired feedforward gain in
  mk (mkTask name desired (task_dim base) feedforward gain []
             (replicate 6 0%Z) [replicate (length desired) 0] (Some (zeros (length desired) 4)))
     lower_limits upper_limits activation_thresh deactivation_thresh.

(** [self.activation[k]] and [self.activation[k] = v]. *)
Definition activation_at (k : Z) : Method t Z :=
  a <- self (fun s => activation (task s)) ;; lift (getitem a k).
Definition set_activation_at (k : Z) (v : Z) : Method t unit :=
  a <- self (fun s => activation (task s)) ;;
  a' <- lift (setitem a k v) ;;
  assign (on_task (set_activation a')).

Definition upper_at (i : Z) : Method t R :=
  u <- self upper_limits ;; lift (getitem u i).
Definition lower_at (i : Z) : Method t R :=
  l <- self lower_limits ;; lift (getitem l i).

(** The four tests of the loop body, each of them read anew where the
    [if]/[elif] chain reaches it. *)
Definition near_upper (i : Z) : Method t bool :=
  p <- on_robot (Robot.getJointPos (i + 1)) ;;
  u <- upper_at i ;;
  th <- self activation_thresh ;;
  ret (Rgeb p (u - th)).
Definition near_lower (i : Z) : Method t bool :=
  p <- on_robot (Robot.getJointPos (i + 1)) ;;
  l <- lower_at i ;;
  th <- self activation_thresh ;;
  ret (Rleb p (l + th)).
Definition clear_of_upper (i : Z) : Method t bool :=
  p <- on_robot (Robot.getJointPos (i + 1)) ;;
  u <- upper_at i ;;
  th <- self deactivation_thresh ;;
  ret (Rleb p (u - th)).
Definition clear_of_lower (i : Z) : Method t bool :=
  p <- on_robot (Robot.getJointPos (i + 1)) ;;
  l <- lower_at i ;;
  th <- self deactivation_thresh ;;
  ret (Rgeb p (l + th)).
Definition activation_is (i : Z) (v : Z) : Method t bool :=
  a <- activation_at (i + 2) ;; ret (a =? v)%Z.

Definition updateActivation_body (i : Z) : Method t unit :=
  c <- and_ (near_upper i) (activation_is i 0) ;;
  if c then set_activation_at (i + 2) (-1)
  else
    c <- and_ (activation_is i 0) (near_lower i) ;;
    if c then set_activation_at (i + 2) 1
    else
      c <- and_ (activation_is i (-1)) (clear_of_upper i) ;;
      if c then set_activation_at (i + 2) 0
      else
        c <- and_ (activation_is i 1) (clear_of_lower i) ;;
        if c then set_activation_at (i + 2) 0
        else ret tt.

Definition updateActivation : Method t unit :=
  n <- on_robot Robot.getDOF ;;
  for_range (n - 2) updateActivation_body.

Definition update : Method t unit :=
  updateActivation ;;;
  n <- on_robot Robot.getDOF ;;
  Jn <- lift (eye n) ;;
  assign (on_task (set_J Jn)) ;;;
  g <- self (fun s => K (task s)) ;;
  assign (on_task (set_err g)).

(** [isActive]: [0] if every entry of the activation is [0], else [1]. *)
Definition isActive : Method t Z :=
  a <- self (fun s => activation (task s)) ;;
  if forallb (fun v => v =? 0)%Z a then ret 0%Z else ret 1%Z.

End JointLimits.

(** *** [class Obstacle3D] *)
Module Obstacle3D.
Local Open Scope R_scope.

Record t : Type := mk {
  task : Task bool;
  obstacle : Matrix;
  activation_thresh : R;
  deactivation_thresh : R;
  dist_to_obstacle : R;
}.

Definition on_task (f : Task bool -> Task bool) (s : t) : t :=
  mk (f (task s)) (obstacle s) (activation_thresh s)
     (deactivation_thresh s) (dist_to_obstacle s).

(** [__init__]: the error starts as [np.zeros(3)] (one row here), the
    activation as [False]. *)
Definition init (name : String.string) (desired obstacle : Matrix)
    (activation_thresh deactivation_thresh : R) (feedforward gain : Matrix) : t :=
  let base := Task_init name desired feedforward gain in
  mk (mkTask name desired (task_dim base) feedforward gain []
             false [replicate 3 0] (Some (zeros 3 4)))
     obstacle activation_thresh deactivation_thresh 0.

(** [self.obstacle.reshape(2, 1)] and
    [robot.getEETransform()[0:2, 3].reshape(2, 1)]. *)
Definition obstacle_point : Method t Matrix :=
  o <- self obstacle ;; lift (np.reshape (np.flatten o) 2 1).
Definition planar_position : Robot.Method Matrix :=
  Tee <- Robot.getEETransform ;;
  p <- lift (np.rows_col Tee 0 2 3) ;;
  lift (np.reshape p 2 1).
Definition ee_point : Method t Matrix := on_robot planar_position.

(** [np.linalg.norm(self.obstacle.reshape(2, 1) - robot.getEETransform()[0:2, 3].reshape(2, 1))]. *)
Definition distance : Method t R :=
  o <- obstacle_point ;;
  p <- ee_point ;;
  d <- lift (np.sub o p) ;;
  ret (np.norm d).

(** [update], in the real-valued reading: at the distance 0 the quotient
    is no array of real numbers and the reading stops there, while the
    program goes on as [FObstacle3D.update] below has it. *)
Definition update : Method t unit :=
  p <- ee_point ;;
  o <- obstacle_point ;;
  num <- lift (np.sub p o) ;;
  d <- distance ;;
  e <- lift (np.divide_by num d) ;;
  assign (on_task (set_err e)) ;;;
  e <- self (fun s => err (task s)) ;;
  blk <- lift (np.vstack e [[0]]) ;;
  e' <- lift (np.reshape (np.flatten blk) 3 1) ;;
  assign (on_task (set_err e')) ;;;
  Jee <- on_robot Kinematics.getEEJacobian ;;
  n <- on_robot Robot.getDOF ;;
  Jr <- lift (np.reshape (np.flatten (np.rows Jee 0 3)) 3 n) ;;
  assign (on_task (set_J Jr)).

(** [Task.isActive] and [Task.setActivation], inherited. *)
Definition isActive : Method t bool := self (fun s => activation (task s)).
Definition setActivation (v : bool) : Method t unit :=
  assign (on_task (set_activation v)).

Definition within_activation : Method t bool :=
  d <- distance ;; th <- self activation_thresh ;; ret (Rleb d th).
Definition beyond_deactivation : Method t bool :=
  d <- distance ;; th <- self deactivation_thresh ;; ret (Rgeb d th).

Definition updateActivation : Method t unit :=
  (c <- and_ (a <- isActive ;; ret (negb a)) within_activation ;;
   if c then setActivation true
   else
     c <- and_ isActive beyond_deactivation ;;
     if c then setActivation false else ret tt) ;;;
  d <- distance ;;
  assign (on_task (fun k => set_err_hist (err_hist k ++ [d]) k)).

End Obstacle3D.

(** *** [Obstacle3D.update] over floats

    The attributes of the obstacle task that [update] reads or assigns,
    with the error held as floats, and [update] as the program runs it at
    every distance: the offset is divided by the distance whatever it is,
    the quotient is assigned, and the Jacobian follows. *)
Module FObstacle3D.
Local Open Scope R_scope.

Record t : Type := mk {
  obstacle : Matrix;
  err : IEEE.Matrix;
  J : option Matrix;
}.

Definition set_err (v : IEEE.Matrix) (s : t) : t := mk (obstacle s) v (J s).
Definition set_J (v : Matrix) (s : t) : t := mk (obstacle s) (err s) (Some v).

Definition obstacle_point : Method t Matrix :=
  o <- self obstacle ;; lift (np.reshape (np.flatten o) 2 1).
Definition ee_point : Method t Matrix := on_robot Obstacle3D.planar_position.

Definition distance : Method t R :=
  o <- obstacle_point ;;
  p <- ee_point ;;
  d <- lift (np.sub o p) ;;
  ret (np.norm d).

Definition update : Method t unit :=
  p <- ee_point ;;
  o <- obstacle_point ;;
  num <- lift (np.sub p o) ;;
  d <- distance ;;
  assign (set_err (IEEE.divide_by num d)) ;;;
  e <- self err ;;
  blk <- lift (IEEE.vstack e [[IEEE.Finite 0]]) ;;
  e' <- lift (IEEE.reshape (IEEE.flatten blk) 3 1) ;;
  assign (set_err e') ;;;
  Jee <- on_robot Kinematics.getEEJacobian ;;
  n <- on_robot Robot.getDOF ;;
  Jr <- lift (np.reshape (np.flatten (np.rows Jee 0 3)) 3 n) ;;
  assign (set_J Jr).

End FObstacle3D.

(** The real-valued obstacle task as a task over floats. *)
Definition float_task (s : Obstacle3D.t) : FObstacle3D.t :=
  FObstacle3D.mk (Obstacle3D.obstacle s)
    (IEEE.of_matrix (err (Obstacle3D.task s))) (J (Obstacle3D.task s)).

(** ** The task variants behind one interface *)

Inductive AnyTask : Type :=
| AnEEPosition3D (k : EEPosition3D.t)
| AnEEOrientation3D (k : Task Z)
| AnEEConfiguration3D (k : EEConfiguration3D)
| AnMMOrientation (k : Task Z)
| AnMMposition (k : Task Z)
| AJointLimits (k : JointLimits.t)
| AnObstacle3D (k : Obstacle3D.t).

(** Running the method [m] of a variant on the robot [r] and the task [k]
    of that variant. *)
Definition call {C} (inj : C -> AnyTask) (m : Method C unit) (r : MobileManipulator) (k : C)
  : result unit * World AnyTask :=
  let '(x, (r', k')) := m (r, k) in (x, (r', inj k')).

Section Dispatch.
Context (getEEorientation getMMJacobian getMMorientation getMMposition : Robot.Method Matrix).

(** [task.update(robot)]. *)
Definition update (w : World AnyTask) : result unit * World AnyTask :=
  let r := fst w in
  match snd w with
  | AnEEPosition3D k => call AnEEPosition3D EEPosition3D.update r k
  | AnEEOrientation3D k =>
      call AnEEOrientation3D (EEOrientation3D_update getEEorientation) r k
  | AnEEConfiguration3D k =>
      call AnEEConfiguration3D (EEConfiguration3D_update getEEorientation) r k
  | AnMMOrientation k =>
      call AnMMOrientation (MMOrientation_update getMMJacobian getMMorientation) r k
  | AnMMposition k =>
      call AnMMposition (MMposition_update getMMJacobian getMMposition) r k
  | AJointLimits k => call AJointLimits JointLimits.update r k
  | AnObstacle3D k => call AnObstacle3D Obstacle3D.update r k
  end.

(** [task.updateActivation(robot)]: [pass] but for the two tasks that
    override it. *)
Definition updateActivation (w : World AnyTask) : result unit * World AnyTask :=
  let r := fst w in
  match snd w with
  | AJointLimits k => call AJointLimits JointLimits.updateActivation r k
  | AnObstacle3D k => call AnObstacle3D Obstacle3D.updateActivation r k
  | _ => (Ok tt, w)
  end.

End Dispatch.


(** ** More of [MobileManipulator]: the two Euler base policies and the
    link transforms *)
Module Integration.
Local Open Scope R_scope.

(** [a += v] on columns, in place: [v] must have the entries of [a], or a
    single entry, which is added to each entry of [a]; anything else is a
    broadcasting error and leaves [a] as it was. *)
Definition iadd (a v : list R) : result (list R) :=
  if (length v =? length a)%nat then Ok (zip_with Rplus a v)
  else
    match v with
    | [x] => Ok (map (fun y => y + x) a)
    | _ => Raise ValueError
    end.

(** [dt * np.array([a, b, c]).reshape(3, 1)]. *)
Definition scaled (dt : R) (v : list R) : list R := map (Rmult dt) v.

(** [rotate_then_move(dQ, dt)]: the heading entry [self.eta[2, 0]] is
    advanced in place first, then the whole pose by the step along the new
    heading. *)
Definition rotate_then_move (dQ : list R) (dt : R) : Robot.Method unit :=
  angular_vel <- lift (getitem dQ 0) ;;
  forward_vel <- lift (getitem dQ 1) ;;
  yaw <- Robot.eta_at 2 ;;
  old <- Robot.eta_at 2 ;;
  e <- gets eta ;;
  e' <- lift (setitem e 2 (old + angular_vel * dt)) ;;
  modify (set_eta e') ;;;
  yaw <- Robot.eta_at 2 ;;
  e <- gets eta ;;
  e' <- lift (iadd e (scaled dt [forward_vel * cos yaw; forward_vel * sin yaw; 0])) ;;
  modify (set_eta e').

(** [move_then_rotate(dQ, dt)]. *)
Definition move_then_rotate (dQ : list R) (dt : R) : Robot.Method unit :=
  forward_vel <- lift (getitem dQ 1) ;;
  angular_vel <- lift (getitem dQ 0) ;;
  yaw <- Robot.eta_at 2 ;;
  e <- gets eta ;;
  e' <- lift (iadd e (scaled dt [forward_vel * cos yaw; forward_vel * sin yaw; angular_vel])) ;;
  modify (set_eta e').

(** [getLinkTransform(Link)]. *)
Definition getLinkTransform (Link : Z) : Robot.Method Matrix :=
  n <- Robot.getDOF ;;
  t <- gets T ;;
  match t with
  | None => raise AttributeError
  | Some ts => if (n <? Link)%Z then lift (getitem ts (-1)) else lift (getitem ts Link)
  end.

End Integration.

(** ** More of [Task]: the accessors and [track_err] *)
Module TaskMethods.

Definition set_sigma_d {Act} (v : Matrix) (t : Task Act) : Task Act :=
  mkTask (name t) v (task_dim t) (FeedForward t) (K t)
         (err_hist t) (activation t) (err t) (J t).
Definition set_FeedForward {Act} (v : Matrix) (t : Task Act) : Task Act :=
  mkTask (name t) (sigma_d t) (task_dim t) v (K t)
         (err_hist t) (activation t) (err t) (J t).
Definition set_K {Act} (v : Matrix) (t : Task Act) : Task Act :=
  mkTask (name t) (sigma_d t) (task_dim t) (FeedForward t) v
         (err_hist t) (activation t) (err t) (J t).

Section Base.
Context {Act : Type}.

(** [setDesired]: [task_dim] stays what the constructor computed. *)
Definition setDesired (value : Matrix) : M (Task Act) unit := modify (set_sigma_d value).
Definition getDesired : M (Task Act) Matrix := gets sigma_d.

(** [getJacobian]: [self.J] may not have been assigned yet. *)
Definition getJacobian : M (Task Act) Matrix :=
  j <- gets J ;;
  match j with
  | None => raise AttributeError
  | Some m => ret m
  end.

Definition getError : M (Task Act) Matrix := gets err.
Definition setFeedForward (value : Matrix) : M (Task Act) unit :=
  modify (set_FeedForward value).
Definition getFeedForward : M (Task Act) Matrix := gets FeedForward.
Definition setGain (value : Matrix) : M (Task Act) unit := modify (set_K value).
Definition getGain : M (Task Act) Matrix := gets K.
Definition isActive : M (Task Act) Act := gets activation.
Definition setActivation (value : Act) : M (Task Act) unit :=
  modify (set_activation value).

(** [track_err] of [EEPosition3D], [EEOrientation3D], [MMOrientation],
    [MMposition] and [JointLimits]:
    [self.err_hist.append(np.linalg.norm(self.getError()))]. *)
Definition track_err : M (Task Act) unit :=
  e <- getError ;;
  modify (fun t => set_err_hist (err_hist t ++ [np.norm e]) t).

End Base.

(** A method of the task itself, with no robot, called on the task side of
    the world. *)
Definition on_self {C A} (m : M C A) : Method C A :=
  fun w => let (x, k') := m (snd w) in (x, (fst w, k')).

End TaskMethods.
(** ** Scenarios and readings of the specification *)

(** A robot with the joint positions [10, 20, 30, 40]. *)
Definition robot_10_20_30_40 : MobileManipulator :=
  snd (Robot.update [10; 20; 30; 40]%R init).

(** The reading of the range check [0 <= joint < DOF]: outside the range
    the call raises, inside it returns the position stored at that index. *)
Definition range_checked (r : MobileManipulator) : Prop :=
  forall joint : Z,
    (~ (0 <= joint < dof r) -> exists e, fst (Robot.getJointPos joint r) = Raise e) /\
    (0 <= joint < dof r ->
     exists v, q r !! Z.to_nat joint = Some v /\ fst (Robot.getJointPos joint r) = Ok v).

Section JacobianEntries.
Import ManipulatorParams.
Local Open Scope R_scope.
Variables q1 q2 q3 yaw : R.

(** The arm's horizontal reach [l] and the entries the code computes. *)
Definition reach : R := bx + - d1 * sin q2 + d2 * cos q3 + mx.
Definition jacobian_rows : Matrix :=
  [ [ - reach * sin q1 * cos yaw - reach * cos q1 * sin yaw;
      - d1 * cos q2 * (cos q1 * cos yaw - sin q1 * sin yaw);
      - d2 * sin q3 * (cos q1 * cos yaw - sin q1 * sin yaw);
      0 ];
    [ - reach * sin q1 * sin yaw + reach * cos q1 * cos yaw;
      - d1 * cos q2 * (cos q1 * sin yaw + sin q1 * cos yaw);
      - d2 * sin q3 * (cos q1 * cos yaw - sin q1 * sin yaw);
      0 ];
    [ 0; d1 * sin q2; - d2 * cos q3; 0 ];
    [ 0; 0; 0; 0 ];
    [ 0; 0; 0; 0 ];
    [ 1; 0; 0; 1 ] ].

End JacobianEntries.

(** The entry of row [i] and column [j]. *)
Definition entry (m : Matrix) (i j : nat) : option R :=
  match m !! i with Some row => row !! j | None => None end.

(** The robot after [update(jointState)] with the third joint at [q3] and
    the others at [0]. *)
Definition arm_at (q3 : R) : MobileManipulator :=
  snd (Robot.update [0; 0; q3; 0]%R init).

(** The coordinates [getEEposition] computes, as functions of the joint
    positions and of the base pose entries. *)
Section PositionEntries.
Import ManipulatorParams.
Local Open Scope R_scope.
Definition ee_x (q1 q2 q3 e0 : R) : R := reach q2 q3 * cos q1 + e0.
Definition ee_y (q1 q2 q3 e1 : R) : R := reach q2 q3 * sin q1 + e1.
Definition ee_z (q2 q3 e2 : R) : R :=
  - (bz + d1 * cos (- q2) + d2 * sin q3 - mz) + e2.
End PositionEntries.

(** A robot method that leaves the robot's attributes as they were, and a
    task method that leaves the robot it is passed as it was, whatever the
    outcome of the call. *)
Definition read_only {A} (m : Robot.Method A) : Prop :=
  forall r, snd (m r) = r.
Definition keeps_robot {C A} (m : Method C A) : Prop :=
  forall w, fst (snd (m w)) = fst w.

(** The accessors [MobileManipulator] does not define: calling one raises
    AttributeError. *)
Definition undefined_accessor : Robot.Method Matrix := raise AttributeError.

(** The end-effector position task of the specification's scenario:
    desired position (0.2, 0, -0.1), identity gain, no feed-forward. *)
Definition reach_task : EEPosition3D.t :=
  EEPosition3D.init "End-effector position"%string
    [[2 / 10]; [0]; [- (1 / 10)]]%R
    (zeros 3 1)
    [[1; 0; 0]; [0; 1; 0]; [0; 0; 1]]%R.

(** One pass of the [if]/[elif] chain of [JointLimits.updateActivation] on
    the activation [a] of a joint at position [p], with limits [l], [u] and
    thresholds [th] (activation) and [dth] (deactivation). *)
Definition transition (th dth p u l : R) (a : Z) : Z :=
  if Rgeb p (u - th) && (a =? 0) then -1
  else if (a =? 0) && Rleb p (l + th) then 1
  else if (a =? -1) && Rleb p (u - dth) then 0
  else if (a =? 1) && Rgeb p (l + dth) then 0
  else a.

(** The task with its activation array replaced. *)
Definition with_activation (act : list Z) (s : JointLimits.t) : JointLimits.t :=
  JointLimits.on_task (set_activation act) s.

Definition identity4 : Matrix :=
  [[1; 0; 0; 0]; [0; 1; 0; 0]; [0; 0; 1; 0]; [0; 0; 0; 1]]%R.

(** The joint-limit task with the limits and thresholds of [config.py]. *)
Definition limits_task : JointLimits.t :=
  JointLimits.init "Joint limits"%string (zeros 4 1)
    [config.limit_joint1_lower; config.limit_joint2_lower;
     config.limit_joint3_lower; config.limit_joint4_lower]
    [config.limit_joint1_upper; config.limit_joint2_upper;
     config.limit_joint3_upper; config.limit_joint4_upper]
    config.limit_joint_threshold_activate
    config.limit_joint_threshold_deactivate
    (zeros 4 1) identity4.

(** A joint-limit task for joints of a narrow range, [-0.04, 0.04], with
    the thresholds of [config.py]: the band below the upper limit and the
    band above the lower limit overlap. *)
Definition narrow_limits_task : JointLimits.t :=
  JointLimits.init "Joint limits"%string (zeros 4 1)
    [- (4 / 100); - (4 / 100); - (4 / 100); - (4 / 100)]%R
    [4 / 100; 4 / 100; 4 / 100; 4 / 100]%R
    config.limit_joint_threshold_activate
    config.limit_joint_threshold_deactivate
    (zeros 4 1) identity4.

(** The robot after [update(jointState)] with every joint well inside its
    limits. *)
Definition mid_range_robot : MobileManipulator :=
  snd (Robot.update [0; - (1 / 2); - (1 / 2); 0]%R init).

(** The outcome of the distance computation of [Obstacle3D], from the
    robot and the obstacle point. *)
Definition distance_value (r : MobileManipulator) (o : Matrix) : result R :=
  match np.reshape (np.flatten o) 2 1 with
  | Raise e => Raise e
  | Ok po =>
      match fst (Obstacle3D.planar_position r) with
      | Raise e => Raise e
      | Ok pe =>
          match np.sub po pe with
          | Raise e => Raise e
          | Ok d => Ok (np.norm d)
          end
      end
  end.

(** One pass of the [if]/[elif] of [Obstacle3D.updateActivation] at the
    distance [d]. *)
Definition obstacle_transition (th dth d : R) (a : bool) : bool :=
  if negb a && Rleb d th then true
  else if a && Rgeb d dth then false
  else a.

(** The task after a successful [Obstacle3D.updateActivation] at the
    distance [d]. *)
Definition activation_updated (d : R) (s : Obstacle3D.t) : Obstacle3D.t :=
  Obstacle3D.on_task (fun k => set_err_hist (err_hist k ++ [d]) k)
    (Obstacle3D.on_task
       (set_activation
          (obstacle_transition (Obstacle3D.activation_thresh s)
             (Obstacle3D.deactivation_thresh s) d
             (activation (Obstacle3D.task s)))) s).

(** A robot whose end-effector transform is the translation to
    [(x, y, 0)], and an obstacle task around the point (0.3, 0) with the
    thresholds 0.1 and 0.2. *)
Definition planar_transform (x y : R) : Matrix :=
  [[1; 0; 0; x]; [0; 1; 0; y]; [0; 0; 1; 0]; [0; 0; 0; 1]]%R.
Definition robot_with_ee_at (x y : R) : MobileManipulator :=
  {| dof := 4; q := replicate 4 0%R; eta := replicate 4 0%R;
     T := Some [planar_transform x y] |}.
Definition obstacle_task : Obstacle3D.t :=
  Obstacle3D.init "Obstacle"%string (zeros 3 1) [[3 / 10]; [0]]%R
    (1 / 10)%R (2 / 10)%R (zeros 3 1)
    [[1; 0; 0]; [0; 1; 0]; [0; 0; 1]]%R.

(** The entry [(i, j)] of [m] is the derivative of [f] at [x]. *)
Definition is_partial (f : R -> R) (x : R) (m : Matrix) (i j : nat) : Prop :=
  exists v, entry m i j = Some v /\ derivable_pt_lim f x v.

(** A task with its Jacobian, its error, its activation and its error
    history blanked out: what is left are the name, the desired value,
    the dimension, the feed-forward and the gain. *)
Definition blank {Act} (a0 : Act) (t : Task Act) : Task Act :=
  mkTask (name t) (sigma_d t) (task_dim t) (FeedForward t) (K t) [] a0 [] None.

(** A task of any variant without the four attributes [J], [err],
    [activation] and [err_hist]; the attributes a subclass adds are
    kept. *)
Definition but_listed (k : AnyTask) : AnyTask :=
  match k with
  | AnEEPosition3D t => AnEEPosition3D (blank 0 t)
  | AnEEOrientation3D t => AnEEOrientation3D (blank 0 t)
  | AnEEConfiguration3D c => AnEEConfiguration3D (cfg_on_task (blank 0) c)
  | AnMMOrientation t => AnMMOrientation (blank 0 t)
  | AnMMposition t => AnMMposition (blank 0 t)
  | AJointLimits s => AJointLimits (JointLimits.on_task (blank []) s)
  | AnObstacle3D s => AnObstacle3D (Obstacle3D.on_task (blank false) s)
  end.

(** The same, and without the two errors [err_pos] and [err_ori] that the
    pose task keeps beside [err]. *)
Definition but_errors (k : AnyTask) : AnyTask :=
  match k with
  | AnEEConfiguration3D c =>
      AnEEConfiguration3D (mkEEConfiguration3D (blank 0 (cfg_task c)) None None)
  | _ => but_listed k
  end.

(** The pose task as its constructor leaves it: a desired pose of four
    entries, the identity as gain, no feed-forward. *)
Definition pose_task : EEConfiguration3D :=
  mkEEConfiguration3D
    (Task_init "End-effector pose"%string
       [[2 / 10]; [0]; [- (1 / 10)]; [0]]%R (zeros 4 1) identity4)
    None None.

(** ** Further scenarios *)

(** A robot whose base pose has the three entries [(x, y, yaw)], as the
    base policies leave it. *)
Definition robot_with_pose (x y yaw : R) : MobileManipulator :=
  set_eta [x; y; yaw] init.

(** [limits_task] with the upper limit of the first joint only. *)
Definition one_upper_limit_task : JointLimits.t :=
  JointLimits.mk (JointLimits.task limits_task)
    (JointLimits.lower_limits limits_task) [config.limit_joint1_upper]
    (JointLimits.activation_thresh limits_task)
    (JointLimits.deactivation_thresh limits_task).

(** A task method that leaves the attribute (or combination of attributes)
    [attr] of the task as it was, whatever the outcome of the call. *)
Definition keeps_attr {C A X} (attr : C -> X) (m : Method C A) : Prop :=
  forall w, attr (snd (snd (m w))) = attr (snd w).

(** The obstacle task after a successful [update]: the planar error, then
    the error with its zero row, then the position rows of the Jacobian. *)
Definition obstacle_updated (px py ox oy q1 q2 q3 yaw : R) (s : Obstacle3D.t)
    : Obstacle3D.t :=
  let d := sqrt ((ox - px) * (ox - px) + (oy - py) * (oy - py)) in
  Obstacle3D.on_task (set_J (take 3 (jacobian_rows q1 q2 q3 yaw)))
    (Obstacle3D.on_task (set_err [[(px - ox) / d]; [(py - oy) / d]; [0]])
       (Obstacle3D.on_task (set_err [[(px - ox) / d]; [(py - oy) / d]]) s))%R.
(** ** Running methods: basic facts *)

Lemma bind_ok {S A B} (m : M S A) (k : A -> M S B) s a s' :
  m s = (Ok a, s') -> bind m k s = k a s'.
Proof. intros H. unfold bind. now rewrite H. Qed.

Lemma bind_raise {S A B} (m : M S A) (k : A -> M S B) s e s' :
  m s = (Raise e, s') -> bind m k s = (Raise e, s').
Proof. intros H. unfold bind. now rewrite H. Qed.

Lemma getitem_lookup {A} (l : list A) (k : nat) (v : A) :
  l !! k = Some v -> getitem l (Z.of_nat k) = Ok v.
Proof.
  intros H. unfold getitem.
  pose proof (lookup_lt_Some _ _ _ H) as Hlt.
  replace (0 <=? Z.of_nat k) with true by (symmetry; apply Z.leb_le; lia).
  replace (Z.of_nat k <? Z.of_nat (length l)) with true
    by (symmetry; apply Z.ltb_lt; lia).
  simpl. now rewrite Nat2Z.id, H.
Qed.

Lemma getitem_in_range {A} (l : list A) (k : Z) :
  0 <= k < Z.of_nat (length l) ->
  exists v, l !! Z.to_nat k = Some v /\ getitem l k = Ok v.
Proof.
  intros Hk.
  destruct (lookup_lt_is_Some_2 l (Z.to_nat k)) as [v Hv]; [lia|].
  exists v. split; [exact Hv|].
  rewrite <- (Z2Nat.id k) by lia. now apply getitem_lookup.
Qed.

Lemma getitem_wraps {A} (l : list A) (k : Z) :
  - Z.of_nat (length l) <= k < 0 ->
  exists v, l !! Z.to_nat (Z.of_nat (length l) + k) = Some v /\ getitem l k = Ok v.
Proof.
  intros Hk.
  destruct (lookup_lt_is_Some_2 l (Z.to_nat (Z.of_nat (length l) + k))) as [v Hv]; [lia|].
  exists v. split; [exact Hv|].
  unfold getitem.
  replace (0 <=? k) with false by (symmetry; apply Z.leb_gt; lia).
  replace (- Z.of_nat (length l) <=? k) with true by (symmetry; apply Z.leb_le; lia).
  replace (k <? 0) with true by (symmetry; apply Z.ltb_lt; lia).
  simpl. now rewrite Hv.
Qed.

Lemma getitem_out_of_range {A} (l : list A) (k : Z) :
  Z.of_nat (length l) <= k \/ k < - Z.of_nat (length l) ->
  getitem l k = Raise IndexError.
Proof.
  intros Hk. unfold getitem.
  destruct Hk as [Hk|Hk].
  - replace (k <? Z.of_nat (length l)) with false by (symmetry; apply Z.ltb_ge; lia).
    replace (k <? 0) with false by (symmetry; apply Z.ltb_ge; lia).
    now rewrite !andb_false_r.
  - replace (0 <=? k) with false by (symmetry; apply Z.leb_gt; lia).
    replace (- Z.of_nat (length l) <=? k) with false by (symmetry; apply Z.leb_gt; lia).
    reflexivity.
Qed.

(** The array operations on small inputs. *)
Example getitem_last : getitem [1; 2; 3] (-1) = Ok 3.
Proof. reflexivity. Qed.

Example getitem_past_the_end : getitem [1; 2; 3] 3 = Raise IndexError.
Proof. reflexivity. Qed.

Example setitem_from_the_end : setitem [1; 2; 3] (-3) 7 = Ok [7; 2; 3].
Proof. reflexivity. Qed.

Example eye_2 : eye 2 = Ok [[1; 0]; [0; 1]]%R.
Proof. reflexivity. Qed.

Example reshape_2_3 (a b c d e f : R) :
  np.reshape [a; b; c; d; e; f] 2 3 = Ok [[a; b; c]; [d; e; f]].
Proof. reflexivity. Qed.

Example reshape_wrong_size (a b c : R) : np.reshape [a; b; c] 2 2 = Raise ValueError.
Proof. reflexivity. Qed.

Example rows_col_of_transform (x y : R) :
  np.rows_col [[1; 0; 0; x]; [0; 1; 0; y]; [0; 0; 1; 0]; [0; 0; 0; 1]]%R 0 2 3
  = Ok [x; y].
Proof. reflexivity. Qed.

Example range_3 : range 3 = [0; 1; 2].
Proof. reflexivity. Qed.

Example range_negative : range (-2) = [].
Proof. reflexivity. Qed.

(** ** Joint positions by index *)

Lemma getJointPos_run (r : MobileManipulator) (joint : Z) :
  Robot.getJointPos joint r = (getitem (q r) (joint - 1), r).
Proof. reflexivity. Qed.

(** The index handed to [getJointPos] also wraps around: [0] and the
    negative indices down to [1 - len] silently name joints counted from
    the end. *)
Lemma getJointPos_wraps (r : MobileManipulator) (joint : Z) :
  let n := Z.of_nat (length (q r)) in
  1 - n <= joint <= 0 ->
  exists v, q r !! Z.to_nat (n + joint - 1) = Some v /\
            Robot.getJointPos joint r = (Ok v, r).
Proof.
  intros n Hj. rewrite getJointPos_run.
  destruct (getitem_wraps (q r) (joint - 1)) as [v [Hv Hg]]; [lia|].
  exists v. split; [|now rewrite Hg].
  now replace (n + joint - 1) with (Z.of_nat (length (q r)) + (joint - 1)) by lia.
Qed.

(** C7, counterexample: with four joints at [10, 20, 30, 40] the index [4]
    is outside [[0, DOF)] and the call returns [40]; the index [0] is
    inside and the call returns the last joint's [40], not [10]. *)
Lemma getJointPos_not_range_checked : ~ range_checked robot_10_20_30_40.
Proof.
  intros H. destruct (H 4) as [Hout _].
  destruct Hout as [e He].
  - cbn. lia.
  - cbn in He. discriminate He.
Qed.

(** C7, amended: [getJointPos] takes the joint's number counted from 1.
    For [1 <= joint <= len(q)] it returns the position [q[joint-1]] and
    leaves the robot as it was; for [joint > len(q)] and for
    [joint <= -len(q)] it raises IndexError. *)
Theorem getJointPos_one_based (r : MobileManipulator) (joint : Z) :
  let n := Z.of_nat (length (q r)) in
  (1 <= joint <= n ->
   exists v, q r !! Z.to_nat (joint - 1) = Some v /\
             Robot.getJointPos joint r = (Ok v, r)) /\
  (n < joint \/ joint <= - n ->
   Robot.getJointPos joint r = (Raise IndexError, r)).
Proof.
  intros n. split.
  - intros Hj. destruct (getitem_in_range (q r) (joint - 1)) as [v [Hv Hg]]; [lia|].
    exists v. split; [exact Hv|]. now rewrite getJointPos_run, Hg.
  - intros Hj. rewrite getJointPos_run, getitem_out_of_range; [reflexivity|lia].
Qed.

Lemma getJointPos_one_based_witness :
  Robot.getJointPos 2 robot_10_20_30_40 = (Ok 20%R, robot_10_20_30_40) /\
  Robot.getJointPos 5 robot_10_20_30_40 = (Raise IndexError, robot_10_20_30_40).
Proof.
  destruct (getJointPos_one_based robot_10_20_30_40 2) as [Hin _].
  destruct (getJointPos_one_based robot_10_20_30_40 5) as [_ Hout].
  split.
  - destruct Hin as [v [Hv Hrun]]; [cbn; lia|].
    cbn in Hv. injection Hv as <-. exact Hrun.
  - apply Hout. cbn. lia.
Defined.

(** ** The end-effector Jacobian and the forward kinematics *)

Lemma eta_at_run (r : MobileManipulator) (k : nat) (v : R) :
  eta r !! k = Some v -> Robot.eta_at (Z.of_nat k) r = (Ok v, r).
Proof.
  intros H. unfold Robot.eta_at, bind, gets, lift.
  now rewrite (getitem_lookup _ _ _ H).
Qed.

Section JacobianRun.
Local Open Scope R_scope.
Variables q1 q2 q3 q4 yaw : R.

Lemma getEEJacobian_run (r : MobileManipulator) :
  q r = [q1; q2; q3; q4] -> eta r !! 3%nat = Some yaw ->
  Kinematics.getEEJacobian r = (Ok (jacobian_rows q1 q2 q3 yaw), r).
Proof.
  intros Hq Heta. unfold Kinematics.getEEJacobian.
  unfold bind at 1. unfold gets at 1. rewrite Hq.
  unfold bind at 1. unfold lift at 1. cbn [unpack4].
  rewrite (bind_ok _ _ _ _ _ (eta_at_run r 3 yaw Heta)).
  reflexivity.
Qed.

End JacobianRun.

(** C5, counterexample: on the robot as constructed the Jacobian has 4
    columns, not the 2 + 4 of a command space with the two base
    dimensions. *)
Lemma getEEJacobian_has_no_base_columns :
  ~ (exists Jm, fst (Kinematics.getEEJacobian init) = Ok Jm /\
                shape Jm = (6, 2 + 4)%nat).
Proof.
  intros [Jm [Hrun Hshape]].
  rewrite (getEEJacobian_run 0 0 0 0 0 init) in Hrun by reflexivity.
  injection Hrun as <-. discriminate Hshape.
Qed.

(** C5, amended: for every configuration of four joints (and a base pose
    with an entry 3) [getEEJacobian] returns, leaving the robot unchanged,
    a 6 x 4 array: one column per joint rate, in the order q1, q2, q3, q4,
    and no column for the base.  Rows 0-2 of a column are the linear part,
    rows 3-5 the angular part, which is [(0, 0, 1)] for q1 and q4 and zero
    for q2 and q3. *)
Theorem getEEJacobian_shape_and_columns
    (r : MobileManipulator) (q1 q2 q3 q4 yaw : R) :
  q r = [q1; q2; q3; q4] -> eta r !! 3%nat = Some yaw ->
  exists Jm,
    Kinematics.getEEJacobian r = (Ok Jm, r) /\
    shape Jm = (6, 4)%nat /\
    (let l := reach q2 q3 in
     let c := (cos q1 * cos yaw - sin q1 * sin yaw)%R in
     let s := (cos q1 * sin yaw + sin q1 * cos yaw)%R in
     np.column Jm 0 =
       [ - l * sin q1 * cos yaw - l * cos q1 * sin yaw;
         - l * sin q1 * sin yaw + l * cos q1 * cos yaw; 0; 0; 0; 1 ]%R /\
     np.column Jm 1 =
       [ - ManipulatorParams.d1 * cos q2 * c;
         - ManipulatorParams.d1 * cos q2 * s;
         ManipulatorParams.d1 * sin q2; 0; 0; 0 ]%R /\
     np.column Jm 2 =
       [ - ManipulatorParams.d2 * sin q3 * c;
         - ManipulatorParams.d2 * sin q3 * c;
         - ManipulatorParams.d2 * cos q3; 0; 0; 0 ]%R /\
     np.column Jm 3 = [ 0; 0; 0; 0; 0; 1 ]%R).
Proof.
  intros Hq Heta. exists (jacobian_rows q1 q2 q3 yaw).
  split; [now apply getEEJacobian_run with (q4 := q4)|].
  split; [reflexivity|].
  cbv zeta. repeat split.
Qed.

Lemma getEEJacobian_shape_and_columns_witness :
  exists Jm, Kinematics.getEEJacobian init = (Ok Jm, init) /\
             shape Jm = (6, 4)%nat /\
             np.column Jm 3 = [ 0; 0; 0; 0; 0; 1 ]%R.
Proof.
  destruct (getEEJacobian_shape_and_columns init 0 0 0 0 0 eq_refl eq_refl)
    as [Jm [Hrun [Hshape [_ [_ [_ Hcol]]]]]].
  exists Jm. repeat split; assumption.
Defined.

Lemma getEEposition_run (r : MobileManipulator) (q1 q2 q3 q4 e0 e1 e2 e3 : R) rest :
  q r = [q1; q2; q3; q4] -> eta r = e0 :: e1 :: e2 :: e3 :: rest ->
  Kinematics.getEEposition r =
    (Ok [[ee_x q1 q2 q3 e0]; [ee_y q1 q2 q3 e1]; [ee_z q2 q3 e2]], r).
Proof.
  intros Hq Heta. unfold Kinematics.getEEposition.
  unfold bind at 1. unfold gets at 1. rewrite Hq.
  unfold bind at 1. unfold lift at 1. cbn [unpack4].
  rewrite (bind_ok _ _ _ _ _ (eta_at_run r 0 e0 ltac:(now rewrite Heta))).
  rewrite (bind_ok _ _ _ _ _ (eta_at_run r 1 e1 ltac:(now rewrite Heta))).
  rewrite (bind_ok _ _ _ _ _ (eta_at_run r 2 e2 ltac:(now rewrite Heta))).
  rewrite (bind_ok _ _ _ _ _ (eta_at_run r 3 e3 ltac:(now rewrite Heta))).
  reflexivity.
Qed.

Lemma sin_1_pos : (0 < sin 1)%R.
Proof.
  apply sin_gt_0; [lra|].
  pose proof PI2_1. lra.
Qed.

(** Derivatives of the expressions of the forward kinematics, one rule
    per step. *)
Lemma derivable_pt_lim_value (f : R -> R) (x l l' : R) :
  derivable_pt_lim f x l' -> l' = l -> derivable_pt_lim f x l.
Proof. intros H <-. exact H. Qed.

Lemma derivable_pt_lim_sin_of (f : R -> R) (x l : R) :
  derivable_pt_lim f x l -> derivable_pt_lim (fun t => sin (f t)) x (cos (f x) * l)%R.
Proof.
  intros H. apply (derivable_pt_lim_comp f sin x l (cos (f x)) H).
  apply derivable_pt_lim_sin.
Qed.

Lemma derivable_pt_lim_cos_of (f : R -> R) (x l : R) :
  derivable_pt_lim f x l -> derivable_pt_lim (fun t => cos (f t)) x (- sin (f x) * l)%R.
Proof.
  intros H. apply (derivable_pt_lim_comp f cos x l (- sin (f x))%R H).
  apply derivable_pt_lim_cos.
Qed.

Ltac derive_step :=
  lazymatch goal with
  | |- derivable_pt_lim (fun _ => ?c) _ _ => apply derivable_pt_lim_const
  | |- derivable_pt_lim (fun t => t) _ _ => apply derivable_pt_lim_id
  | |- derivable_pt_lim (fun t => (@?f t + @?g t)%R) _ _ =>
      apply (derivable_pt_lim_plus f g)
  | |- derivable_pt_lim (fun t => (@?f t - @?g t)%R) _ _ =>
      apply (derivable_pt_lim_minus f g)
  | |- derivable_pt_lim (fun t => (@?f t * @?g t)%R) _ _ =>
      apply (derivable_pt_lim_mult f g)
  | |- derivable_pt_lim (fun t => (- @?f t)%R) _ _ =>
      apply (derivable_pt_lim_opp f)
  | |- derivable_pt_lim (fun t => sin (@?f t)) _ _ =>
      apply (derivable_pt_lim_sin_of f)
  | |- derivable_pt_lim (fun t => cos (@?f t)) _ _ =>
      apply (derivable_pt_lim_cos_of f)
  end.

Ltac partial_derivative :=
  eexists; split; [reflexivity|];
  eapply derivable_pt_lim_value;
  [ unfold ee_x, ee_y, ee_z, reach; repeat derive_step
  | cbv beta; unfold reach; rewrite ?sin_0, ?cos_0, ?cos_neg, ?sin_neg; ring ].

(** With [eta[3] = 0], every entry of the three position rows of the
    Jacobian but [dy_dq3] is the partial derivative of the coordinate of
    its row in the joint of its column. *)
Lemma position_rows_but_dy_dq3_are_derivatives (q1 q2 q3 q4 e0 e1 e2 : R) :
  let Jm := jacobian_rows q1 q2 q3 0 in
  (is_partial (fun t => ee_x t q2 q3 e0) q1 Jm 0 0 /\
   is_partial (fun t => ee_y t q2 q3 e1) q1 Jm 1 0 /\
   is_partial (fun _ => ee_z q2 q3 e2) q1 Jm 2 0) /\
  (is_partial (fun t => ee_x q1 t q3 e0) q2 Jm 0 1 /\
   is_partial (fun t => ee_y q1 t q3 e1) q2 Jm 1 1 /\
   is_partial (fun t => ee_z t q3 e2) q2 Jm 2 1) /\
  (is_partial (fun t => ee_x q1 q2 t e0) q3 Jm 0 2 /\
   is_partial (fun t => ee_z q2 t e2) q3 Jm 2 2) /\
  (is_partial (fun _ => ee_x q1 q2 q3 e0) q4 Jm 0 3 /\
   is_partial (fun _ => ee_y q1 q2 q3 e1) q4 Jm 1 3 /\
   is_partial (fun _ => ee_z q2 q3 e2) q4 Jm 2 3).
Proof.
  intros Jm. unfold is_partial, Jm.
  repeat split; partial_derivative.
Qed.

(** C6, at the failing configuration [q = (0, 0, 1, 0)], [eta = 0]: the
    coordinate [y] of [getEEposition] does not move with [q3] (its
    derivative in [q3] is [0]), while the entry of row [y] and column [q3]
    of [getEEJacobian] is [- d2 * sin 1], which is not [0]. *)
Theorem dy_dq3_is_not_the_derivative :
  exists (y : R -> R) (Jm : Matrix) (v : R),
    (forall t, exists x z,
        fst (Kinematics.getEEposition (arm_at t)) = Ok [[x]; [y t]; [z]]) /\
    derivable_pt_lim y 1%R 0%R /\
    fst (Kinematics.getEEJacobian (arm_at 1%R)) = Ok Jm /\
    entry Jm 1 2 = Some v /\
    v = (- ManipulatorParams.d2 * sin 1)%R /\
    v <> 0%R.
Proof.
  exists (fun t => ee_y 0 0 t 0), (jacobian_rows 0 0 1 0),
         (- ManipulatorParams.d2 * sin 1 * (cos 0 * cos 0 - sin 0 * sin 0))%R.
  split; [|split; [|split; [|split; [|split]]]].
  - intros t. eexists _, _.
    now rewrite (getEEposition_run (arm_at t) 0 0 t 0 0 0 0 0 []).
  - assert (Hconst : forall t, ee_y 0 0 t 0 = 0%R).
    { intros t. unfold ee_y. rewrite sin_0. ring. }
    intros eps Heps. exists (mkposreal 1 Rlt_0_1). intros h Hh _.
    rewrite !Hconst.
    replace ((0 - 0) / h - 0)%R with 0%R by (field; exact Hh).
    now rewrite Rabs_R0.
  - now rewrite (getEEJacobian_run 0 0 1 0 0 (arm_at 1)).
  - reflexivity.
  - rewrite sin_0, cos_0. ring.
  - rewrite sin_0, cos_0. pose proof sin_1_pos as Hs.
    unfold ManipulatorParams.d2. intros Hv. lra.
Qed.
(** ** The simultaneous base-motion policy *)

Lemma divide_nonzero (x y : R) : y <> 0%R -> divide x y = Ok (x / y)%R.
Proof. intros H. unfold divide, IEEE.divide. now destruct (Req_dec_T y 0). Qed.


Lemma float_divide_nonzero (x y : R) :
  y <> 0%R -> IEEE.divide x y = IEEE.Finite (x / y).
Proof. intros H. unfold IEEE.divide. now destruct (Req_dec_T y 0). Qed.

Lemma getitem_floats (l : list R) (k : Z) :
  getitem (IEEE.floats l) k
  = match getitem l k with
    | Ok x => Ok (IEEE.Finite x)
    | Raise e => Raise e
    end.
Proof.
  unfold getitem, IEEE.floats. rewrite length_map.
  destruct ((0 <=? k) && (k <? Z.of_nat (length l))).
  - rewrite list_lookup_fmap. now destruct (l !! Z.to_nat k).
  - destruct ((- Z.of_nat (length l) <=? k) && (k <? 0)); [|reflexivity].
    rewrite list_lookup_fmap. now destruct (l !! Z.to_nat (Z.of_nat (length l) + k)).
Qed.




Section Simultaneous.
Local Open Scope R_scope.
Variables (r : MobileManipulator) (v dt x y yaw : R) (dq_rest eta_rest : list R).
Hypothesis Heta : eta r = x :: y :: yaw :: eta_rest.




End Simultaneous.

(** The two readings of the policy agree on every run that stays finite:
    unless the real-valued run stops at a value that is no real number,
    the run over floats has the same outcome and ends in the same
    state. *)
Lemma simultaneous_finite_runs_agree (dQ : list R) (dt : R) (r : MobileManipulator) :
  fst (Kinematics.move_and_rotate_simultaneously dQ dt r) <> Raise NonFinite ->
  FKinematics.move_and_rotate_simultaneously dQ dt (float_robot r)
  = (fst (Kinematics.move_and_rotate_simultaneously dQ dt r),
     float_robot (snd (Kinematics.move_and_rotate_simultaneously dQ dt r))).
Proof.
  unfold Kinematics.move_and_rotate_simultaneously,
    FKinematics.move_and_rotate_simultaneously.
  cbv [bind lift gets modify Robot.eta_at FKinematics.eta_at].
  cbn [FKinematics.eta float_robot].
  rewrite !getitem_floats.
  destruct (getitem dQ 1) as [v|e]; [|reflexivity].
  destruct (getitem dQ 0) as [w|e]; [|reflexivity].
  unfold divide, IEEE.divide.
  destruct (Req_dec_T w 0) as [Hw|Hw]; [intros H; now destruct H|].
  intros _. cbn [IEEE.real].
  destruct (getitem (eta r) 0) as [e0|e]; [|reflexivity].
  destruct (getitem (eta r) 2) as [e2|e]; [|reflexivity].
  destruct (getitem (eta r) 1) as [e1|e]; [|reflexivity].
  reflexivity.
Qed.




(** ** Tasks leave the robot unchanged *)

Section ReadOnly.
Context {A B : Type}.

Lemma read_only_ret (a : A) : read_only (ret a).
Proof. intros r. reflexivity. Qed.

Lemma read_only_raise (e : exn) : read_only (@raise _ A e).
Proof. intros r. reflexivity. Qed.

Lemma read_only_lift (x : result A) : read_only (lift x).
Proof. intros r. reflexivity. Qed.

Lemma read_only_gets (f : MobileManipulator -> A) : read_only (gets f).
Proof. intros r. reflexivity. Qed.

Lemma read_only_bind (m : Robot.Method A) (k : A -> Robot.Method B) :
  read_only m -> (forall a, read_only (k a)) -> read_only (bind m k).
Proof.
  intros Hm Hk r. unfold bind. specialize (Hm r).
  destruct (m r) as [[a|e] r']; simpl in *; subst r'; [apply Hk|reflexivity].
Qed.

End ReadOnly.

Ltac read_only_step :=
  first
    [ apply read_only_ret | apply read_only_raise | apply read_only_lift
    | apply read_only_gets
    | apply read_only_bind; [|intros ?]
    | match goal with
      | |- read_only (let '(_, _) := ?u in _) => destruct u
      | |- read_only (match ?x with _ => _ end) => destruct x
      end ].

Lemma getDOF_read_only : read_only Robot.getDOF.
Proof. apply read_only_gets. Qed.

Lemma getJointPos_read_only (joint : Z) : read_only (Robot.getJointPos joint).
Proof. unfold Robot.getJointPos. repeat read_only_step. Qed.

Lemma getEETransform_read_only : read_only Robot.getEETransform.
Proof. unfold Robot.getEETransform. repeat read_only_step. Qed.

Lemma eta_at_read_only (k : Z) : read_only (Robot.eta_at k).
Proof. unfold Robot.eta_at. repeat read_only_step. Qed.

Lemma getEEJacobian_read_only : read_only Kinematics.getEEJacobian.
Proof.
  unfold Kinematics.getEEJacobian.
  repeat first [apply eta_at_read_only | read_only_step].
Qed.

Lemma getEEposition_read_only : read_only Kinematics.getEEposition.
Proof.
  unfold Kinematics.getEEposition.
  repeat first [apply eta_at_read_only | read_only_step].
Qed.

Lemma planar_position_read_only : read_only Obstacle3D.planar_position.
Proof.
  unfold Obstacle3D.planar_position.
  repeat first [apply getEETransform_read_only | read_only_step].
Qed.

Section KeepsRobot.
Context {C A B : Type}.

Lemma keeps_ret (a : A) : keeps_robot (C := C) (ret a).
Proof. intros w. reflexivity. Qed.

Lemma keeps_raise (e : exn) : keeps_robot (C := C) (@raise _ A e).
Proof. intros w. reflexivity. Qed.

Lemma keeps_lift (x : result A) : keeps_robot (C := C) (lift x).
Proof. intros w. reflexivity. Qed.

Lemma keeps_self (f : C -> A) : keeps_robot (self f).
Proof. intros w. reflexivity. Qed.

Lemma keeps_assign (f : C -> C) : keeps_robot (assign f).
Proof. intros w. reflexivity. Qed.

Lemma keeps_on_robot (m : Robot.Method A) :
  read_only m -> keeps_robot (C := C) (on_robot m).
Proof.
  intros Hm [r k]. unfold on_robot. simpl. specialize (Hm r).
  destruct (m r) as [x r']. simpl in *. exact Hm.
Qed.

Lemma keeps_bind (m : Method C A) (k : A -> Method C B) :
  keeps_robot m -> (forall a, keeps_robot (k a)) -> keeps_robot (bind m k).
Proof.
  intros Hm Hk w. unfold bind. specialize (Hm w).
  destruct (m w) as [[a|e] w']; simpl in *; [|exact Hm].
  rewrite <- Hm. apply Hk.
Qed.

End KeepsRobot.

Lemma keeps_and_ {C} (a b : Method C bool) :
  keeps_robot a -> keeps_robot b -> keeps_robot (and_ a b).
Proof.
  intros Ha Hb. unfold and_. apply keeps_bind; [exact Ha|].
  intros [|]; [exact Hb|apply keeps_ret].
Qed.

Lemma keeps_for_each {C} (l : list Z) (body : Z -> Method C unit) :
  (forall i, keeps_robot (body i)) -> keeps_robot (for_each l body).
Proof.
  intros Hbody. induction l as [|i l IH]; simpl.
  - apply keeps_ret.
  - apply keeps_bind; [apply Hbody|intros _; exact IH].
Qed.

Create HintDb frame.
#[local] Hint Resolve getDOF_read_only getJointPos_read_only
  getEETransform_read_only getEEJacobian_read_only getEEposition_read_only
  planar_position_read_only : frame.

Ltac keeps_step :=
  first
    [ apply keeps_ret | apply keeps_raise | apply keeps_lift | apply keeps_self
    | apply keeps_assign
    | apply keeps_on_robot; solve [auto with frame]
    | apply keeps_and_
    | apply keeps_for_each; intros ?
    | apply keeps_bind; [|intros ?]
    | match goal with
      | |- keeps_robot (if ?c then _ else _) => destruct c
      end ].

Lemma tracking_error_keeps_robot {Act} (measured : Robot.Method Matrix) :
  read_only measured -> keeps_robot (tracking_error (Act := Act) measured).
Proof. intros Hm. unfold tracking_error. repeat keeps_step. Qed.

Lemma EEPosition3D_update_keeps_robot : keeps_robot EEPosition3D.update.
Proof.
  unfold EEPosition3D.update.
  repeat first [apply tracking_error_keeps_robot; solve [auto with frame] | keeps_step].
Qed.

Lemma JointLimits_updateActivation_keeps_robot :
  keeps_robot JointLimits.updateActivation.
Proof.
  unfold JointLimits.updateActivation, for_range,
    JointLimits.updateActivation_body, JointLimits.near_upper,
    JointLimits.near_lower, JointLimits.clear_of_upper,
    JointLimits.clear_of_lower, JointLimits.activation_is,
    JointLimits.set_activation_at, JointLimits.activation_at,
    JointLimits.upper_at, JointLimits.lower_at.
  repeat keeps_step.
Qed.

Lemma JointLimits_update_keeps_robot : keeps_robot JointLimits.update.
Proof.
  unfold JointLimits.update.
  repeat first [apply JointLimits_updateActivation_keeps_robot | keeps_step].
Qed.

Lemma Obstacle3D_distance_keeps_robot : keeps_robot Obstacle3D.distance.
Proof.
  unfold Obstacle3D.distance, Obstacle3D.obstacle_point, Obstacle3D.ee_point.
  repeat keeps_step.
Qed.

Lemma Obstacle3D_update_keeps_robot : keeps_robot Obstacle3D.update.
Proof.
  unfold Obstacle3D.update, Obstacle3D.obstacle_point, Obstacle3D.ee_point.
  repeat first [apply Obstacle3D_distance_keeps_robot | keeps_step].
Qed.

Lemma Obstacle3D_updateActivation_keeps_robot :
  keeps_robot Obstacle3D.updateActivation.
Proof.
  unfold Obstacle3D.updateActivation, Obstacle3D.within_activation,
    Obstacle3D.beyond_deactivation, Obstacle3D.isActive,
    Obstacle3D.setActivation.
  repeat first [apply Obstacle3D_distance_keeps_robot | keeps_step].
Qed.

Section AccessorsReadOnly.
Context (getEEorientation getMMJacobian getMMorientation getMMposition : Robot.Method Matrix).
Hypothesis getEEorientation_read_only : read_only getEEorientation.
Hypothesis getMMJacobian_read_only : read_only getMMJacobian.
Hypothesis getMMorientation_read_only : read_only getMMorientation.
Hypothesis getMMposition_read_only : read_only getMMposition.

Ltac keeps_task :=
  repeat first
    [ apply tracking_error_keeps_robot; solve [auto with frame]
    | apply keeps_on_robot; assumption
    | keeps_step ].

Lemma EEOrientation3D_update_keeps_robot :
  keeps_robot (EEOrientation3D_update getEEorientation).
Proof. unfold EEOrientation3D_update. keeps_task. Qed.

Lemma EEConfiguration3D_update_keeps_robot :
  keeps_robot (EEConfiguration3D_update getEEorientation).
Proof. unfold EEConfiguration3D_update. keeps_task. Qed.

Lemma MMOrientation_update_keeps_robot :
  keeps_robot (MMOrientation_update getMMJacobian getMMorientation).
Proof. unfold MMOrientation_update. keeps_task. Qed.

Lemma MMposition_update_keeps_robot :
  keeps_robot (MMposition_update getMMJacobian getMMposition).
Proof. unfold MMposition_update. keeps_task. Qed.

End AccessorsReadOnly.

Lemma call_keeps_robot {C} (inj : C -> AnyTask) (m : Method C unit)
    (r : MobileManipulator) (k : C) :
  keeps_robot m -> fst (snd (call inj m r k)) = r.
Proof.
  intros Hm. unfold call. specialize (Hm (r, k)).
  destruct (m (r, k)) as [x [r' k']]. exact Hm.
Qed.

(** ** Joint limits: the activation of each joint *)

Lemma Rgeb_true (x y : R) : Rgeb x y = true <-> (x >= y)%R.
Proof. unfold Rgeb. destruct (Rge_dec x y); split; intros; (easy || lra). Qed.

Lemma Rgeb_false (x y : R) : Rgeb x y = false <-> (x < y)%R.
Proof. unfold Rgeb. destruct (Rge_dec x y); split; intros; (easy || lra). Qed.

Lemma Rleb_true (x y : R) : Rleb x y = true <-> (x <= y)%R.
Proof. unfold Rleb. destruct (Rle_dec x y); split; intros; (easy || lra). Qed.

Lemma Rleb_false (x y : R) : Rleb x y = false <-> (y < x)%R.
Proof. unfold Rleb. destruct (Rle_dec x y); split; intros; (easy || lra). Qed.

Lemma with_activation_same (s : JointLimits.t) :
  with_activation (activation (JointLimits.task s)) s = s.
Proof. destruct s as [[]]. reflexivity. Qed.

Lemma with_activation_twice (a b : list Z) (s : JointLimits.t) :
  with_activation a (with_activation b s) = with_activation a s.
Proof. reflexivity. Qed.

(** A conjunction of two tests that both return and change nothing. *)
Lemma and_pure {S} (a b : M S bool) (s : S) (x y : bool) :
  a s = (Ok x, s) -> b s = (Ok y, s) -> and_ a b s = (Ok (x && y), s).
Proof.
  intros Ha Hb. unfold and_. rewrite (bind_ok _ _ _ _ _ Ha).
  destruct x; [exact Hb|reflexivity].
Qed.

Section LoopBody.
Variables (r : MobileManipulator) (s : JointLimits.t).
Variables (i : nat) (p u l : R) (a : Z).
Hypothesis Hp : q r !! i = Some p.
Hypothesis Hu : JointLimits.upper_limits s !! i = Some u.
Hypothesis Hl : JointLimits.lower_limits s !! i = Some l.
Hypothesis Ha : activation (JointLimits.task s) !! (i + 2)%nat = Some a.

Let th := JointLimits.activation_thresh s.
Let dth := JointLimits.deactivation_thresh s.

Lemma joint_position_run :
  on_robot (C := JointLimits.t) (Robot.getJointPos (Z.of_nat i + 1)) (r, s)
  = (Ok p, (r, s)).
Proof.
  unfold on_robot. cbn [fst snd]. rewrite getJointPos_run.
  replace (Z.of_nat i + 1 - 1) with (Z.of_nat i) by lia.
  now rewrite (getitem_lookup _ _ _ Hp).
Qed.

Lemma upper_at_run : JointLimits.upper_at (Z.of_nat i) (r, s) = (Ok u, (r, s)).
Proof.
  unfold JointLimits.upper_at, bind, self, gets, lift. simpl.
  now rewrite (getitem_lookup _ _ _ Hu).
Qed.

Lemma lower_at_run : JointLimits.lower_at (Z.of_nat i) (r, s) = (Ok l, (r, s)).
Proof.
  unfold JointLimits.lower_at, bind, self, gets, lift. simpl.
  now rewrite (getitem_lookup _ _ _ Hl).
Qed.

Lemma near_upper_run :
  JointLimits.near_upper (Z.of_nat i) (r, s) = (Ok (Rgeb p (u - th)), (r, s)).
Proof.
  unfold JointLimits.near_upper.
  rewrite (bind_ok _ _ _ _ _ joint_position_run).
  now rewrite (bind_ok _ _ _ _ _ upper_at_run).
Qed.

Lemma near_lower_run :
  JointLimits.near_lower (Z.of_nat i) (r, s) = (Ok (Rleb p (l + th)), (r, s)).
Proof.
  unfold JointLimits.near_lower.
  rewrite (bind_ok _ _ _ _ _ joint_position_run).
  now rewrite (bind_ok _ _ _ _ _ lower_at_run).
Qed.

Lemma clear_of_upper_run :
  JointLimits.clear_of_upper (Z.of_nat i) (r, s) = (Ok (Rleb p (u - dth)), (r, s)).
Proof.
  unfold JointLimits.clear_of_upper.
  rewrite (bind_ok _ _ _ _ _ joint_position_run).
  now rewrite (bind_ok _ _ _ _ _ upper_at_run).
Qed.

Lemma clear_of_lower_run :
  JointLimits.clear_of_lower (Z.of_nat i) (r, s) = (Ok (Rgeb p (l + dth)), (r, s)).
Proof.
  unfold JointLimits.clear_of_lower.
  rewrite (bind_ok _ _ _ _ _ joint_position_run).
  now rewrite (bind_ok _ _ _ _ _ lower_at_run).
Qed.

Lemma activation_is_run (v : Z) :
  JointLimits.activation_is (Z.of_nat i) v (r, s) = (Ok (a =? v), (r, s)).
Proof.
  unfold JointLimits.activation_is, JointLimits.activation_at, bind, self, gets, lift.
  simpl. replace (Z.of_nat i + 2) with (Z.of_nat (i + 2)) by lia.
  now rewrite (getitem_lookup _ _ _ Ha).
Qed.

Lemma set_activation_at_run (v : Z) :
  JointLimits.set_activation_at (Z.of_nat i + 2) v (r, s)
  = (Ok tt, (r, with_activation (<[(i + 2)%nat := v]> (activation (JointLimits.task s))) s)).
Proof.
  unfold JointLimits.set_activation_at, bind, self, gets, lift, assign, modify.
  simpl. unfold setitem.
  pose proof (lookup_lt_Some _ _ _ Ha) as Hlt.
  replace (0 <=? Z.of_nat i + 2) with true by (symmetry; apply Z.leb_le; lia).
  replace (Z.of_nat i + 2 <? Z.of_nat (length (activation (JointLimits.task s))))
    with true by (symmetry; apply Z.ltb_lt; lia).
  simpl. now replace (Z.to_nat (Z.of_nat i + 2)) with (i + 2)%nat by lia.
Qed.

(** The loop body at index [i] stores the result of one pass of the chain
    in entry [i + 2] and touches nothing else. *)
Lemma updateActivation_body_run :
  JointLimits.updateActivation_body (Z.of_nat i) (r, s)
  = (Ok tt, (r, with_activation
                  (<[(i + 2)%nat := transition th dth p u l a]>
                     (activation (JointLimits.task s))) s)).
Proof.
  assert (Hsame : with_activation
                    (<[(i + 2)%nat := a]> (activation (JointLimits.task s))) s = s).
  { rewrite list_insert_id by exact Ha. apply with_activation_same. }
  unfold JointLimits.updateActivation_body, transition.
  rewrite (bind_ok _ _ _ _ _ (and_pure _ _ _ _ _ near_upper_run (activation_is_run 0))).
  destruct (Rgeb p (u - th) && (a =? 0)); [apply set_activation_at_run|].
  rewrite (bind_ok _ _ _ _ _ (and_pure _ _ _ _ _ (activation_is_run 0) near_lower_run)).
  destruct ((a =? 0) && Rleb p (l + th)); [apply set_activation_at_run|].
  rewrite (bind_ok _ _ _ _ _ (and_pure _ _ _ _ _ (activation_is_run (-1)) clear_of_upper_run)).
  destruct ((a =? -1) && Rleb p (u - dth)); [apply set_activation_at_run|].
  rewrite (bind_ok _ _ _ _ _ (and_pure _ _ _ _ _ (activation_is_run 1) clear_of_lower_run)).
  destruct ((a =? 1) && Rgeb p (l + dth)); [apply set_activation_at_run|].
  unfold ret. now rewrite Hsame.
Qed.

End LoopBody.

(** The loop over the joints [k, ..., k + n - 1]: each of them makes one
    pass of the chain on its own entry; the entries of the base and of the
    joints outside the loop stay. *)
Lemma updateActivation_loop (r : MobileManipulator) (n : nat) :
  forall (k : nat) (s : JointLimits.t),
    (k + n <= length (q r))%nat ->
    (k + n <= length (JointLimits.upper_limits s))%nat ->
    (k + n <= length (JointLimits.lower_limits s))%nat ->
    (k + n + 2 <= length (activation (JointLimits.task s)))%nat ->
    exists act' : list Z,
      for_each (map Z.of_nat (seq k n)) JointLimits.updateActivation_body (r, s)
      = (Ok tt, (r, with_activation act' s)) /\
      length act' = length (activation (JointLimits.task s)) /\
      (forall j : nat, (j < k + 2 \/ k + n + 2 <= j)%nat ->
                       act' !! j = activation (JointLimits.task s) !! j) /\
      (forall (i : nat) (p u l : R) (a : Z),
          (k <= i < k + n)%nat ->
          q r !! i = Some p ->
          JointLimits.upper_limits s !! i = Some u ->
          JointLimits.lower_limits s !! i = Some l ->
          activation (JointLimits.task s) !! (i + 2)%nat = Some a ->
          act' !! (i + 2)%nat
          = Some (transition (JointLimits.activation_thresh s)
                             (JointLimits.deactivation_thresh s) p u l a)).
Proof.
  induction n as [|n IH]; intros k s Hq Hu Hl Ha.
  - exists (activation (JointLimits.task s)). simpl.
    rewrite with_activation_same.
    split; [reflexivity|]. split; [reflexivity|]. split; [reflexivity|].
    intros; lia.
  - destruct (lookup_lt_is_Some_2 (q r) k) as [p Hp]; [lia|].
    destruct (lookup_lt_is_Some_2 (JointLimits.upper_limits s) k) as [u Hku]; [lia|].
    destruct (lookup_lt_is_Some_2 (JointLimits.lower_limits s) k) as [l Hkl]; [lia|].
    destruct (lookup_lt_is_Some_2 (activation (JointLimits.task s)) (k + 2)) as [a Hka]; [lia|].
    set (act1 := <[(k + 2)%nat := transition (JointLimits.activation_thresh s)
                                    (JointLimits.deactivation_thresh s) p u l a]>
                   (activation (JointLimits.task s))).
    destruct (IH (S k) (with_activation act1 s)) as [act' [Hrun [Hlen [Hout Hin]]]].
    + lia.
    + simpl. lia.
    + simpl. lia.
    + simpl. unfold act1. rewrite length_insert. lia.
    + exists act'. simpl in Hlen, Hout, Hin. unfold act1 in Hlen.
      rewrite length_insert in Hlen.
      split; [|split; [exact Hlen|split]].
      * cbn [seq map for_each].
        rewrite (bind_ok _ _ _ _ _
                   (updateActivation_body_run r s k p u l a Hp Hku Hkl Hka)).
        fold act1. rewrite Hrun. now rewrite with_activation_twice.
      * intros j Hj. rewrite Hout by lia.
        unfold act1. apply list_lookup_insert_ne. lia.
      * intros i p' u' l' a' Hi Hp' Hu' Hl' Ha'.
        destruct (decide (i = k)) as [->|Hne].
        -- rewrite Hout by lia. unfold act1.
           rewrite list_lookup_insert_eq by (apply lookup_lt_Some in Hka; exact Hka).
           congruence.
        -- apply Hin; try assumption; [lia|].
           unfold act1. rewrite list_lookup_insert_ne by lia. exact Ha'.
Qed.

Lemma updateActivation_run (r : MobileManipulator) (s : JointLimits.t) :
  JointLimits.updateActivation (r, s)
  = for_each (map Z.of_nat (seq 0 (Z.to_nat (dof r - 2))))
             JointLimits.updateActivation_body (r, s).
Proof. reflexivity. Qed.

(** One pass of the chain, case by case. *)
Lemma transition_cases (th dth p u l : R) (a : Z) :
  let a' := transition th dth p u l a in
  (a = 0 -> (p >= u - th)%R -> a' = -1) /\
  (a = 0 -> (p < u - th)%R -> (p <= l + th)%R -> a' = 1) /\
  (a = -1 -> (p <= u - dth)%R -> a' = 0) /\
  (a = 1 -> (p >= l + dth)%R -> a' = 0) /\
  (~ (a = 0 /\ ((p >= u - th)%R \/ (p <= l + th)%R)) ->
   ~ (a = -1 /\ (p <= u - dth)%R) ->
   ~ (a = 1 /\ (p >= l + dth)%R) -> a' = a).
Proof.
  unfold transition.
  destruct (Rgeb p (u - th)) eqn:E1; [apply Rgeb_true in E1|apply Rgeb_false in E1];
  (destruct (Rleb p (l + th)) eqn:E2; [apply Rleb_true in E2|apply Rleb_false in E2]);
  (destruct (Rleb p (u - dth)) eqn:E3; [apply Rleb_true in E3|apply Rleb_false in E3]);
  (destruct (Rgeb p (l + dth)) eqn:E4; [apply Rgeb_true in E4|apply Rgeb_false in E4]);
  destruct (Z.eqb_spec a 0) as [H0|H0]; destruct (Z.eqb_spec a (-1)) as [Hm|Hm];
  destruct (Z.eqb_spec a 1) as [H1|H1]; cbn [andb];
  repeat split; intros; try lia; try lra; tauto.
Qed.

(** C1, counterexample: a joint with limits [-0.04, 0.04] at position 0,
    activation 0, thresholds 0.05 and 0.08.  The position is at most
    [lower + activationThreshold = 0.01], and after [updateActivation] the
    joint's activation is [-1], not [+1]: the test against the upper limit
    comes first. *)
Lemma overlapping_bands_activate_upper :
  exists act' : list Z,
    JointLimits.updateActivation (init, narrow_limits_task)
    = (Ok tt, (init, with_activation act' narrow_limits_task)) /\
    q init !! 0%nat = Some 0%R /\
    JointLimits.lower_limits narrow_limits_task !! 0%nat = Some (- (4 / 100))%R /\
    activation (JointLimits.task narrow_limits_task) !! 2%nat = Some 0 /\
    (0 <= - (4 / 100) + JointLimits.activation_thresh narrow_limits_task)%R /\
    act' !! 2%nat = Some (-1) /\ act' !! 2%nat <> Some 1.
Proof.
  destruct (updateActivation_loop init 2 0 narrow_limits_task)
    as [act' [Hrun [_ [_ Hin]]]]; try (cbn; lia).
  exists act'. rewrite updateActivation_run.
  split; [exact Hrun|]. do 3 (split; [reflexivity|]).
  assert (H2 : act' !! 2%nat = Some (-1)).
  { pose proof (Hin 0%nat 0%R (4 / 100)%R (- (4 / 100))%R 0
                    ltac:(lia) eq_refl eq_refl eq_refl eq_refl) as H.
    change (0 + 2)%nat with 2%nat in H. rewrite H. f_equal.
    apply (transition_cases _ _ 0%R (4 / 100)%R (- (4 / 100))%R 0); [reflexivity|].
    cbn. unfold config.limit_joint_threshold_activate. lra. }
  split; [cbn; unfold config.limit_joint_threshold_activate; lra|].
  split; [exact H2|]. rewrite H2. discriminate.
Qed.

(** C1, amended: [updateActivation] returns and, for every joint [i] of
    its loop ([0 <= i < DOF - 2]), with [p] the joint's position, [l] and
    [u] its limits and [a] its activation (entry [i + 2]) before the call,
    the activation [a'] after the call is
    - [-1] if [a = 0] and [p >= u - activationThreshold];
    - [+1] if [a = 0], [p < u - activationThreshold] and
      [p <= l + activationThreshold] (the upper test is made first);
    - [0] if [a = -1] and [p <= u - deactivationThreshold];
    - [0] if [a = +1] and [p >= l + deactivationThreshold];
    - [a] in every other case.
    In particular an upper limit 0.05 with the activation threshold 0.05
    turns the activation 0 of a joint at position 0 into [-1].  The robot,
    the other entries of the activation and the length of the array are
    unchanged. *)
Theorem JointLimits_updateActivation_hysteresis
    (r : MobileManipulator) (s : JointLimits.t) :
  let n := Z.to_nat (dof r - 2) in
  let th := JointLimits.activation_thresh s in
  let dth := JointLimits.deactivation_thresh s in
  let act := activation (JointLimits.task s) in
  (n <= length (q r))%nat ->
  (n <= length (JointLimits.upper_limits s))%nat ->
  (n <= length (JointLimits.lower_limits s))%nat ->
  (n + 2 <= length act)%nat ->
  exists act' : list Z,
    JointLimits.updateActivation (r, s) = (Ok tt, (r, with_activation act' s)) /\
    length act' = length act /\
    (forall j : nat, (j < 2 \/ n + 2 <= j)%nat -> act' !! j = act !! j) /\
    forall (i : nat) (p u l : R) (a : Z),
      (i < n)%nat ->
      q r !! i = Some p ->
      JointLimits.upper_limits s !! i = Some u ->
      JointLimits.lower_limits s !! i = Some l ->
      act !! (i + 2)%nat = Some a ->
      exists a' : Z,
        act' !! (i + 2)%nat = Some a' /\
        (a = 0 -> (p >= u - th)%R -> a' = -1) /\
        (a = 0 -> (p < u - th)%R -> (p <= l + th)%R -> a' = 1) /\
        (a = -1 -> (p <= u - dth)%R -> a' = 0) /\
        (a = 1 -> (p >= l + dth)%R -> a' = 0) /\
        (~ (a = 0 /\ ((p >= u - th)%R \/ (p <= l + th)%R)) ->
         ~ (a = -1 /\ (p <= u - dth)%R) ->
         ~ (a = 1 /\ (p >= l + dth)%R) -> a' = a) /\
        (u = (5 / 100)%R -> th = (5 / 100)%R -> p = 0%R -> a = 0 -> a' = -1).
Proof.
  intros n th dth act Hq Hu Hl Ha. subst act.
  destruct (updateActivation_loop r n 0 s) as [act' [Hrun [Hlen [Hout Hin]]]];
    try (simpl; lia).
  exists act'. rewrite updateActivation_run. fold n.
  split; [exact Hrun|]. split; [exact Hlen|]. split.
  - intros j Hj. apply Hout. simpl. lia.
  - intros i p u l a Hi Hp Hiu Hil Hia.
    exists (transition th dth p u l a).
    split; [apply Hin; (assumption || lia)|].
    destruct (transition_cases th dth p u l a) as [C1 [C2 [C3 [C4 C5]]]].
    repeat split; try assumption.
    intros -> Hth -> ->. apply C1; [reflexivity|]. rewrite Hth. lra.
Qed.

(** The boundary scenario: joint 2, limits [-1.571, 0.05], at position 0
    with the thresholds of [config.py]. *)
Lemma JointLimits_updateActivation_hysteresis_witness :
  exists act' : list Z,
    JointLimits.updateActivation (init, limits_task)
    = (Ok tt, (init, with_activation act' limits_task)) /\
    act' !! 3%nat = Some (-1).
Proof.
  destruct (JointLimits_updateActivation_hysteresis init limits_task)
    as [act' [Hrun [_ [_ Hin]]]]; try (cbn; lia).
  exists act'. split; [exact Hrun|].
  destruct (Hin 1%nat 0%R config.limit_joint2_upper config.limit_joint2_lower 0)
    as [a' [Ha' [_ [_ [_ [_ [_ Hb]]]]]]]; try reflexivity; [cbn; lia|].
  change (1 + 2)%nat with 3%nat in Ha'.
  rewrite Ha'. f_equal. apply Hb; try reflexivity.
  unfold config.limit_joint2_upper. lra.
Defined.

(** ** Joint limits: the Jacobian, the error and [isActive] *)

Lemma eye_nonneg (n : Z) :
  0 <= n -> eye n = Ok (map (unit_row (Z.to_nat n)) (seq 0 (Z.to_nat n))).
Proof.
  intros Hn. unfold eye.
  now replace (n <? 0) with false by (symmetry; apply Z.ltb_ge; lia).
Qed.

Lemma JointLimits_update_run (r : MobileManipulator) (s : JointLimits.t) (act' : list Z) :
  JointLimits.updateActivation (r, s) = (Ok tt, (r, with_activation act' s)) ->
  0 <= dof r ->
  JointLimits.update (r, s)
  = (Ok tt,
     (r, JointLimits.on_task (set_err (K (JointLimits.task s)))
           (JointLimits.on_task
              (set_J (map (unit_row (Z.to_nat (dof r))) (seq 0 (Z.to_nat (dof r)))))
              (with_activation act' s)))).
Proof.
  intros Hrun Hdof. unfold JointLimits.update.
  rewrite (bind_ok _ _ _ _ _ Hrun).
  unfold bind at 1. unfold on_robot at 1. cbn [fst snd Robot.getDOF gets].
  unfold bind at 1. unfold lift at 1. rewrite (eye_nonneg _ Hdof).
  reflexivity.
Qed.

Lemma isActive_run (w : World JointLimits.t) :
  JointLimits.isActive w
  = (Ok (if forallb (fun v => v =? 0) (activation (JointLimits.task (snd w)))
         then 0 else 1), w).
Proof.
  unfold JointLimits.isActive, bind, self, gets. cbn [fst snd].
  now destruct (forallb _ _).
Qed.

Lemma all_zero_lookup (a : list Z) :
  forallb (fun v => v =? 0) a = true <-> forall k v, a !! k = Some v -> v = 0.
Proof.
  rewrite forallb_forall. split.
  - intros H k v Hk. apply Z.eqb_eq, H.
    apply list_elem_of_In, list_elem_of_lookup. now exists k.
  - intros H v Hv. apply Z.eqb_eq.
    apply list_elem_of_In, list_elem_of_lookup in Hv as [k Hk]. now apply (H k).
Qed.

Lemma some_nonzero_lookup (a : list Z) :
  forallb (fun v => v =? 0) a = false <-> exists k v, a !! k = Some v /\ v <> 0.
Proof.
  induction a as [|x a IH]; simpl.
  - split; [discriminate|]. intros [k [v [Hk _]]]. destruct k; discriminate Hk.
  - destruct (Z.eqb_spec x 0) as [Hx|Hx]; simpl.
    + rewrite IH. split; intros [k [v [Hk Hv]]].
      * exists (S k), v. now split.
      * destruct k as [|k]; simpl in Hk.
        -- injection Hk as <-. contradiction.
        -- exists k, v. now split.
    + split; [intros _|reflexivity]. exists 0%nat, x. now split.
Qed.

(** C8, counterexample: with the limits of [config.py] and every joint
    well inside them, after [update] the activations of the two joints of
    the loop are 0 and the Jacobian is the whole 4 x 4 identity: each
    joint has its unit row although its activation is 0. *)
Lemma inactive_joints_keep_their_unit_rows :
  exists s' : JointLimits.t,
    JointLimits.update (mid_range_robot, limits_task) = (Ok tt, (mid_range_robot, s')) /\
    activation (JointLimits.task s') !! 2%nat = Some 0 /\
    activation (JointLimits.task s') !! 3%nat = Some 0 /\
    J (JointLimits.task s') = Some identity4.
Proof.
  destruct (updateActivation_loop mid_range_robot 2 0 limits_task)
    as [act' [Hrun [_ [_ Hin]]]]; try (cbn; lia).
  change (JointLimits.updateActivation (mid_range_robot, limits_task)
          = (Ok tt, (mid_range_robot, with_activation act' limits_task))) in Hrun.
  eexists. split; [apply (JointLimits_update_run _ _ act' Hrun); cbn; lia|].
  cbn [JointLimits.task JointLimits.on_task with_activation activation set_err set_J
       set_activation J].
  assert (Hstay : forall p u l : R,
             (p < u - 5 / 100)%R -> (l + 5 / 100 < p)%R ->
             transition (5 / 100) (8 / 100) p u l 0 = 0).
  { intros p u l H1 H2.
    apply (transition_cases (5 / 100) (8 / 100) p u l 0); intros [Ha Hb]; try lia.
    destruct Hb; lra. }
  split; [|split].
  - pose proof (Hin 0%nat _ _ _ 0 ltac:(lia) eq_refl eq_refl eq_refl eq_refl) as H.
    change (0 + 2)%nat with 2%nat in H. rewrite H. f_equal. apply Hstay.
    + unfold config.limit_joint1_upper. lra.
    + unfold config.limit_joint1_lower. lra.
  - pose proof (Hin 1%nat _ _ _ 0 ltac:(lia) eq_refl eq_refl eq_refl eq_refl) as H.
    change (1 + 2)%nat with 3%nat in H. rewrite H. f_equal. apply Hstay.
    + unfold config.limit_joint2_upper. lra.
    + unfold config.limit_joint2_lower. lra.
  - reflexivity.
Qed.

(** C8, amended: [update] first runs [updateActivation]; then, whatever
    the activations are, the Jacobian is the whole DOF x DOF identity (row
    [i] is the unit row of joint [i] for every [i], also for a joint whose
    activation is 0) and the error is the configured gain [K].  The robot
    is unchanged.  [isActive] returns 1 if some entry of the activation
    array is nonzero and 0 if every entry is 0. *)
Theorem JointLimits_update_identity_and_gain
    (r : MobileManipulator) (s : JointLimits.t) :
  let n := Z.to_nat (dof r - 2) in
  let d := Z.to_nat (dof r) in
  (n <= length (q r))%nat ->
  (n <= length (JointLimits.upper_limits s))%nat ->
  (n <= length (JointLimits.lower_limits s))%nat ->
  (n + 2 <= length (activation (JointLimits.task s)))%nat ->
  0 <= dof r ->
  exists (s' : JointLimits.t) (Jn : Matrix),
    JointLimits.update (r, s) = (Ok tt, (r, s')) /\
    snd (snd (JointLimits.updateActivation (r, s)))
    = with_activation (activation (JointLimits.task s')) s /\
    J (JointLimits.task s') = Some Jn /\
    length Jn = d /\
    (forall i : nat, (i < d)%nat -> Jn !! i = Some (unit_row d i)) /\
    err (JointLimits.task s') = K (JointLimits.task s) /\
    (fst (JointLimits.isActive (r, s')) = Ok 1 <->
     exists k v, activation (JointLimits.task s') !! k = Some v /\ v <> 0) /\
    (fst (JointLimits.isActive (r, s')) = Ok 0 <->
     forall k v, activation (JointLimits.task s') !! k = Some v -> v = 0).
Proof.
  intros n d Hq Hu Hl Ha Hdof.
  destruct (updateActivation_loop r n 0 s) as [act' [Hrun [_ _]]]; try (simpl; lia).
  change (JointLimits.updateActivation (r, s) = (Ok tt, (r, with_activation act' s)))
    in Hrun.
  eexists. exists (map (unit_row d) (seq 0 d)).
  split; [apply (JointLimits_update_run _ _ act' Hrun Hdof)|].
  rewrite Hrun.
  cbn [JointLimits.task JointLimits.on_task with_activation activation set_err set_J
       set_activation J err K fst snd].
  split; [reflexivity|]. split; [reflexivity|].
  split; [now rewrite List.length_map, length_seq|].
  split.
  { intros i Hi. unfold Matrix.
    rewrite list_lookup_fmap, lookup_seq_lt by exact Hi. reflexivity. }
  split; [reflexivity|].
  rewrite isActive_run.
  cbn [JointLimits.task JointLimits.on_task with_activation activation set_err set_J
       set_activation fst snd].
  pose proof (all_zero_lookup act') as Hz.
  pose proof (some_nonzero_lookup act') as Hn.
  destruct (forallb (fun v => v =? 0) act'); split.
  - split; [discriminate|]. intros Hex. apply Hn in Hex. discriminate Hex.
  - split; [intros _; now apply Hz|reflexivity].
  - split; [intros _; now apply Hn|reflexivity].
  - split; [discriminate|]. intros Hall. apply Hz in Hall. discriminate Hall.
Qed.

Lemma JointLimits_update_identity_and_gain_witness :
  exists (s' : JointLimits.t) (Jn : Matrix),
    JointLimits.update (init, limits_task) = (Ok tt, (init, s')) /\
    J (JointLimits.task s') = Some Jn /\
    length Jn = 4%nat /\
    err (JointLimits.task s') = identity4.
Proof.
  destruct (JointLimits_update_identity_and_gain init limits_task)
    as [s' [Jn [Hrun [_ [HJ [Hlen [_ [Herr _]]]]]]]]; try (cbn; lia).
  exists s', Jn. repeat split; assumption.
Defined.

(** ** Obstacle avoidance: distance, activation and error *)

Lemma on_robot_read_only {C A} (m : Robot.Method A) (r : MobileManipulator) (k : C) :
  read_only m -> on_robot m (r, k) = (fst (m r), (r, k)).
Proof.
  intros Hm. unfold on_robot. cbn [fst snd]. specialize (Hm r).
  destruct (m r) as [x r']. simpl in *. now subst r'.
Qed.

Lemma distance_run (r : MobileManipulator) (s : Obstacle3D.t) :
  Obstacle3D.distance (r, s) = (distance_value r (Obstacle3D.obstacle s), (r, s)).
Proof.
  unfold Obstacle3D.distance, Obstacle3D.obstacle_point, Obstacle3D.ee_point,
    distance_value.
  unfold bind at 1. unfold bind at 1. unfold self, gets, lift. cbn [fst snd].
  destruct (np.reshape (np.flatten (Obstacle3D.obstacle s)) 2 1) as [po|e];
    [|reflexivity].
  unfold bind at 1. rewrite (on_robot_read_only _ r s planar_position_read_only).
  destruct (fst (Obstacle3D.planar_position r)) as [pe|e]; [|reflexivity].
  unfold bind. now destruct (np.sub po pe).
Qed.

Lemma on_task_same_activation (s : Obstacle3D.t) :
  Obstacle3D.on_task (set_activation (activation (Obstacle3D.task s))) s = s.
Proof. destruct s as [[]]. reflexivity. Qed.

(** [updateActivation] as a whole: it raises what the distance computation
    raises, leaving the task as it was; otherwise it makes one pass of the
    [if]/[elif] and logs the distance. *)
Lemma Obstacle3D_updateActivation_run (r : MobileManipulator) (s : Obstacle3D.t) :
  Obstacle3D.updateActivation (r, s)
  = match distance_value r (Obstacle3D.obstacle s) with
    | Raise e => (Raise e, (r, s))
    | Ok d => (Ok tt, (r, activation_updated d s))
    end.
Proof.
  unfold Obstacle3D.updateActivation, Obstacle3D.within_activation,
    Obstacle3D.beyond_deactivation, Obstacle3D.isActive, Obstacle3D.setActivation,
    activation_updated, obstacle_transition, and_.
  unfold bind at 1. unfold bind at 1. unfold bind at 1. unfold bind at 1.
  unfold self at 1. unfold gets at 1. cbn [fst snd ret].
  destruct (activation (Obstacle3D.task s)) eqn:Eact; cbn [negb andb].
  - (* active *)
    unfold ret at 1.
    unfold bind at 1. unfold bind at 1. unfold self at 1. unfold gets at 1.
    cbn [fst snd]. rewrite Eact.
    unfold bind at 1. rewrite distance_run.
    destruct (distance_value r (Obstacle3D.obstacle s)) as [d|e] eqn:Ed;
      [|reflexivity].
    unfold bind at 1. unfold self at 1. unfold gets at 1. cbn [fst snd ret].
    destruct (Rgeb d (Obstacle3D.deactivation_thresh s)).
    + unfold assign at 1. unfold modify at 1. cbn [fst snd].
      unfold bind. rewrite distance_run. cbn [Obstacle3D.obstacle Obstacle3D.on_task].
      rewrite Ed. reflexivity.
    + unfold ret at 1. unfold bind. rewrite distance_run, Ed.
      unfold assign, modify. cbn [fst snd].
      rewrite <- Eact. now rewrite on_task_same_activation.
  - (* inactive *)
    unfold bind at 1. rewrite distance_run.
    destruct (distance_value r (Obstacle3D.obstacle s)) as [d|e] eqn:Ed;
      [|reflexivity].
    unfold bind at 1. unfold self at 1. unfold gets at 1. cbn [fst snd ret].
    destruct (Rleb d (Obstacle3D.activation_thresh s)).
    + unfold assign at 1. unfold modify at 1. cbn [fst snd].
      unfold bind. rewrite distance_run. cbn [Obstacle3D.obstacle Obstacle3D.on_task].
      rewrite Ed. reflexivity.
    + unfold bind at 1. unfold bind at 1. unfold self at 1. unfold gets at 1.
      cbn [fst snd]. rewrite Eact. unfold ret at 1. unfold ret at 1.
      unfold bind. rewrite distance_run, Ed.
      unfold assign, modify. cbn [fst snd].
      rewrite <- Eact. now rewrite on_task_same_activation.
Qed.

Lemma elementwise_same_shape (f : R -> R -> R) (a b : Matrix) :
  map length a = map length b ->
  np.elementwise f a b = Ok (zip_with (zip_with f) a b).
Proof.
  intros H. unfold np.elementwise, np.same_shape.
  now rewrite bool_decide_eq_true_2 by exact H.
Qed.

Section Points.
Local Open Scope R_scope.
Variables (r : MobileManipulator) (s : Obstacle3D.t) (px py ox oy : R).
Hypothesis Hee : fst (Obstacle3D.ee_point (r, s)) = Ok [[px]; [py]].
Hypothesis Hob : fst (Obstacle3D.obstacle_point (r, s)) = Ok [[ox]; [oy]].

Lemma ee_point_run : Obstacle3D.ee_point (r, s) = (Ok [[px]; [py]], (r, s)).
Proof.
  unfold Obstacle3D.ee_point in *.
  rewrite (on_robot_read_only _ r s planar_position_read_only) in *.
  cbn [fst] in Hee. now rewrite Hee.
Qed.

Lemma obstacle_point_run :
  Obstacle3D.obstacle_point (r, s) = (Ok [[ox]; [oy]], (r, s)).
Proof.
  unfold Obstacle3D.obstacle_point, bind, self, gets, lift in *.
  cbn [fst snd] in *. now rewrite Hob.
Qed.

(** The distance is the Euclidean one between the two planar points. *)
Lemma distance_value_points :
  distance_value r (Obstacle3D.obstacle s)
  = Ok (sqrt ((ox - px) * (ox - px) + (oy - py) * (oy - py))).
Proof.
  pose proof ee_point_run as He. pose proof obstacle_point_run as Ho.
  unfold Obstacle3D.ee_point in He.
  rewrite (on_robot_read_only _ r s planar_position_read_only) in He.
  unfold Obstacle3D.obstacle_point, bind, self, gets, lift in Ho.
  cbn [fst snd] in Ho.
  injection He as He. injection Ho as Ho.
  unfold distance_value. rewrite Ho, He.
  unfold np.sub. rewrite elementwise_same_shape by reflexivity.
  unfold np.norm, np.flatten. cbn. do 2 f_equal. ring.
Qed.

End Points.




(** C10: with [activationThreshold < deactivationThreshold], a second
    [updateActivation] on the same robot leaves the activation as the
    first call made it; when the distance is defined both calls return
    and each appends it to the error history. *)
Theorem Obstacle3D_updateActivation_idempotent (w : World Obstacle3D.t) :
  (Obstacle3D.activation_thresh (snd w) < Obstacle3D.deactivation_thresh (snd w))%R ->
  let w1 := snd (Obstacle3D.updateActivation w) in
  let w2 := snd (Obstacle3D.updateActivation w1) in
  activation (Obstacle3D.task (snd w2)) = activation (Obstacle3D.task (snd w1)) /\
  fst w1 = fst w /\ fst w2 = fst w /\
  forall d : R,
    fst (Obstacle3D.distance w) = Ok d ->
    fst (Obstacle3D.updateActivation w) = Ok tt /\
    fst (Obstacle3D.updateActivation w1) = Ok tt /\
    err_hist (Obstacle3D.task (snd w1)) = err_hist (Obstacle3D.task (snd w)) ++ [d] /\
    err_hist (Obstacle3D.task (snd w2)) = err_hist (Obstacle3D.task (snd w)) ++ [d; d].
Proof.
  intros Hth w1 w2. subst w2 w1. destruct w as [r s]. cbn [fst snd] in Hth.
  rewrite Obstacle3D_updateActivation_run, distance_run. cbn [fst].
  destruct (distance_value r (Obstacle3D.obstacle s)) as [d|e] eqn:Ed.
  - cbn [fst snd]. rewrite Obstacle3D_updateActivation_run.
    cbn [activation_updated Obstacle3D.on_task Obstacle3D.obstacle].
    rewrite Ed.
    cbn [fst snd activation_updated Obstacle3D.on_task Obstacle3D.task activation
         set_activation set_err_hist Obstacle3D.activation_thresh
         Obstacle3D.deactivation_thresh err_hist].
    split; [|split; [reflexivity|split; [reflexivity|]]].
    + unfold obstacle_transition.
      destruct (Rleb d (Obstacle3D.activation_thresh s)) eqn:E1;
        [apply Rleb_true in E1|apply Rleb_false in E1];
      (destruct (Rgeb d (Obstacle3D.deactivation_thresh s)) eqn:E2;
        [apply Rgeb_true in E2|apply Rgeb_false in E2]);
      destruct (activation (Obstacle3D.task s)); cbn [negb andb];
      try reflexivity; lra.
    + intros d' Hd'. injection Hd' as <-.
      repeat split. now rewrite <- app_assoc.
  - cbn [fst snd]. rewrite Obstacle3D_updateActivation_run, Ed.
    do 3 (split; [reflexivity|]). intros d' Hd. discriminate Hd.
Qed.

Lemma Obstacle3D_updateActivation_idempotent_witness :
  let w := (robot_with_ee_at (3 / 10) 0, obstacle_task) in
  let w1 := snd (Obstacle3D.updateActivation w) in
  let w2 := snd (Obstacle3D.updateActivation w1) in
  activation (Obstacle3D.task (snd w2)) = activation (Obstacle3D.task (snd w1)).
Proof.
  apply (Obstacle3D_updateActivation_idempotent
           (robot_with_ee_at (3 / 10) 0, obstacle_task)).
  cbn. lra.
Defined.

Lemma reals_floats (l : list R) : IEEE.reals (IEEE.floats l) = Ok l.
Proof. induction l as [|x l IH]; [reflexivity|]. cbn. unfold IEEE.floats in IH. now rewrite IH. Qed.

Lemma real_matrix_of_matrix (m : Matrix) : IEEE.real_matrix (IEEE.of_matrix m) = Ok m.
Proof.
  induction m as [|row m IH]; [reflexivity|].
  cbn. rewrite reals_floats. unfold IEEE.of_matrix in IH. now rewrite IH.
Qed.

Lemma float_divide_by_nonzero (m : Matrix) (d : R) :
  d <> 0%R ->
  IEEE.divide_by m d = IEEE.of_matrix (map (map (fun x => (x / d)%R)) m).
Proof.
  intros H. unfold IEEE.divide_by, IEEE.of_matrix, IEEE.floats.
  rewrite map_map. apply map_ext. intros row. rewrite map_map. apply map_ext.
  intros x. now apply float_divide_nonzero.
Qed.

Lemma divide_by_nonzero (m : Matrix) (d : R) :
  d <> 0%R -> np.divide_by m d = Ok (map (map (fun x => (x / d)%R)) m).
Proof.
  intros H. unfold np.divide_by.
  now rewrite (float_divide_by_nonzero _ _ H), real_matrix_of_matrix.
Qed.

Lemma reshape_3_1 (a b c : R) : np.reshape [a; b; c] 3 1 = Ok [[a]; [b]; [c]].
Proof. reflexivity. Qed.

Lemma reshape_position_rows (q1 q2 q3 yaw : R) :
  np.reshape (np.flatten (np.rows (jacobian_rows q1 q2 q3 yaw) 0 3)) 3 4
  = Ok (take 3 (jacobian_rows q1 q2 q3 yaw)).
Proof. reflexivity. Qed.

(** [update] up to the division: the two points, their difference and the
    distance are computed without touching the state. *)
Lemma Obstacle3D_update_numerator
    (r : MobileManipulator) (s : Obstacle3D.t) (px py ox oy : R)
    (k : Matrix -> Method Obstacle3D.t unit) :
  fst (Obstacle3D.ee_point (r, s)) = Ok [[px]; [py]] ->
  fst (Obstacle3D.obstacle_point (r, s)) = Ok [[ox]; [oy]] ->
  (p <- Obstacle3D.ee_point ;;
   o <- Obstacle3D.obstacle_point ;;
   num <- lift (np.sub p o) ;;
   d <- Obstacle3D.distance ;;
   e <- lift (np.divide_by num d) ;;
   k e) (r, s)
  = match np.divide_by [[px - ox]; [py - oy]]%R
            (sqrt ((ox - px) * (ox - px) + (oy - py) * (oy - py))) with
    | Ok e => k e (r, s)
    | Raise x => (Raise x, (r, s))
    end.
Proof.
  intros Hee Hob.
  rewrite (bind_ok _ _ _ _ _ (ee_point_run r s px py Hee)).
  rewrite (bind_ok _ _ _ _ _ (obstacle_point_run r s ox oy Hob)).
  unfold bind at 1. unfold lift at 1. unfold np.sub.
  rewrite elementwise_same_shape by reflexivity. cbn [zip_with].
  unfold bind at 1.
  rewrite distance_run, (distance_value_points r s px py ox oy Hee Hob).
  unfold bind at 1. unfold lift at 1.
  now destruct (np.divide_by _ _).
Qed.

(** The same computations on the task over floats. *)
Lemma float_distance_run (r : MobileManipulator) (k : FObstacle3D.t) :
  FObstacle3D.distance (r, k) = (distance_value r (FObstacle3D.obstacle k), (r, k)).
Proof.
  unfold FObstacle3D.distance, FObstacle3D.obstacle_point, FObstacle3D.ee_point,
    distance_value.
  unfold bind at 1. unfold bind at 1. unfold self, gets, lift. cbn [fst snd].
  destruct (np.reshape (np.flatten (FObstacle3D.obstacle k)) 2 1) as [po|e];
    [|reflexivity].
  unfold bind at 1. rewrite (on_robot_read_only _ r k planar_position_read_only).
  destruct (fst (Obstacle3D.planar_position r)) as [pe|e]; [|reflexivity].
  unfold bind. now destruct (np.sub po pe).
Qed.


Section FloatUpdate.
Local Open Scope R_scope.
Variables (r : MobileManipulator) (s : Obstacle3D.t) (px py ox oy q1 q2 q3 q4 yaw : R).
Hypothesis Hee : fst (Obstacle3D.ee_point (r, s)) = Ok [[px]; [py]].
Hypothesis Hob : fst (Obstacle3D.obstacle_point (r, s)) = Ok [[ox]; [oy]].
Hypothesis Hq : q r = [q1; q2; q3; q4].
Hypothesis Heta : eta r !! 3%nat = Some yaw.
Hypothesis Hdof : dof r = 4%Z.

Let d := sqrt ((ox - px) * (ox - px) + (oy - py) * (oy - py)).


End FloatUpdate.




(** ** The two readings of [update] agree on the runs that stay finite *)

Lemma reals_ok_inv (l : list IEEE.float) (v : list R) :
  IEEE.reals l = Ok v -> l = IEEE.floats v.
Proof.
  revert v. induction l as [|a l IH]; intros v H.
  - now injection H as <-.
  - cbn in H. destruct a as [x|]; [|discriminate].
    cbn in H. destruct (IEEE.reals l) as [v'|e]; [|discriminate].
    injection H as <-. cbn. now rewrite (IH v' eq_refl).
Qed.

Lemma reals_raise (l : list IEEE.float) (e : exn) :
  IEEE.reals l = Raise e -> e = NonFinite.
Proof.
  induction l as [|a l IH]; intros H; [discriminate|].
  cbn in H. destruct a as [x|]; cbn in H.
  - destruct (IEEE.reals l) as [v'|e']; [discriminate|].
    injection H as <-. now apply IH.
  - now injection H as <-.
Qed.

Lemma real_matrix_ok_inv (m : IEEE.Matrix) (v : Matrix) :
  IEEE.real_matrix m = Ok v -> m = IEEE.of_matrix v.
Proof.
  revert v. induction m as [|row m IH]; intros v H.
  - now injection H as <-.
  - cbn in H. destruct (IEEE.reals row) as [x|e] eqn:Erow.
    + destruct (IEEE.real_matrix m) as [v'|e]; [|discriminate].
      injection H as <-. cbn. now rewrite (reals_ok_inv _ _ Erow), (IH v' eq_refl).
    + discriminate.
Qed.

Lemma real_matrix_raise (m : IEEE.Matrix) (e : exn) :
  IEEE.real_matrix m = Raise e -> e = NonFinite.
Proof.
  induction m as [|row m IH]; intros H; [discriminate|].
  cbn in H. destruct (IEEE.reals row) as [x|e'] eqn:Erow.
  - destruct (IEEE.real_matrix m) as [v'|e'']; [discriminate|].
    injection H as <-. now apply IH.
  - injection H as <-. exact (reals_raise _ _ Erow).
Qed.

Lemma float_ncols (m : Matrix) : IEEE.ncols (IEEE.of_matrix m) = ncols m.
Proof. destruct m as [|row m]; [reflexivity|]. cbn. apply length_map. Qed.

Lemma float_vstack (a b : Matrix) :
  IEEE.vstack (IEEE.of_matrix a) (IEEE.of_matrix b)
  = match np.vstack a b with
    | Ok m => Ok (IEEE.of_matrix m)
    | Raise e => Raise e
    end.
Proof.
  unfold IEEE.vstack, np.vstack. rewrite !float_ncols.
  destruct (ncols a =? ncols b)%nat; [|reflexivity].
  unfold IEEE.of_matrix. now rewrite map_app.
Qed.

Lemma float_flatten (m : Matrix) :
  IEEE.flatten (IEEE.of_matrix m) = IEEE.floats (np.flatten m).
Proof.
  unfold IEEE.flatten, np.flatten, IEEE.of_matrix, IEEE.floats.
  induction m as [|row m IH]; [reflexivity|].
  cbn. now rewrite map_app, IH.
Qed.

Lemma float_chunks (c n : nat) (data : list R) :
  IEEE.chunks c n (IEEE.floats data) = IEEE.of_matrix (np.chunks c n data).
Proof.
  revert data. induction n as [|n IH]; intros data; [reflexivity|].
  cbn. unfold IEEE.floats at 1 2. rewrite <- fmap_take, <- fmap_drop.
  f_equal. apply IH.
Qed.

Lemma float_reshape (data : list R) (r c : Z) :
  IEEE.reshape (IEEE.floats data) r c
  = match np.reshape data r c with
    | Ok m => Ok (IEEE.of_matrix m)
    | Raise e => Raise e
    end.
Proof.
  unfold IEEE.reshape, np.reshape. unfold IEEE.floats at 1. rewrite length_map.
  destruct ((0 <=? r) && (0 <=? c) && (r * c =? Z.of_nat (length data)));
    [|reflexivity].
  now rewrite float_chunks.
Qed.

Ltac both_raise H :=
  injection H as <- <- <-; reflexivity.

(** Unless the real-valued run of [update] stops at a value that is no
    real number, the run over floats has the same outcome, leaves the
    robot the same and ends with the same error and Jacobian. *)
Lemma Obstacle3D_update_finite_runs_agree
    (r r' : MobileManipulator) (s s' : Obstacle3D.t) (x : result unit) :
  Obstacle3D.update (r, s) = (x, (r', s')) ->
  x <> Raise NonFinite ->
  FObstacle3D.update (r, float_task s) = (x, (r', float_task s')).
Proof.
  intros H Hx. unfold Obstacle3D.update in H. unfold FObstacle3D.update.
  (* the end effector's point *)
  unfold bind at 1 in H. unfold bind at 1.
  unfold Obstacle3D.ee_point in H. unfold FObstacle3D.ee_point.
  rewrite (on_robot_read_only _ r _ planar_position_read_only) in H.
  rewrite (on_robot_read_only _ r _ planar_position_read_only).
  destruct (fst (Obstacle3D.planar_position r)) as [p|e]; [|both_raise H].
  (* the obstacle point *)
  unfold bind at 1 in H. unfold bind at 1.
  unfold Obstacle3D.obstacle_point in H. unfold FObstacle3D.obstacle_point.
  unfold bind at 1 in H. unfold bind at 1.
  unfold self at 1 in H. unfold self at 1.
  unfold gets at 1 in H. unfold gets at 1.
  unfold lift at 1 in H. unfold lift at 1.
  cbn [fst snd float_task FObstacle3D.obstacle] in H |- *.
  destruct (np.reshape (np.flatten (Obstacle3D.obstacle s)) 2 1) as [o|e];
    [|both_raise H].
  (* their difference *)
  unfold bind at 1 in H. unfold bind at 1.
  unfold lift at 1 in H. unfold lift at 1.
  destruct (np.sub p o) as [num|e]; [|both_raise H].
  (* the distance *)
  unfold bind at 1 in H. unfold bind at 1.
  rewrite distance_run in H. rewrite float_distance_run.
  cbn [FObstacle3D.obstacle float_task] in *.
  destruct (distance_value r (Obstacle3D.obstacle s)) as [d|e]; [|both_raise H].
  (* the division *)
  unfold bind at 1 in H. unfold lift at 1 in H.
  unfold np.divide_by in H.
  destruct (IEEE.real_matrix (IEEE.divide_by num d)) as [e|e] eqn:Ediv.
  2:{ apply real_matrix_raise in Ediv. injection H as <- _ _. now subst e. }
  apply real_matrix_ok_inv in Ediv. rewrite Ediv.
  unfold bind at 1 in H. unfold bind at 1.
  unfold assign at 1 in H. unfold assign at 1.
  unfold modify at 1 in H. unfold modify at 1.
  cbn [fst snd] in H |- *.
  (* the zero under the error *)
  unfold bind at 1 in H. unfold bind at 1.
  unfold self at 1 in H. unfold self at 1.
  unfold gets at 1 in H. unfold gets at 1.
  cbn [fst snd Obstacle3D.on_task Obstacle3D.task set_err err
       FObstacle3D.set_err FObstacle3D.err] in H |- *.
  unfold bind at 1 in H. unfold bind at 1.
  unfold lift at 1 in H. unfold lift at 1.
  change [[IEEE.Finite 0]] with (IEEE.of_matrix [[0%R]]).
  rewrite float_vstack.
  destruct (np.vstack e [[0%R]]) as [blk|e0]; [|both_raise H].
  unfold bind at 1 in H. unfold bind at 1.
  unfold lift at 1 in H. unfold lift at 1.
  rewrite float_flatten, float_reshape.
  destruct (np.reshape (np.flatten blk) 3 1) as [e'|e0]; [|both_raise H].
  unfold bind at 1 in H. unfold bind at 1.
  unfold assign at 1 in H. unfold assign at 1.
  unfold modify at 1 in H. unfold modify at 1.
  cbn [fst snd] in H |- *.
  (* the Jacobian *)
  unfold bind at 1 in H. unfold bind at 1.
  rewrite (on_robot_read_only _ r _ getEEJacobian_read_only) in H.
  rewrite (on_robot_read_only _ r _ getEEJacobian_read_only).
  destruct (fst (Kinematics.getEEJacobian r)) as [Jee|e0]; [|both_raise H].
  unfold bind at 1 in H. unfold bind at 1.
  unfold on_robot at 1 in H. unfold on_robot at 1.
  cbn [fst snd Robot.getDOF gets] in H |- *.
  unfold bind at 1 in H. unfold bind at 1.
  unfold lift at 1 in H. unfold lift at 1.
  destruct (np.reshape (np.flatten (np.rows Jee 0 3)) 3 (dof r)) as [Jr|e0];
    [|both_raise H].
  unfold assign, modify in H |- *. cbn [fst snd] in H |- *.
  injection H as <- <- <-. reflexivity.
Qed.

(** ** The Euler base policies *)

Lemma eta_at_short (r : MobileManipulator) (k : nat) :
  (length (eta r) <= k)%nat -> Robot.eta_at (Z.of_nat k) r = (Raise IndexError, r).
Proof.
  intros H. unfold Robot.eta_at, bind, gets, lift.
  rewrite getitem_out_of_range; [reflexivity|lia].
Qed.

Lemma command_entries (w v : R) (rest : list R) :
  getitem (w :: v :: rest) 0 = Ok w /\ getitem (w :: v :: rest) 1 = Ok v.
Proof.
  split.
  - exact (getitem_lookup (w :: v :: rest) 0 w eq_refl).
  - exact (getitem_lookup (w :: v :: rest) 1 v eq_refl).
Qed.

Lemma setitem_in_range {A} (l : list A) (k : nat) (v : A) :
  (k < length l)%nat -> setitem l (Z.of_nat k) v = Ok (<[k := v]> l).
Proof.
  intros H. unfold setitem.
  replace (0 <=? Z.of_nat k) with true by (symmetry; apply Z.leb_le; lia).
  replace (Z.of_nat k <? Z.of_nat (length l)) with true
    by (symmetry; apply Z.ltb_lt; lia).
  simpl. now rewrite Nat2Z.id.
Qed.

Lemma iadd_three_longer (a b c d : R) (e rest : list R) (x y z : R) :
  Integration.iadd (a :: b :: c :: d :: rest) [x; y; z] = Raise ValueError.
Proof. reflexivity. Qed.

Section EulerPolicies.
Local Open Scope R_scope.
Variables (r : MobileManipulator) (w v dt : R) (rest : list R).

Lemma move_then_rotate_three (x y yaw : R) :
  eta r = [x; y; yaw] ->
  Integration.move_then_rotate (w :: v :: rest) dt r
  = (Ok tt, set_eta [x + dt * (v * cos yaw); y + dt * (v * sin yaw); yaw + dt * w] r).
Proof.
  intros Heta. unfold Integration.move_then_rotate.
  destruct (command_entries w v rest) as [H0 H1].
  unfold bind at 1. unfold lift at 1. rewrite H1.
  unfold bind at 1. unfold lift at 1. rewrite H0.
  rewrite (bind_ok _ _ _ _ _ (eta_at_run r 2 yaw ltac:(now rewrite Heta))).
  unfold bind at 1. unfold gets at 1. rewrite Heta.
  reflexivity.
Qed.

Lemma move_then_rotate_short :
  (length (eta r) < 3)%nat ->
  Integration.move_then_rotate (w :: v :: rest) dt r = (Raise IndexError, r).
Proof.
  intros Hlen. unfold Integration.move_then_rotate.
  destruct (command_entries w v rest) as [H0 H1].
  unfold bind at 1. unfold lift at 1. rewrite H1.
  unfold bind at 1. unfold lift at 1. rewrite H0.
  now rewrite (bind_raise _ _ _ _ _ (eta_at_short r 2 ltac:(lia))).
Qed.

Lemma move_then_rotate_long :
  (3 < length (eta r))%nat ->
  Integration.move_then_rotate (w :: v :: rest) dt r = (Raise ValueError, r).
Proof.
  intros Hlen. unfold Integration.move_then_rotate.
  destruct (command_entries w v rest) as [H0 H1].
  unfold bind at 1. unfold lift at 1. rewrite H1.
  unfold bind at 1. unfold lift at 1. rewrite H0.
  destruct (eta r) as [|x [|y [|yaw [|e3 tl]]]] eqn:Heta; try (simpl in Hlen; lia).
  rewrite (bind_ok _ _ _ _ _ (eta_at_run r 2 yaw ltac:(now rewrite Heta))).
  unfold bind at 1. unfold gets at 1. rewrite Heta.
  reflexivity.
Qed.

Lemma rotate_then_move_three (x y yaw : R) :
  eta r = [x; y; yaw] ->
  Integration.rotate_then_move (w :: v :: rest) dt r
  = (Ok tt,
     set_eta [x + dt * (v * cos (yaw + w * dt));
              y + dt * (v * sin (yaw + w * dt));
              yaw + w * dt + dt * 0] r).
Proof.
  intros Heta. unfold Integration.rotate_then_move.
  destruct (command_entries w v rest) as [H0 H1].
  unfold bind at 1. unfold lift at 1. rewrite H0.
  unfold bind at 1. unfold lift at 1. rewrite H1.
  rewrite (bind_ok _ _ _ _ _ (eta_at_run r 2 yaw ltac:(now rewrite Heta))).
  rewrite (bind_ok _ _ _ _ _ (eta_at_run r 2 yaw ltac:(now rewrite Heta))).
  unfold bind at 1. unfold gets at 1. rewrite Heta.
  reflexivity.
Qed.

Lemma rotate_then_move_short :
  (length (eta r) < 3)%nat ->
  Integration.rotate_then_move (w :: v :: rest) dt r = (Raise IndexError, r).
Proof.
  intros Hlen. unfold Integration.rotate_then_move.
  destruct (command_entries w v rest) as [H0 H1].
  unfold bind at 1. unfold lift at 1. rewrite H0.
  unfold bind at 1. unfold lift at 1. rewrite H1.
  now rewrite (bind_raise _ _ _ _ _ (eta_at_short r 2 ltac:(lia))).
Qed.

Lemma rotate_then_move_long (x y yaw e3 : R) (tl : list R) :
  eta r = x :: y :: yaw :: e3 :: tl ->
  Integration.rotate_then_move (w :: v :: rest) dt r
  = (Raise ValueError, set_eta (x :: y :: (yaw + w * dt) :: e3 :: tl) r).
Proof.
  intros Heta. unfold Integration.rotate_then_move.
  destruct (command_entries w v rest) as [H0 H1].
  unfold bind at 1. unfold lift at 1. rewrite H0.
  unfold bind at 1. unfold lift at 1. rewrite H1.
  rewrite (bind_ok _ _ _ _ _ (eta_at_run r 2 yaw ltac:(now rewrite Heta))).
  rewrite (bind_ok _ _ _ _ _ (eta_at_run r 2 yaw ltac:(now rewrite Heta))).
  unfold bind at 1. unfold gets at 1. rewrite Heta.
  unfold bind at 1. unfold lift at 1.
  rewrite (setitem_in_range (x :: y :: yaw :: e3 :: tl) 2) by (simpl; lia).
  unfold bind at 1. unfold modify at 1. cbn [list_insert insert].
  rewrite (bind_ok _ _ _ _ _
             (eta_at_run (set_eta (x :: y :: (yaw + w * dt) :: e3 :: tl) r) 2
                (yaw + w * dt) eq_refl)).
  reflexivity.
Qed.

End EulerPolicies.

(** X1: [move_then_rotate] advances a base pose of exactly three entries
    [(x, y, yaw)] by one Euler step along the old heading.  On a pose of
    fewer entries it raises IndexError, on a pose of more entries (the
    four of the constructor and of [update]) ValueError; in both cases
    the robot is left as it was. *)
Theorem move_then_rotate_needs_three_entries
    (r : MobileManipulator) (w v dt : R) (rest : list R) :
  (forall x y yaw : R,
      eta r = [x; y; yaw] ->
      Integration.move_then_rotate (w :: v :: rest) dt r
      = (Ok tt,
         set_eta [x + dt * (v * cos yaw); y + dt * (v * sin yaw); yaw + dt * w]%R r)) /\
  ((length (eta r) < 3)%nat ->
   Integration.move_then_rotate (w :: v :: rest) dt r = (Raise IndexError, r)) /\
  ((3 < length (eta r))%nat ->
   Integration.move_then_rotate (w :: v :: rest) dt r = (Raise ValueError, r)).
Proof.
  split; [|split].
  - intros x y yaw. apply move_then_rotate_three.
  - apply move_then_rotate_short.
  - apply move_then_rotate_long.
Qed.

(** X2: [rotate_then_move] advances a pose of exactly three entries by the
    heading first and then by the step along the new heading.  On a pose
    of more than three entries it raises ValueError after the heading
    entry has been advanced in place: the call fails and the robot is
    changed.  On a pose of fewer than three entries it raises IndexError
    and changes nothing. *)
Theorem rotate_then_move_partial_update
    (r : MobileManipulator) (w v dt : R) (rest : list R) :
  (forall x y yaw : R,
      eta r = [x; y; yaw] ->
      exists pose : list R,
        Integration.rotate_then_move (w :: v :: rest) dt r = (Ok tt, set_eta pose r) /\
        pose !! 0%nat = Some (x + dt * (v * cos (yaw + w * dt)))%R /\
        pose !! 1%nat = Some (y + dt * (v * sin (yaw + w * dt)))%R /\
        (exists h, pose !! 2%nat = Some h /\ h = (yaw + w * dt)%R) /\
        length pose = 3%nat) /\
  (forall (x y yaw e3 : R) (tl : list R),
      eta r = x :: y :: yaw :: e3 :: tl ->
      Integration.rotate_then_move (w :: v :: rest) dt r
      = (Raise ValueError, set_eta (x :: y :: (yaw + w * dt)%R :: e3 :: tl) r)) /\
  ((length (eta r) < 3)%nat ->
   Integration.rotate_then_move (w :: v :: rest) dt r = (Raise IndexError, r)).
Proof.
  split; [|split].
  - intros x y yaw Heta. eexists.
    split; [exact (rotate_then_move_three r w v dt rest x y yaw Heta)|].
    split; [reflexivity|]. split; [reflexivity|]. split; [|reflexivity].
    eexists. split; [reflexivity|]. ring.
  - intros x y yaw e3 tl. apply rotate_then_move_long.
  - apply rotate_then_move_short.
Qed.

(** X3: on a pose of three entries the two Euler policies end at the same
    heading [yaw + w dt] and move the base by the same distance [|v dt|];
    they differ only in the direction of the step.  With a zero angular
    velocity they leave the robot in the same state. *)
Theorem euler_policies_compared
    (r : MobileManipulator) (w v dt x y yaw : R) (rest : list R) :
  eta r = [x; y; yaw] ->
  exists x1 y1 h1 x2 y2 h2 : R,
    Integration.move_then_rotate (w :: v :: rest) dt r = (Ok tt, set_eta [x1; y1; h1] r) /\
    Integration.rotate_then_move (w :: v :: rest) dt r = (Ok tt, set_eta [x2; y2; h2] r) /\
    h1 = (yaw + w * dt)%R /\ h2 = (yaw + w * dt)%R /\
    ((x1 - x) * (x1 - x) + (y1 - y) * (y1 - y) = (v * dt) * (v * dt))%R /\
    ((x2 - x) * (x2 - x) + (y2 - y) * (y2 - y) = (v * dt) * (v * dt))%R /\
    (w = 0%R -> x1 = x2 /\ y1 = y2 /\ h1 = h2).
Proof.
  intros Heta. do 6 eexists.
  split; [exact (move_then_rotate_three r w v dt rest x y yaw Heta)|].
  split; [exact (rotate_then_move_three r w v dt rest x y yaw Heta)|].
  split; [ring|]. split; [ring|].
  split.
  { replace (x + dt * (v * cos yaw) - x)%R with (v * dt * cos yaw)%R by ring.
    replace (y + dt * (v * sin yaw) - y)%R with (v * dt * sin yaw)%R by ring.
    pose proof (sin2_cos2 yaw) as H. unfold Rsqr in H. nra. }
  split.
  { replace (x + dt * (v * cos (yaw + w * dt)) - x)%R
      with (v * dt * cos (yaw + w * dt))%R by ring.
    replace (y + dt * (v * sin (yaw + w * dt)) - y)%R
      with (v * dt * sin (yaw + w * dt))%R by ring.
    pose proof (sin2_cos2 (yaw + w * dt)) as H. unfold Rsqr in H. nra. }
  intros ->. replace (yaw + 0 * dt)%R with yaw by ring.
  repeat split; ring.
Qed.

Lemma euler_policies_compared_witness :
  exists x1 y1 h1 x2 y2 h2 : R,
    Integration.move_then_rotate [0; 1]%R (1 / 10)%R (robot_with_pose 0 0 0)
    = (Ok tt, set_eta [x1; y1; h1] (robot_with_pose 0 0 0)) /\
    Integration.rotate_then_move [0; 1]%R (1 / 10)%R (robot_with_pose 0 0 0)
    = (Ok tt, set_eta [x2; y2; h2] (robot_with_pose 0 0 0)) /\
    x1 = x2 /\ y1 = y2 /\ h1 = h2.
Proof.
  destruct (euler_policies_compared (robot_with_pose 0 0 0) 0 1 (1 / 10) 0 0 0 []
              eq_refl)
    as [x1 [y1 [h1 [x2 [y2 [h2 [Hm [Hr [_ [_ [_ [_ Hsame]]]]]]]]]]]].
  exists x1, y1, h1, x2, y2, h2.
  split; [exact Hm|]. split; [exact Hr|]. now apply Hsame.
Defined.

(** ** Base steps against the kinematics *)

(** The kinematics read [self.eta[3]]: on a pose of at most three entries
    they raise. *)
Lemma kinematics_need_entry_3 (r : MobileManipulator) :
  (length (eta r) <= 3)%nat ->
  (exists e, Kinematics.getEEJacobian r = (Raise e, r)) /\
  (exists e, Kinematics.getEEposition r = (Raise e, r)).
Proof.
  intros Hlen. split.
  - unfold Kinematics.getEEJacobian.
    unfold bind at 1. unfold gets at 1.
    unfold bind at 1. unfold lift at 1.
    destruct (unpack4 (q r)) as [[[[q1 q2] q3] q4]|e]; [|now exists e].
    rewrite (bind_raise _ _ _ _ _ (eta_at_short r 3 Hlen)). now exists IndexError.
  - unfold Kinematics.getEEposition.
    unfold bind at 1. unfold gets at 1.
    unfold bind at 1. unfold lift at 1.
    destruct (unpack4 (q r)) as [[[[q1 q2] q3] q4]|e]; [|now exists e].
    destruct (eta r) as [|e0 [|e1 [|e2 [|e3 tl]]]] eqn:Heta;
      try (simpl in Hlen; lia).
    + rewrite (bind_raise _ _ _ _ _ (eta_at_short r 0 ltac:(rewrite Heta; simpl; lia))).
      now exists IndexError.
    + rewrite (bind_ok _ _ _ _ _ (eta_at_run r 0 e0 ltac:(now rewrite Heta))).
      rewrite (bind_raise _ _ _ _ _ (eta_at_short r 1 ltac:(rewrite Heta; simpl; lia))).
      now exists IndexError.
    + rewrite (bind_ok _ _ _ _ _ (eta_at_run r 0 e0 ltac:(now rewrite Heta))).
      rewrite (bind_ok _ _ _ _ _ (eta_at_run r 1 e1 ltac:(now rewrite Heta))).
      rewrite (bind_raise _ _ _ _ _ (eta_at_short r 2 ltac:(rewrite Heta; simpl; lia))).
      now exists IndexError.
    + rewrite (bind_ok _ _ _ _ _ (eta_at_run r 0 e0 ltac:(now rewrite Heta))).
      rewrite (bind_ok _ _ _ _ _ (eta_at_run r 1 e1 ltac:(now rewrite Heta))).
      rewrite (bind_ok _ _ _ _ _ (eta_at_run r 2 e2 ltac:(now rewrite Heta))).
      rewrite (bind_raise _ _ _ _ _ (eta_at_short r 3 ltac:(rewrite Heta; simpl; lia))).
      now exists IndexError.
Qed.

Lemma euler_success_pose (policy : list R -> R -> Robot.Method unit)
    (dQ : list R) (dt : R) (r : MobileManipulator) :
  policy = Integration.move_then_rotate \/ policy = Integration.rotate_then_move ->
  fst (policy dQ dt r) = Ok tt ->
  length (eta r) = 3%nat /\ length (eta (snd (policy dQ dt r))) = 3%nat.
Proof.
  intros Hpolicy Hok.
  destruct dQ as [|w [|v rest]].
  - destruct Hpolicy as [-> | ->]; discriminate Hok.
  - destruct Hpolicy as [-> | ->]; discriminate Hok.
  - destruct (lt_eq_lt_dec (length (eta r)) 3) as [[Hlt|Heq]|Hgt].
    + destruct Hpolicy as [-> | ->].
      * rewrite move_then_rotate_short in Hok by exact Hlt. discriminate Hok.
      * rewrite rotate_then_move_short in Hok by exact Hlt. discriminate Hok.
    + split; [exact Heq|].
      destruct (eta r) as [|x [|y [|yaw [|e3 tl]]]] eqn:Heta; try discriminate Heq.
      destruct Hpolicy as [-> | ->].
      * now rewrite (move_then_rotate_three r w v dt rest x y yaw Heta).
      * now rewrite (rotate_then_move_three r w v dt rest x y yaw Heta).
    + destruct Hpolicy as [-> | ->].
      * rewrite move_then_rotate_long in Hok by exact Hgt. discriminate Hok.
      * destruct (eta r) as [|x [|y [|yaw [|e3 tl]]]] eqn:Heta;
          try (simpl in Hgt; lia).
        rewrite (rotate_then_move_long r w v dt rest x y yaw e3 tl Heta) in Hok.
        discriminate Hok.
Qed.

(** X4: the Euler policies and the kinematics exclude each other.  If
    [move_then_rotate] or [rotate_then_move] returns, the base pose had
    three entries and has three entries afterwards, so [getEEJacobian] and
    [getEEposition], which read [eta[3]], raise before the step and after
    it.  In particular no robot state lets both a Euler step and the
    Jacobian succeed. *)
Theorem euler_step_excludes_kinematics
    (policy : list R -> R -> Robot.Method unit)
    (dQ : list R) (dt : R) (r : MobileManipulator) :
  policy = Integration.move_then_rotate \/ policy = Integration.rotate_then_move ->
  fst (policy dQ dt r) = Ok tt ->
  let r' := snd (policy dQ dt r) in
  length (eta r) = 3%nat /\ length (eta r') = 3%nat /\
  (exists e, Kinematics.getEEJacobian r = (Raise e, r)) /\
  (exists e, Kinematics.getEEposition r = (Raise e, r)) /\
  (exists e, Kinematics.getEEJacobian r' = (Raise e, r')) /\
  (exists e, Kinematics.getEEposition r' = (Raise e, r')).
Proof.
  intros Hpolicy Hok r'.
  destruct (euler_success_pose policy dQ dt r Hpolicy Hok) as [H3 H3'].
  fold r' in H3'.
  destruct (kinematics_need_entry_3 r ltac:(lia)) as [HJ HP].
  destruct (kinematics_need_entry_3 r' ltac:(lia)) as [HJ' HP'].
  repeat split; assumption.
Qed.

Lemma euler_step_excludes_kinematics_witness :
  let r' := snd (Integration.move_then_rotate [1; 1]%R 1%R (robot_with_pose 0 0 0)) in
  exists e, Kinematics.getEEJacobian r' = (Raise e, r').
Proof.
  intros r'.
  destruct (euler_step_excludes_kinematics Integration.move_then_rotate
              [1; 1]%R 1%R (robot_with_pose 0 0 0) (or_introl eq_refl) eq_refl)
    as [_ [_ [_ [_ [HJ _]]]]].
  exact HJ.
Defined.

(** X5: on the robot as the constructor and [update(jointState)] leave it
    (a base pose of four entries) the kinematics are defined exactly when
    the message has four joint positions, and no Euler step can be taken:
    [update] resets the base pose to four zeros whatever it was; with four
    positions [getEEJacobian] and [getEEposition] return, with any other
    number they raise ValueError; [move_then_rotate] raises ValueError and
    [rotate_then_move] raises ValueError. *)
Theorem update_then_kinematics (r : MobileManipulator) (position : list R) :
  let r' := snd (Robot.update position r) in
  fst (Robot.update position r) = Ok tt /\
  q r' = position /\ eta r' = [0; 0; 0; 0]%R /\ dof r' = dof r /\ T r' = T r /\
  (length position = 4%nat ->
   (exists Jm, Kinematics.getEEJacobian r' = (Ok Jm, r')) /\
   (exists P, Kinematics.getEEposition r' = (Ok P, r'))) /\
  (length position <> 4%nat ->
   Kinematics.getEEJacobian r' = (Raise ValueError, r') /\
   Kinematics.getEEposition r' = (Raise ValueError, r')) /\
  (forall (w v dt : R) (rest : list R),
      Integration.move_then_rotate (w :: v :: rest) dt r' = (Raise ValueError, r') /\
      fst (Integration.rotate_then_move (w :: v :: rest) dt r') = Raise ValueError).
Proof.
  intros r'. subst r'. cbn [Robot.update bind modify fst snd].
  split; [reflexivity|]. do 4 (split; [reflexivity|]).
  set (r' := set_eta (replicate 4 0%R) (set_q position r)).
  split; [|split].
  - intros Hlen.
    destruct position as [|q1 [|q2 [|q3 [|q4 [|]]]]]; try discriminate Hlen.
    split.
    + eexists. now apply (getEEJacobian_run q1 q2 q3 q4 0%R r').
    + eexists. now apply (getEEposition_run r' q1 q2 q3 q4 0 0 0 0 []).
  - intros Hlen.
    destruct position as [|q1 [|q2 [|q3 [|q4 [|]]]]]; try (now destruct Hlen);
      split; reflexivity.
  - intros w v dt rest. split.
    + apply move_then_rotate_long. cbn. lia.
    + now rewrite (rotate_then_move_long r' w v dt rest 0 0 0 0 [])%R.
Qed.

(** ** The arc of the simultaneous policy *)

Lemma simultaneous_nonzero_run
    (r : MobileManipulator) (w v dt x y yaw : R) (dq_rest eta_rest : list R) :
  eta r = x :: y :: yaw :: eta_rest -> w <> 0%R ->
  Kinematics.move_and_rotate_simultaneously (w :: v :: dq_rest) dt r
  = (Ok tt,
     set_eta [ x + v / w * (sin (yaw + w * dt) - sin yaw);
               y - v / w * (cos (yaw + w * dt) - cos yaw);
               yaw + w * dt ]%R r).
Proof.
  intros Heta Hw. unfold Kinematics.move_and_rotate_simultaneously.
  destruct (command_entries w v dq_rest) as [H0 H1].
  unfold bind at 1. unfold lift at 1. rewrite H1.
  unfold bind at 1. unfold lift at 1. rewrite H0.
  unfold bind at 1. unfold lift at 1. rewrite (divide_nonzero _ _ Hw).
  rewrite (bind_ok _ _ _ _ _ (eta_at_run r 0 x ltac:(now rewrite Heta))).
  rewrite (bind_ok _ _ _ _ _ (eta_at_run r 2 yaw ltac:(now rewrite Heta))).
  rewrite (bind_ok _ _ _ _ _ (eta_at_run r 1 y ltac:(now rewrite Heta))).
  cbn. unfold modify. do 2 f_equal.
  rewrite sin_plus, cos_plus.
  repeat (f_equal; try (field; exact Hw)).
Qed.

(** X6: with a nonzero angular velocity the simultaneous policy keeps the
    base on the circle of radius [|v / w|] around the centre
    [ICC = (x - v/w sin yaw, y + v/w cos yaw)]: the pose before the step
    and the pose after it are both at the squared distance [(v / w)^2]
    from it.  The pose after the step has three entries, whatever number
    it had before. *)
Theorem simultaneous_step_stays_on_circle
    (r : MobileManipulator) (w v dt x y yaw : R) (dq_rest eta_rest : list R) :
  eta r = x :: y :: yaw :: eta_rest -> w <> 0%R ->
  let cx := (x - v / w * sin yaw)%R in
  let cy := (y + v / w * cos yaw)%R in
  exists x' y' : R,
    Kinematics.move_and_rotate_simultaneously (w :: v :: dq_rest) dt r
    = (Ok tt, set_eta [x'; y'; (yaw + w * dt)%R] r) /\
    ((x - cx) * (x - cx) + (y - cy) * (y - cy) = (v / w) * (v / w))%R /\
    ((x' - cx) * (x' - cx) + (y' - cy) * (y' - cy) = (v / w) * (v / w))%R.
Proof.
  intros Heta Hw cx cy. do 2 eexists.
  split; [exact (simultaneous_nonzero_run r w v dt x y yaw dq_rest eta_rest Heta Hw)|].
  subst cx cy. split.
  - pose proof (sin2_cos2 yaw) as H. unfold Rsqr in H.
    replace (x - (x - v / w * sin yaw))%R with (v / w * sin yaw)%R by ring.
    replace (y - (y + v / w * cos yaw))%R with (- (v / w * cos yaw))%R by ring.
    nra.
  - pose proof (sin2_cos2 (yaw + w * dt)) as H. unfold Rsqr in H.
    replace (x + v / w * (sin (yaw + w * dt) - sin yaw) - (x - v / w * sin yaw))%R
      with (v / w * sin (yaw + w * dt))%R by ring.
    replace (y - v / w * (cos (yaw + w * dt) - cos yaw) - (y + v / w * cos yaw))%R
      with (- (v / w * cos (yaw + w * dt)))%R by ring.
    nra.
Qed.

Lemma simultaneous_step_stays_on_circle_witness :
  exists x' y' : R,
    Kinematics.move_and_rotate_simultaneously [1; 1]%R 1%R init
    = (Ok tt, set_eta [x'; y'; (0 + 1 * 1)%R] init) /\
    ((x' - (0 - 1 / 1 * sin 0)) * (x' - (0 - 1 / 1 * sin 0))
     + (y' - (0 + 1 / 1 * cos 0)) * (y' - (0 + 1 / 1 * cos 0))
     = (1 / 1) * (1 / 1))%R.
Proof.
  destruct (simultaneous_step_stays_on_circle init 1 1 1 0 0 0 [] [0%R]
              eq_refl R1_neq_R0) as [x' [y' [Hrun [_ Hc]]]].
  exists x', y'. split; [exact Hrun|exact Hc].
Defined.

(** X7: a full turn closes the circle: with a nonzero angular velocity and
    [w dt = 2 pi] the simultaneous policy brings the base back to the
    position [(x, y)] it started from, with the heading advanced by
    [2 pi]. *)
Theorem simultaneous_full_turn_returns
    (r : MobileManipulator) (w v dt x y yaw : R) (dq_rest eta_rest : list R) :
  eta r = x :: y :: yaw :: eta_rest -> w <> 0%R -> (w * dt = 2 * PI)%R ->
  exists x' y' : R,
    Kinematics.move_and_rotate_simultaneously (w :: v :: dq_rest) dt r
    = (Ok tt, set_eta [x'; y'; (yaw + 2 * PI)%R] r) /\
    x' = x /\ y' = y.
Proof.
  intros Heta Hw Hturn. do 2 eexists.
  split.
  - rewrite (simultaneous_nonzero_run r w v dt x y yaw dq_rest eta_rest Heta Hw).
    rewrite Hturn. reflexivity.
  - rewrite sin_plus, cos_plus, sin_2PI, cos_2PI. split; field; exact Hw.
Qed.

Lemma simultaneous_full_turn_returns_witness :
  exists x' y' : R,
    Kinematics.move_and_rotate_simultaneously [1; 1]%R (2 * PI)%R init
    = (Ok tt, set_eta [x'; y'; (0 + 2 * PI)%R] init) /\
    x' = 0%R /\ y' = 0%R.
Proof.
  apply (simultaneous_full_turn_returns init 1 1 (2 * PI) 0 0 0 [] [0%R] eq_refl).
  - exact R1_neq_R0.
  - ring.
Defined.

(** X8: with a zero forward velocity and a nonzero angular velocity the
    simultaneous policy turns the base on the spot: the position stays
    and the heading advances by [w dt]. *)
Theorem simultaneous_turn_on_the_spot
    (r : MobileManipulator) (w dt x y yaw : R) (dq_rest eta_rest : list R) :
  eta r = x :: y :: yaw :: eta_rest -> w <> 0%R ->
  exists x' y' : R,
    Kinematics.move_and_rotate_simultaneously (w :: 0%R :: dq_rest) dt r
    = (Ok tt, set_eta [x'; y'; (yaw + w * dt)%R] r) /\
    x' = x /\ y' = y.
Proof.
  intros Heta Hw. do 2 eexists.
  split; [exact (simultaneous_nonzero_run r w 0 dt x y yaw dq_rest eta_rest Heta Hw)|].
  split; field; exact Hw.
Qed.

Lemma simultaneous_turn_on_the_spot_witness :
  exists x' y' : R,
    Kinematics.move_and_rotate_simultaneously [1; 0]%R 1%R init
    = (Ok tt, set_eta [x'; y'; (0 + 1 * 1)%R] init) /\
    x' = 0%R /\ y' = 0%R.
Proof.
  exact (simultaneous_turn_on_the_spot init 1 1 0 0 0 [] [0%R] eq_refl R1_neq_R0).
Defined.

(** ** The forward kinematics: workspace, wrist joint, derivatives *)

Lemma getEEposition_ok_inv (r : MobileManipulator) (P : Matrix) :
  fst (Kinematics.getEEposition r) = Ok P ->
  exists (q1 q2 q3 q4 e0 e1 e2 e3 : R) (tl : list R),
    q r = [q1; q2; q3; q4] /\ eta r = e0 :: e1 :: e2 :: e3 :: tl /\
    P = [[ee_x q1 q2 q3 e0]; [ee_y q1 q2 q3 e1]; [ee_z q2 q3 e2]].
Proof.
  intros Hok.
  destruct (le_lt_dec (length (eta r)) 3) as [Hshort|Hlong].
  { destruct (kinematics_need_entry_3 r Hshort) as [_ [e He]].
    rewrite He in Hok. discriminate Hok. }
  destruct (eta r) as [|e0 [|e1 [|e2 [|e3 tl]]]] eqn:Heta; try (simpl in Hlong; lia).
  destruct (q r) as [|q1 [|q2 [|q3 [|q4 [|q5 qs]]]]] eqn:Hq;
    try (unfold Kinematics.getEEposition, bind, gets, lift in Hok;
         rewrite Hq in Hok; discriminate Hok).
  exists q1, q2, q3, q4, e0, e1, e2, e3, tl.
  split; [reflexivity|]. split; [reflexivity|].
  rewrite (getEEposition_run r q1 q2 q3 q4 e0 e1 e2 e3 tl Hq Heta) in Hok.
  now injection Hok as <-.
Qed.

Lemma reach_bounds (q2 q3 : R) :
  (- (2311 / 10000) <= reach q2 q3 <= 3705 / 10000)%R.
Proof.
  unfold reach, ManipulatorParams.bx, ManipulatorParams.d1, ManipulatorParams.d2,
    ManipulatorParams.mx.
  pose proof (SIN_bound q2) as [Hs1 Hs2]. pose proof (COS_bound q3) as [Hc1 Hc2].
  lra.
Qed.

(** X9: the workspace of the arm.  Whenever [getEEposition] returns, the
    end effector is horizontally on the circle of radius [|l|] around the
    base point [(eta[0], eta[1])], where the reach [l] lies between
    -0.2311 and 0.3705, so it is never more than 0.3705 m away from it;
    and its height relative to [eta[2]] lies between -0.3366 and 0.265. *)
Theorem end_effector_workspace (r : MobileManipulator) (P : Matrix) :
  fst (Kinematics.getEEposition r) = Ok P ->
  exists x y z e0 e1 e2 : R,
    P = [[x]; [y]; [z]] /\
    eta r !! 0%nat = Some e0 /\ eta r !! 1%nat = Some e1 /\ eta r !! 2%nat = Some e2 /\
    ((x - e0) * (x - e0) + (y - e1) * (y - e1) <= (3705 / 10000) * (3705 / 10000))%R /\
    (- (3366 / 10000) <= z - e2 <= 2650 / 10000)%R.
Proof.
  intros Hok.
  destruct (getEEposition_ok_inv r P Hok)
    as [q1 [q2 [q3 [q4 [e0 [e1 [e2 [e3 [tl [Hq [Heta ->]]]]]]]]]]].
  exists (ee_x q1 q2 q3 e0), (ee_y q1 q2 q3 e1), (ee_z q2 q3 e2), e0, e1, e2.
  rewrite Heta. do 4 (split; [reflexivity|]).
  split.
  - unfold ee_x, ee_y.
    replace (reach q2 q3 * cos q1 + e0 - e0)%R with (reach q2 q3 * cos q1)%R by ring.
    replace (reach q2 q3 * sin q1 + e1 - e1)%R with (reach q2 q3 * sin q1)%R by ring.
    pose proof (sin2_cos2 q1) as H. unfold Rsqr in H.
    pose proof (reach_bounds q2 q3) as [Hlo Hhi].
    replace (reach q2 q3 * cos q1 * (reach q2 q3 * cos q1)
             + reach q2 q3 * sin q1 * (reach q2 q3 * sin q1))%R
      with (reach q2 q3 * reach q2 q3 * (sin q1 * sin q1 + cos q1 * cos q1))%R by ring.
    rewrite H. nra.
  - unfold ee_z, ManipulatorParams.bz, ManipulatorParams.d1, ManipulatorParams.d2,
      ManipulatorParams.mz.
    pose proof (COS_bound (- q2)) as [Hc1 Hc2]. pose proof (SIN_bound q3) as [Hs1 Hs2].
    lra.
Qed.

Lemma end_effector_workspace_witness :
  exists x y z e0 e1 e2 : R,
    fst (Kinematics.getEEposition init) = Ok [[x]; [y]; [z]] /\
    eta init !! 0%nat = Some e0 /\ eta init !! 1%nat = Some e1 /\
    ((x - e0) * (x - e0) + (y - e1) * (y - e1) <= (3705 / 10000) * (3705 / 10000))%R.
Proof.
  destruct (end_effector_workspace init
              [[ee_x 0 0 0 0]; [ee_y 0 0 0 0]; [ee_z 0 0 0]])
    as [x [y [z [e0 [e1 [e2 [HP [H0 [H1 [_ [Hb _]]]]]]]]]]].
  - now rewrite (getEEposition_run init 0 0 0 0 0 0 0 0 []).
  - exists x, y, z, e0, e1, e2.
    rewrite (getEEposition_run init 0 0 0 0 0 0 0 0 []) by reflexivity.
    cbn [fst]. rewrite HP. repeat split; assumption.
Defined.

Lemma getEEposition_short_pose (r : MobileManipulator) (q1 q2 q3 q4 : R) :
  q r = [q1; q2; q3; q4] -> (length (eta r) <= 3)%nat ->
  Kinematics.getEEposition r = (Raise IndexError, r).
Proof.
  intros Hq Hlen. unfold Kinematics.getEEposition.
  unfold bind at 1. unfold gets at 1. rewrite Hq.
  unfold bind at 1. unfold lift at 1. cbn [unpack4].
  destruct (eta r) as [|e0 [|e1 [|e2 [|e3 tl]]]] eqn:Heta; try (simpl in Hlen; lia).
  - now rewrite (bind_raise _ _ _ _ _ (eta_at_short r 0 ltac:(rewrite Heta; simpl; lia))).
  - rewrite (bind_ok _ _ _ _ _ (eta_at_run r 0 e0 ltac:(now rewrite Heta))).
    now rewrite (bind_raise _ _ _ _ _ (eta_at_short r 1 ltac:(rewrite Heta; simpl; lia))).
  - rewrite (bind_ok _ _ _ _ _ (eta_at_run r 0 e0 ltac:(now rewrite Heta))).
    rewrite (bind_ok _ _ _ _ _ (eta_at_run r 1 e1 ltac:(now rewrite Heta))).
    now rewrite (bind_raise _ _ _ _ _ (eta_at_short r 2 ltac:(rewrite Heta; simpl; lia))).
  - rewrite (bind_ok _ _ _ _ _ (eta_at_run r 0 e0 ltac:(now rewrite Heta))).
    rewrite (bind_ok _ _ _ _ _ (eta_at_run r 1 e1 ltac:(now rewrite Heta))).
    rewrite (bind_ok _ _ _ _ _ (eta_at_run r 2 e2 ltac:(now rewrite Heta))).
    now rewrite (bind_raise _ _ _ _ _ (eta_at_short r 3 ltac:(rewrite Heta; simpl; lia))).
Qed.

(** X10: the fourth joint does not move the end effector: with the other
    three joints and the base pose fixed, [getEEposition] has the same
    outcome for every position of joint 4; and the column of joint 4 in
    [getEEJacobian] is zero in the three position rows. *)
Theorem fourth_joint_does_not_move_the_end_effector
    (r : MobileManipulator) (q1 q2 q3 q4 q4' : R) :
  q r = [q1; q2; q3; q4] ->
  fst (Kinematics.getEEposition (set_q [q1; q2; q3; q4'] r))
  = fst (Kinematics.getEEposition r) /\
  forall Jm : Matrix,
    fst (Kinematics.getEEJacobian r) = Ok Jm ->
    entry Jm 0 3 = Some 0%R /\ entry Jm 1 3 = Some 0%R /\ entry Jm 2 3 = Some 0%R.
Proof.
  intros Hq. split.
  - destruct (le_lt_dec (length (eta r)) 3) as [Hshort|Hlong].
    + rewrite (getEEposition_short_pose r q1 q2 q3 q4 Hq Hshort).
      now rewrite (getEEposition_short_pose (set_q [q1; q2; q3; q4'] r) q1 q2 q3 q4').
    + destruct (eta r) as [|e0 [|e1 [|e2 [|e3 tl]]]] eqn:Heta;
        try (simpl in Hlong; lia).
      rewrite (getEEposition_run r q1 q2 q3 q4 e0 e1 e2 e3 tl Hq Heta).
      now rewrite (getEEposition_run (set_q [q1; q2; q3; q4'] r)
                     q1 q2 q3 q4' e0 e1 e2 e3 tl).
  - intros Jm HJ.
    destruct (le_lt_dec (length (eta r)) 3) as [Hshort|Hlong].
    + destruct (kinematics_need_entry_3 r Hshort) as [[e He] _].
      rewrite He in HJ. discriminate HJ.
    + destruct (eta r) as [|e0 [|e1 [|e2 [|e3 tl]]]] eqn:Heta;
        try (simpl in Hlong; lia).
      rewrite (getEEJacobian_run q1 q2 q3 q4 e3 r Hq) in HJ by now rewrite Heta.
      injection HJ as <-. repeat split.
Qed.

Lemma fourth_joint_does_not_move_the_end_effector_witness :
  fst (Kinematics.getEEposition (set_q [0; 0; 0; 1]%R init))
  = fst (Kinematics.getEEposition init).
Proof.
  exact (proj1 (fourth_joint_does_not_move_the_end_effector init 0 0 0 0 1 eq_refl)).
Defined.

(** X11: with [eta[3] = 0], as [update] leaves it, every entry of the
    three position rows of [getEEJacobian] except the one of row [y] and
    column [q3] is the partial derivative, in the joint of its column, of
    the coordinate that [getEEposition] returns in its row. *)
Theorem jacobian_entries_are_partial_derivatives
    (r : MobileManipulator) (q1 q2 q3 q4 e0 e1 e2 : R) (tl : list R) :
  q r = [q1; q2; q3; q4] -> eta r = e0 :: e1 :: e2 :: 0%R :: tl ->
  exists Jm : Matrix,
    Kinematics.getEEJacobian r = (Ok Jm, r) /\
    forall i j : nat,
      (i < 3)%nat -> (j < 4)%nat -> ~ (i = 1%nat /\ j = 2%nat) ->
      exists (f : R -> R) (v qj : R),
        q r !! j = Some qj /\
        entry Jm i j = Some v /\
        (forall t : R,
            exists P : Matrix,
              fst (Kinematics.getEEposition (set_q (<[j := t]> (q r)) r)) = Ok P /\
              entry P i 0 = Some (f t)) /\
        derivable_pt_lim f qj v.
Proof.
  intros Hq Heta. exists (jacobian_rows q1 q2 q3 0).
  split; [apply (getEEJacobian_run q1 q2 q3 q4 0%R r Hq); now rewrite Heta|].
  destruct (position_rows_but_dy_dq3_are_derivatives q1 q2 q3 q4 e0 e1 e2)
    as [[A0 [A1 A2]] [[B0 [B1 B2]] [[C0 C2] [D0 [D1 D2]]]]].
  assert (Hpos : forall a b c d : R,
             fst (Kinematics.getEEposition (set_q [a; b; c; d] r))
             = Ok [[ee_x a b c e0]; [ee_y a b c e1]; [ee_z b c e2]]).
  { intros a b c d.
    now rewrite (getEEposition_run (set_q [a; b; c; d] r) a b c d e0 e1 e2 0 tl). }
  intros i j Hi Hj Hne. rewrite Hq.
  destruct i as [|[|[|i]]]; try lia;
    (destruct j as [|[|[|[|j]]]]; try lia);
    try (exfalso; apply Hne; split; reflexivity);
    match goal with
    | |- exists f v qj, [_; _; _; _] !! ?jj = Some qj /\ entry _ ?ii ?jj = Some v /\ _ =>
        match goal with
        | H : is_partial ?g ?x _ ii jj |- _ =>
            destruct H as [v [Hv Hd]]; exists g, v, x;
            split; [reflexivity|]; split; [exact Hv|]; split; [|exact Hd];
            intros t; eexists; split; [apply Hpos|reflexivity]
        end
    end.
Qed.

Lemma jacobian_entries_are_partial_derivatives_witness :
  exists (Jm : Matrix) (f : R -> R) (v : R),
    Kinematics.getEEJacobian init = (Ok Jm, init) /\
    entry Jm 0 0 = Some v /\ derivable_pt_lim f 0 v.
Proof.
  destruct (jacobian_entries_are_partial_derivatives init 0 0 0 0 0 0 0 []
              eq_refl eq_refl) as [Jm [Hrun Hall]].
  destruct (Hall 0%nat 0%nat ltac:(lia) ltac:(lia) ltac:(intros [H _]; discriminate H))
    as [f [v [qj [Hq [Hv [_ Hd]]]]]].
  exists Jm, f, v. split; [exact Hrun|]. split; [exact Hv|].
  cbn in Hq. injection Hq as <-. exact Hd.
Defined.

(** ** Link transforms *)

(** X12: [getLinkTransform(link)] returns the end-effector transform for
    every link number beyond DOF (the same outcome as [getEETransform],
    also when no transform is assigned); for [0 <= link <= DOF] it returns
    the transform stored at that index when there is one and raises
    IndexError when the list is too short; the robot is never changed. *)
Theorem getLinkTransform_cases (r : MobileManipulator) (link : Z) :
  (dof r < link ->
   Integration.getLinkTransform link r = Robot.getEETransform r) /\
  (forall ts : list Matrix,
      T r = Some ts -> 0 <= link <= dof r ->
      (link < Z.of_nat (length ts) ->
       exists m, ts !! Z.to_nat link = Some m /\
                 Integration.getLinkTransform link r = (Ok m, r)) /\
      (Z.of_nat (length ts) <= link ->
       Integration.getLinkTransform link r = (Raise IndexError, r))) /\
  (T r = None -> Integration.getLinkTransform link r = (Raise AttributeError, r)) /\
  snd (Integration.getLinkTransform link r) = r.
Proof.
  unfold Integration.getLinkTransform, Robot.getEETransform, Robot.getDOF.
  unfold bind, gets, lift, raise.
  split; [|split; [|split]].
  - intros Hlink.
    replace (dof r <? link) with true by (symmetry; apply Z.ltb_lt; lia).
    reflexivity.
  - intros ts HT Hlink. rewrite HT.
    replace (dof r <? link) with false by (symmetry; apply Z.ltb_ge; lia).
    split.
    + intros Hlt. destruct (getitem_in_range ts link) as [m [Hm Hg]]; [lia|].
      exists m. split; [exact Hm|]. now rewrite Hg.
    + intros Hge. now rewrite getitem_out_of_range by lia.
  - intros HT. now rewrite HT.
  - destruct (T r); [destruct (dof r <? link)|]; reflexivity.
Qed.

(** ** Joint limits: which joints are limited, and what a second call does *)

Lemma transition_stable_when_active (th dth p u l : R) (a : Z) :
  (th < dth)%R ->
  transition th dth p u l a <> 0 ->
  transition th dth p u l (transition th dth p u l a) = transition th dth p u l a.
Proof.
  intros Hth. unfold transition.
  destruct (Rgeb p (u - th)) eqn:E1; [apply Rgeb_true in E1|apply Rgeb_false in E1];
  (destruct (Rleb p (l + th)) eqn:E2; [apply Rleb_true in E2|apply Rleb_false in E2]);
  (destruct (Rleb p (u - dth)) eqn:E3; [apply Rleb_true in E3|apply Rleb_false in E3]);
  (destruct (Rgeb p (l + dth)) eqn:E4; [apply Rgeb_true in E4|apply Rgeb_false in E4]);
  try lra;
  destruct (Z.eqb_spec a 0) as [H0|H0]; try subst a;
  cbn [andb Z.eqb Pos.eqb]; try (intros _; reflexivity); try (intros H; now destruct H);
  destruct (Z.eqb_spec a (-1)) as [Hm|Hm]; try subst a;
  cbn [andb Z.eqb Pos.eqb]; try (intros _; reflexivity); try (intros H; now destruct H);
  destruct (Z.eqb_spec a 1) as [H1|H1]; try subst a;
  cbn [andb Z.eqb Pos.eqb]; try (intros _; reflexivity); try (intros H; now destruct H);
  intros _;
  destruct (Z.eqb_spec a 0); try contradiction;
  destruct (Z.eqb_spec a (-1)); try contradiction;
  destruct (Z.eqb_spec a 1); try contradiction; reflexivity.
Qed.

Lemma transition_range (th dth p u l : R) (a : Z) :
  let a' := transition th dth p u l a in
  (a = -1 \/ a = 0 \/ a = 1 -> a' = -1 \/ a' = 0 \/ a' = 1) /\
  (a = -1 -> a' <> 1) /\ (a = 1 -> a' <> -1).
Proof.
  unfold transition.
  destruct (Rgeb p (u - th)), (Rleb p (l + th)), (Rleb p (u - dth)), (Rgeb p (l + dth));
  destruct (Z.eqb_spec a 0), (Z.eqb_spec a (-1)), (Z.eqb_spec a 1);
  cbn [andb]; repeat split; intros; lia.
Qed.

(** The state of the lists the loop reads is the same after a call. *)
Section SecondCall.
Variables (r : MobileManipulator) (s : JointLimits.t).
Let n := Z.to_nat (dof r - 2).
Let act := activation (JointLimits.task s).
Hypothesis Hq : (n <= length (q r))%nat.
Hypothesis Hu : (n <= length (JointLimits.upper_limits s))%nat.
Hypothesis Hl : (n <= length (JointLimits.lower_limits s))%nat.
Hypothesis Ha : (n + 2 <= length act)%nat.

(** Two calls in a row, with what each stores for the joints of the loop. *)
Lemma updateActivation_twice :
  exists act1 act2 : list Z,
    JointLimits.updateActivation (r, s) = (Ok tt, (r, with_activation act1 s)) /\
    JointLimits.updateActivation (r, with_activation act1 s)
    = (Ok tt, (r, with_activation act2 s)) /\
    length act1 = length act /\ length act2 = length act /\
    (forall j : nat, (j < 2 \/ n + 2 <= j)%nat ->
                     act1 !! j = act !! j /\ act2 !! j = act !! j) /\
    forall i : nat,
      (i < n)%nat ->
      exists (p u l : R) (a : Z),
        q r !! i = Some p /\
        JointLimits.upper_limits s !! i = Some u /\
        JointLimits.lower_limits s !! i = Some l /\
        act !! (i + 2)%nat = Some a /\
        act1 !! (i + 2)%nat
        = Some (transition (JointLimits.activation_thresh s)
                  (JointLimits.deactivation_thresh s) p u l a) /\
        act2 !! (i + 2)%nat
        = Some (transition (JointLimits.activation_thresh s)
                  (JointLimits.deactivation_thresh s) p u l
                  (transition (JointLimits.activation_thresh s)
                     (JointLimits.deactivation_thresh s) p u l a)).
Proof.
  destruct (updateActivation_loop r n 0 s) as [act1 [Hrun1 [Hlen1 [Hout1 Hin1]]]];
    try (simpl; subst act; lia).
  destruct (updateActivation_loop r n 0 (with_activation act1 s))
    as [act2 [Hrun2 [Hlen2 [Hout2 Hin2]]]];
    try (simpl; subst act; lia).
  cbn [with_activation JointLimits.on_task JointLimits.task JointLimits.upper_limits
       JointLimits.lower_limits JointLimits.activation_thresh
       JointLimits.deactivation_thresh activation set_activation]
    in Hlen2, Hout2, Hin2.
  rewrite with_activation_twice in Hrun2.
  exists act1, act2.
  split; [exact Hrun1|]. split; [exact Hrun2|].
  split; [exact Hlen1|]. split; [now rewrite Hlen2|].
  split.
  - intros j Hj. split.
    + apply Hout1. simpl. lia.
    + rewrite Hout2 by (simpl; lia). apply Hout1. simpl. lia.
  - intros i Hi.
    destruct (lookup_lt_is_Some_2 (q r) i) as [p Hp]; [lia|].
    destruct (lookup_lt_is_Some_2 (JointLimits.upper_limits s) i) as [u Hiu]; [lia|].
    destruct (lookup_lt_is_Some_2 (JointLimits.lower_limits s) i) as [l Hil]; [lia|].
    destruct (lookup_lt_is_Some_2 act (i + 2)) as [a Hia]; [lia|].
    exists p, u, l, a. do 4 (split; [assumption|]).
    assert (H1 : act1 !! (i + 2)%nat
                 = Some (transition (JointLimits.activation_thresh s)
                           (JointLimits.deactivation_thresh s) p u l a)).
    { apply Hin1; try assumption. simpl. lia. }
    split; [exact H1|].
    apply Hin2; try assumption. simpl. lia.
Qed.

End SecondCall.

(** X13: an activation that is nonzero after [updateActivation] is left as
    it is by a second call on the same robot state, for every joint of the
    loop, when [activationThreshold < deactivationThreshold]: a joint that
    has just been activated, or has stayed active, cannot be switched by
    calling again. *)
Theorem active_joint_is_stable_under_a_second_call
    (r : MobileManipulator) (s : JointLimits.t) :
  let n := Z.to_nat (dof r - 2) in
  (n <= length (q r))%nat ->
  (n <= length (JointLimits.upper_limits s))%nat ->
  (n <= length (JointLimits.lower_limits s))%nat ->
  (n + 2 <= length (activation (JointLimits.task s)))%nat ->
  (JointLimits.activation_thresh s < JointLimits.deactivation_thresh s)%R ->
  exists act1 act2 : list Z,
    JointLimits.updateActivation (r, s) = (Ok tt, (r, with_activation act1 s)) /\
    JointLimits.updateActivation (r, with_activation act1 s)
    = (Ok tt, (r, with_activation act2 s)) /\
    forall (i : nat) (a1 : Z),
      (i < n)%nat -> act1 !! (i + 2)%nat = Some a1 -> a1 <> 0 ->
      act2 !! (i + 2)%nat = Some a1.
Proof.
  intros n Hq Hu Hl Ha Hth.
  destruct (updateActivation_twice r s Hq Hu Hl Ha)
    as [act1 [act2 [Hrun1 [Hrun2 [_ [_ [_ Hin]]]]]]].
  exists act1, act2. split; [exact Hrun1|]. split; [exact Hrun2|].
  intros i a1 Hi H1 Hne.
  destruct (Hin i Hi) as [p [u [l [a [_ [_ [_ [_ [Hfirst Hsecond]]]]]]]]].
  rewrite Hfirst in H1. injection H1 as H1.
  rewrite Hsecond, transition_stable_when_active; [now rewrite H1|exact Hth|].
  now rewrite H1.
Qed.

Lemma active_joint_is_stable_under_a_second_call_witness :
  exists act1 act2 : list Z,
    JointLimits.updateActivation (init, limits_task)
    = (Ok tt, (init, with_activation act1 limits_task)) /\
    JointLimits.updateActivation (init, with_activation act1 limits_task)
    = (Ok tt, (init, with_activation act2 limits_task)).
Proof.
  destruct (active_joint_is_stable_under_a_second_call init limits_task)
    as [act1 [act2 [H1 [H2 _]]]]; try (cbn; lia).
  - cbn. unfold config.limit_joint_threshold_activate,
      config.limit_joint_threshold_deactivate. lra.
  - exists act1, act2. split; assumption.
Defined.

(** X14: switching sides takes two calls.  A joint whose activation is
    [-1] (upper limit) and whose position has dropped into the lower band
    ([p <= upper - deactivationThreshold] and
    [p <= lower + activationThreshold]) is set to [0] by one call and to
    [+1] only by the next; symmetrically a joint at [+1] that has risen
    into the upper band goes to [0] and then to [-1]. *)
Theorem switching_sides_takes_two_calls
    (r : MobileManipulator) (s : JointLimits.t) (i : nat) (p u l : R) (a : Z) :
  let n := Z.to_nat (dof r - 2) in
  let th := JointLimits.activation_thresh s in
  let dth := JointLimits.deactivation_thresh s in
  (n <= length (q r))%nat ->
  (n <= length (JointLimits.upper_limits s))%nat ->
  (n <= length (JointLimits.lower_limits s))%nat ->
  (n + 2 <= length (activation (JointLimits.task s)))%nat ->
  (th < dth)%R ->
  (i < n)%nat ->
  q r !! i = Some p ->
  JointLimits.upper_limits s !! i = Some u ->
  JointLimits.lower_limits s !! i = Some l ->
  activation (JointLimits.task s) !! (i + 2)%nat = Some a ->
  exists act1 act2 : list Z,
    JointLimits.updateActivation (r, s) = (Ok tt, (r, with_activation act1 s)) /\
    JointLimits.updateActivation (r, with_activation act1 s)
    = (Ok tt, (r, with_activation act2 s)) /\
    (a = -1 -> (p <= u - dth)%R -> (p <= l + th)%R ->
     act1 !! (i + 2)%nat = Some 0 /\ act2 !! (i + 2)%nat = Some 1) /\
    (a = 1 -> (p >= l + dth)%R -> (p >= u - th)%R ->
     act1 !! (i + 2)%nat = Some 0 /\ act2 !! (i + 2)%nat = Some (-1)).
Proof.
  intros n th dth Hq Hu Hl Ha Hth Hi Hp Hiu Hil Hia.
  destruct (updateActivation_twice r s Hq Hu Hl Ha)
    as [act1 [act2 [Hrun1 [Hrun2 [_ [_ [_ Hin]]]]]]].
  exists act1, act2. split; [exact Hrun1|]. split; [exact Hrun2|].
  destruct (Hin i Hi) as [p' [u' [l' [a' [Hp' [Hu' [Hl' [Ha' [H1 H2]]]]]]]]].
  rewrite Hp in Hp'. rewrite Hiu in Hu'. rewrite Hil in Hl'. rewrite Hia in Ha'.
  injection Hp' as <-. injection Hu' as <-. injection Hl' as <-. injection Ha' as <-.
  fold th dth in H1, H2.
  destruct (transition_cases th dth p u l a) as [_ [_ [C3 [C4 _]]]].
  split.
  - intros Hm Hup Hlow. specialize (C3 Hm Hup).
    rewrite H1, H2, C3. split; [reflexivity|]. f_equal.
    apply (transition_cases th dth p u l 0); [reflexivity|lra|exact Hlow].
  - intros Hone Hlow Hup. specialize (C4 Hone Hlow).
    rewrite H1, H2, C4. split; [reflexivity|]. f_equal.
    now apply (transition_cases th dth p u l 0).
Qed.

(** A robot whose second joint has dropped to -1.55, into the lower band,
    and the task of [config.py] with that joint still active at its upper
    limit. *)
Lemma switching_sides_takes_two_calls_witness :
  let r := snd (Robot.update [0; - (155 / 100); 0; 0]%R init) in
  let s := with_activation [0; 0; 0; -1; 0; 0] limits_task in
  exists act1 act2 : list Z,
    JointLimits.updateActivation (r, s) = (Ok tt, (r, with_activation act1 s)) /\
    JointLimits.updateActivation (r, with_activation act1 s)
    = (Ok tt, (r, with_activation act2 s)) /\
    act1 !! 3%nat = Some 0 /\ act2 !! 3%nat = Some 1.
Proof.
  intros r s.
  destruct (switching_sides_takes_two_calls r s 1 (- (155 / 100))%R
              config.limit_joint2_upper config.limit_joint2_lower (-1))
    as [act1 [act2 [H1 [H2 [Hswitch _]]]]];
    try (cbn; lia); try reflexivity.
  - cbn. unfold config.limit_joint_threshold_activate,
      config.limit_joint_threshold_deactivate. lra.
  - exists act1, act2. split; [exact H1|]. split; [exact H2|].
    apply Hswitch; [reflexivity| |];
      cbn; unfold config.limit_joint2_upper, config.limit_joint2_lower,
        config.limit_joint_threshold_activate,
        config.limit_joint_threshold_deactivate; lra.
Defined.

(** X15: [updateActivation] keeps the activation array in [{-1, 0, 1}]: if
    every entry is one of the three before the call, every entry is one of
    them after it; and no joint goes from [-1] to [+1] or from [+1] to
    [-1] in one call. *)
Theorem activation_stays_in_range (r : MobileManipulator) (s : JointLimits.t) :
  let n := Z.to_nat (dof r - 2) in
  let act := activation (JointLimits.task s) in
  (n <= length (q r))%nat ->
  (n <= length (JointLimits.upper_limits s))%nat ->
  (n <= length (JointLimits.lower_limits s))%nat ->
  (n + 2 <= length act)%nat ->
  exists act' : list Z,
    JointLimits.updateActivation (r, s) = (Ok tt, (r, with_activation act' s)) /\
    ((forall k v, act !! k = Some v -> v = -1 \/ v = 0 \/ v = 1) ->
     forall k v, act' !! k = Some v -> v = -1 \/ v = 0 \/ v = 1) /\
    (forall k, act !! k = Some (-1) -> act' !! k <> Some 1) /\
    (forall k, act !! k = Some 1 -> act' !! k <> Some (-1)).
Proof.
  intros n act Hq Hu Hl Ha.
  destruct (updateActivation_twice r s Hq Hu Hl Ha)
    as [act1 [act2 [Hrun1 [_ [Hlen [_ [Hout Hin]]]]]]].
  fold act in Hlen, Hout, Hin.
  exists act1. split; [exact Hrun1|].
  assert (Hcase : forall k : nat,
             act1 !! k = act !! k \/
             exists p u l a,
               act !! k = Some a /\
               act1 !! k = Some (transition (JointLimits.activation_thresh s)
                                   (JointLimits.deactivation_thresh s) p u l a)).
  { intros k.
    destruct (decide (k < 2 \/ n + 2 <= k)%nat) as [Hk|Hk].
    - left. now apply Hout.
    - right. destruct (Hin (k - 2)%nat ltac:(lia))
        as [p [u [l [a [_ [_ [_ [Hka [Hk1 _]]]]]]]]].
      replace (k - 2 + 2)%nat with k in Hka, Hk1 by lia.
      now exists p, u, l, a. }
  split; [|split].
  - intros Hrange k v Hk.
    destruct (Hcase k) as [Hsame|[p [u [l [a [Hka Hk1]]]]]].
    + rewrite Hsame in Hk. now apply (Hrange k).
    + rewrite Hk1 in Hk. injection Hk as <-.
      apply transition_range. now apply (Hrange k).
  - intros k Hk Hflip.
    destruct (Hcase k) as [Hsame|[p [u [l [a [Hka Hk1]]]]]].
    + rewrite Hsame, Hk in Hflip. discriminate Hflip.
    + rewrite Hk in Hka. injection Hka as <-.
      rewrite Hk1 in Hflip. injection Hflip as Hflip.
      destruct (transition_range (JointLimits.activation_thresh s)
                  (JointLimits.deactivation_thresh s) p u l (-1)) as [_ [Hno _]].
      exact (Hno eq_refl Hflip).
  - intros k Hk Hflip.
    destruct (Hcase k) as [Hsame|[p [u [l [a [Hka Hk1]]]]]].
    + rewrite Hsame, Hk in Hflip. discriminate Hflip.
    + rewrite Hk in Hka. injection Hka as <-.
      rewrite Hk1 in Hflip. injection Hflip as Hflip.
      destruct (transition_range (JointLimits.activation_thresh s)
                  (JointLimits.deactivation_thresh s) p u l 1) as [_ [_ Hno]].
      exact (Hno eq_refl Hflip).
Qed.

Lemma activation_stays_in_range_witness :
  exists act' : list Z,
    JointLimits.updateActivation (init, limits_task)
    = (Ok tt, (init, with_activation act' limits_task)) /\
    forall k v, act' !! k = Some v -> v = -1 \/ v = 0 \/ v = 1.
Proof.
  destruct (activation_stays_in_range init limits_task)
    as [act' [Hrun [Hrange _]]]; try (cbn; lia).
  exists act'. split; [exact Hrun|].
  apply Hrange. intros k v Hk. right. left.
  cbn in Hk. do 6 (destruct k as [|k]; [now injection Hk as <-|]).
  discriminate Hk.
Defined.

(** X16: only the first DOF - 2 joints are limited.  Two robots with the
    same DOF that agree on the positions of those joints give the same
    activation array, whatever the positions of the other joints are; and
    the entries of the base and of the joints from DOF - 2 on are never
    changed.  With the four joints and the DOF 4 of the constructor,
    joints 3 and 4 are therefore never activated. *)
Theorem only_the_first_joints_are_limited
    (r r' : MobileManipulator) (s : JointLimits.t) :
  let n := Z.to_nat (dof r - 2) in
  let act := activation (JointLimits.task s) in
  dof r' = dof r ->
  (forall i : nat, (i < n)%nat -> q r' !! i = q r !! i) ->
  (n <= length (q r))%nat -> (n <= length (q r'))%nat ->
  (n <= length (JointLimits.upper_limits s))%nat ->
  (n <= length (JointLimits.lower_limits s))%nat ->
  (n + 2 <= length act)%nat ->
  exists act' : list Z,
    JointLimits.updateActivation (r, s) = (Ok tt, (r, with_activation act' s)) /\
    JointLimits.updateActivation (r', s) = (Ok tt, (r', with_activation act' s)) /\
    forall j : nat, (j < 2 \/ n + 2 <= j)%nat -> act' !! j = act !! j.
Proof.
  intros n act Hdof Hsame Hq Hq' Hu Hl Ha.
  destruct (updateActivation_twice r s Hq Hu Hl Ha)
    as [act1 [act1' [Hrun1 [_ [Hlen1 [_ [Hout1 Hin1]]]]]]].
  assert (Hn' : Z.to_nat (dof r' - 2) = n) by (now rewrite Hdof).
  destruct (updateActivation_twice r' s) as [act2 [act2' [Hrun2 [_ [Hlen2 [_ [Hout2 Hin2]]]]]]];
    try (rewrite Hn'; assumption).
  rewrite Hn' in Hout2, Hin2. fold act in Hlen1, Hlen2, Hout1, Hout2, Hin1, Hin2.
  assert (Heq : act2 = act1).
  { apply list_eq. intros j.
    destruct (decide (j < 2 \/ n + 2 <= j)%nat) as [Hj|Hj].
    - destruct (Hout1 j Hj) as [-> _]. now destruct (Hout2 j Hj) as [-> _].
    - destruct (Hin1 (j - 2)%nat ltac:(lia))
        as [p [u [l [a [Hp [Hju [Hjl [Hja [H1 _]]]]]]]]].
      destruct (Hin2 (j - 2)%nat ltac:(lia))
        as [p' [u' [l' [a' [Hp' [Hju' [Hjl' [Hja' [H2 _]]]]]]]]].
      rewrite Hsame in Hp' by lia.
      replace (j - 2 + 2)%nat with j in * by lia.
      congruence. }
  subst act2. exists act1.
  split; [exact Hrun1|]. split; [exact Hrun2|].
  intros j Hj. now apply Hout1.
Qed.

Lemma only_the_first_joints_are_limited_witness :
  let r' := snd (Robot.update [0; 0; 3; 3]%R init) in
  exists act' : list Z,
    JointLimits.updateActivation (init, limits_task)
    = (Ok tt, (init, with_activation act' limits_task)) /\
    JointLimits.updateActivation (r', limits_task)
    = (Ok tt, (r', with_activation act' limits_task)) /\
    act' !! 4%nat = Some 0 /\ act' !! 5%nat = Some 0.
Proof.
  intros r'.
  destruct (only_the_first_joints_are_limited init r' limits_task)
    as [act' [H1 [H2 Hout]]]; try (cbn; lia); try reflexivity.
  - intros i Hi. cbn in Hi. destruct i as [|[|i]]; [reflexivity|reflexivity|lia].
  - exists act'. split; [exact H1|]. split; [exact H2|].
    split; rewrite Hout by (cbn; lia); reflexivity.
Defined.

(** ** Joint limits: too few limits *)

Lemma for_each_app {S} (l1 l2 : list Z) (body : Z -> M S unit) (s : S) :
  for_each (l1 ++ l2) body s
  = match for_each l1 body s with
    | (Ok _, s') => for_each l2 body s'
    | (Raise e, s') => (Raise e, s')
    end.
Proof.
  revert s. induction l1 as [|i l1 IH]; intros s; simpl.
  - reflexivity.
  - unfold bind. destruct (body i s) as [[[]|e] s']; [apply IH|reflexivity].
Qed.

Lemma updateActivation_body_no_upper_limit
    (r : MobileManipulator) (s : JointLimits.t) (k : nat) :
  (length (JointLimits.upper_limits s) <= k)%nat ->
  JointLimits.updateActivation_body (Z.of_nat k) (r, s) = (Raise IndexError, (r, s)).
Proof.
  intros Hk. unfold JointLimits.updateActivation_body, and_, JointLimits.near_upper.
  unfold bind at 1. unfold bind at 1. unfold bind at 1.
  unfold on_robot. cbn [fst snd]. rewrite getJointPos_run.
  destruct (getitem (q r) (Z.of_nat k + 1 - 1)) as [p|e] eqn:Hp.
  - unfold bind at 1. unfold JointLimits.upper_at, bind, self, gets, lift.
    cbn [fst snd]. now rewrite getitem_out_of_range by lia.
  - replace (Z.of_nat k + 1 - 1) with (Z.of_nat k) in Hp by lia.
    unfold getitem in Hp.
    destruct ((0 <=? Z.of_nat k) && (Z.of_nat k <? Z.of_nat (length (q r)))).
    + destruct (q r !! Z.to_nat (Z.of_nat k)); [discriminate Hp|].
      injection Hp as <-. reflexivity.
    + replace (Z.of_nat k <? 0) with false in Hp by (symmetry; apply Z.ltb_ge; lia).
      rewrite andb_false_r in Hp. injection Hp as <-. reflexivity.
Qed.

(** X17: with fewer upper limits than joints in the loop, the call fails
    part-way.  If [upper_limits] has [k < DOF - 2] entries,
    [updateActivation] raises IndexError at joint [k]; the joints before
    it have already been updated (each by one pass of the chain), the
    other entries and the robot are as before. *)
Theorem too_few_upper_limits (r : MobileManipulator) (s : JointLimits.t) :
  let n := Z.to_nat (dof r - 2) in
  let k := length (JointLimits.upper_limits s) in
  let act := activation (JointLimits.task s) in
  (k < n)%nat ->
  (k <= length (q r))%nat ->
  (k <= length (JointLimits.lower_limits s))%nat ->
  (k + 2 <= length act)%nat ->
  exists act' : list Z,
    JointLimits.updateActivation (r, s)
    = (Raise IndexError, (r, with_activation act' s)) /\
    length act' = length act /\
    (forall j : nat, (j < 2 \/ k + 2 <= j)%nat -> act' !! j = act !! j) /\
    (forall (i : nat) (p u l : R) (a : Z),
        (i < k)%nat ->
        q r !! i = Some p ->
        JointLimits.upper_limits s !! i = Some u ->
        JointLimits.lower_limits s !! i = Some l ->
        act !! (i + 2)%nat = Some a ->
        act' !! (i + 2)%nat
        = Some (transition (JointLimits.activation_thresh s)
                  (JointLimits.deactivation_thresh s) p u l a)).
Proof.
  intros n k act Hk Hq Hl Ha.
  destruct (updateActivation_loop r k 0 s) as [act' [Hrun [Hlen [Hout Hin]]]];
    try (simpl; subst k act; lia).
  exists act'. split.
  - rewrite updateActivation_run. fold n.
    replace n with (k + (n - k))%nat by lia.
    rewrite seq_app, map_app, for_each_app, Hrun.
    cbn [Nat.add]. destruct (n - k)%nat as [|m] eqn:Hm; [lia|].
    cbn [seq map for_each].
    now rewrite (bind_raise _ _ _ _ _
                   (updateActivation_body_no_upper_limit r (with_activation act' s) k
                      ltac:(reflexivity))).
  - split; [exact Hlen|]. split.
    + intros j Hj. apply Hout. simpl. lia.
    + intros i p u l a Hi. apply Hin. simpl. lia.
Qed.

(** The first joint at its upper limit is activated, then the missing
    limit of the second joint stops the call. *)
Lemma too_few_upper_limits_witness :
  let r := snd (Robot.update [157 / 100; 0; 0; 0]%R init) in
  exists act' : list Z,
    JointLimits.updateActivation (r, one_upper_limit_task)
    = (Raise IndexError, (r, with_activation act' one_upper_limit_task)) /\
    act' !! 2%nat = Some (-1).
Proof.
  intros r.
  destruct (too_few_upper_limits r one_upper_limit_task)
    as [act' [Hrun [_ [_ Hin]]]]; try (cbn; lia).
  exists act'. split; [exact Hrun|].
  pose proof (Hin 0%nat (157 / 100)%R config.limit_joint1_upper
                config.limit_joint1_lower 0 ltac:(cbn; lia)
                eq_refl eq_refl eq_refl eq_refl) as H.
  change (0 + 2)%nat with 2%nat in H. rewrite H. f_equal.
  apply (transition_cases _ _ (157 / 100)%R config.limit_joint1_upper
           config.limit_joint1_lower 0); [reflexivity|].
  cbn. unfold config.limit_joint1_upper, config.limit_joint_threshold_activate. lra.
Defined.

(** ** The tracking tasks: what [update] assigns, and when *)

Section KeepsAttr.
Context {C A B X : Type} (attr : C -> X).

Lemma keeps_attr_ret (a : A) : keeps_attr attr (ret a).
Proof. intros w. reflexivity. Qed.

Lemma keeps_attr_lift (x : result A) : keeps_attr attr (lift x).
Proof. intros w. reflexivity. Qed.

Lemma keeps_attr_self (f : C -> A) : keeps_attr attr (self f).
Proof. intros w. reflexivity. Qed.

Lemma keeps_attr_on_robot (m : Robot.Method A) : keeps_attr attr (on_robot m).
Proof. intros [r k]. unfold on_robot. cbn [fst snd]. now destruct (m r). Qed.

Lemma keeps_attr_assign (f : C -> C) :
  (forall k, attr (f k) = attr k) -> keeps_attr attr (assign f).
Proof. intros Hf [r k]. apply Hf. Qed.

Lemma keeps_attr_bind (m : Method C A) (k : A -> Method C B) :
  keeps_attr attr m -> (forall a, keeps_attr attr (k a)) -> keeps_attr attr (bind m k).
Proof.
  intros Hm Hk w. unfold bind. specialize (Hm w).
  destruct (m w) as [[a|e] w']; simpl in *; [|exact Hm].
  rewrite <- Hm. apply Hk.
Qed.

End KeepsAttr.

Ltac keeps_attr_step :=
  first
    [ apply keeps_attr_ret | apply keeps_attr_lift | apply keeps_attr_self
    | apply keeps_attr_on_robot
    | apply keeps_attr_assign; intros ?; reflexivity
    | apply keeps_attr_bind; [|intros ?] ].

(** The error computation reads the task and calls the robot; it assigns
    nothing in the task. *)
Lemma tracking_error_keeps_task {Act} (measured : Robot.Method Matrix) :
  keeps_attr (fun t : Task Act => t) (tracking_error measured).
Proof. unfold tracking_error. repeat keeps_attr_step. Qed.

Lemma tracking_error_read_only {Act} (measured : Robot.Method Matrix)
    (r : MobileManipulator) (t : Task Act) :
  read_only measured ->
  tracking_error measured (r, t) = (fst (tracking_error measured (r, t)), (r, t)).
Proof.
  intros Hm.
  pose proof (tracking_error_keeps_robot (Act := Act) measured Hm (r, t)) as Hr.
  pose proof (tracking_error_keeps_task (Act := Act) measured (r, t)) as Ht.
  destruct (tracking_error measured (r, t)) as [x [r' t']].
  cbn [fst snd] in *. now subst.
Qed.

Section WellFormedRobot.
Variables (r : MobileManipulator) (q1 q2 q3 q4 yaw : R).
Hypothesis Hq : q r = [q1; q2; q3; q4].
Hypothesis Heta : eta r !! 3%nat = Some yaw.

Lemma on_robot_getEEJacobian {C} (k : C) :
  on_robot Kinematics.getEEJacobian (r, k) = (Ok (jacobian_rows q1 q2 q3 yaw), (r, k)).
Proof.
  rewrite (on_robot_read_only _ r k getEEJacobian_read_only).
  now rewrite (getEEJacobian_run q1 q2 q3 q4 yaw r Hq Heta).
Qed.

Lemma EEPosition3D_update_run (t : EEPosition3D.t) :
  EEPosition3D.update (r, t)
  = match fst (tracking_error Kinematics.getEEposition
                 (r, set_J (take 3 (jacobian_rows q1 q2 q3 yaw)) t)) with
    | Ok e => (Ok tt, (r, set_err e (set_J (take 3 (jacobian_rows q1 q2 q3 yaw)) t)))
    | Raise e => (Raise e, (r, set_J (take 3 (jacobian_rows q1 q2 q3 yaw)) t))
    end.
Proof.
  unfold EEPosition3D.update.
  unfold bind at 1. unfold on_robot at 1. cbn [fst snd Robot.getDOF gets].
  rewrite (bind_ok _ _ _ _ _ (on_robot_getEEJacobian t)).
  unfold bind at 1. unfold assign at 1. unfold modify at 1. cbn [fst snd].
  unfold bind at 1.
  rewrite (tracking_error_read_only _ _ _ getEEposition_read_only).
  now destruct (fst (tracking_error Kinematics.getEEposition _)).
Qed.

(** X18: [EEPosition3D.update] assigns the Jacobian before it computes the
    error.  On every configuration of four joints the Jacobian after the
    call is the three position rows of the end-effector Jacobian, of
    shape (3, 4) and not the [(task_dim, 6)] of the constructor, whether
    the call returns or raises; when it raises, the error is the one from
    before the call, beside the new Jacobian.  The other attributes of the
    task are never changed. *)
Theorem EEPosition3D_update_assigns_jacobian_first (t : EEPosition3D.t) :
  let out := EEPosition3D.update (r, t) in
  let t' := snd (snd out) in
  fst (snd out) = r /\
  J t' = Some (take 3 (jacobian_rows q1 q2 q3 yaw)) /\
  (exists Jm, J t' = Some Jm /\ shape Jm = (3, 4)%nat) /\
  (forall e, fst out = Raise e -> err t' = err t) /\
  sigma_d t' = sigma_d t /\ K t' = K t /\ FeedForward t' = FeedForward t /\
  task_dim t' = task_dim t /\ activation t' = activation t /\
  err_hist t' = err_hist t.
Proof.
  intros out t'. subst t' out.
  rewrite EEPosition3D_update_run.
  destruct (fst (tracking_error Kinematics.getEEposition _)) as [e|e].
  - cbn. repeat split; try reflexivity.
    + eexists. split; reflexivity.
    + intros e' He'. discriminate He'.
  - cbn. repeat split; try reflexivity.
    eexists. split; reflexivity.
Qed.

End WellFormedRobot.

Lemma EEPosition3D_update_assigns_jacobian_first_witness :
  exists Jm : Matrix,
    J (snd (snd (EEPosition3D.update (init, reach_task)))) = Some Jm /\
    shape Jm = (3, 4)%nat /\
    (exists J0, J reach_task = Some J0 /\ shape J0 = (3, 6)%nat).
Proof.
  destruct (EEPosition3D_update_assigns_jacobian_first init 0 0 0 0 0
              eq_refl eq_refl reach_task)
    as [_ [_ [[Jm [HJ Hshape]] _]]].
  exists Jm. split; [exact HJ|]. split; [exact Hshape|].
  eexists. split; reflexivity.
Defined.

Lemma dot_with_zero_offsets (row : list R) (x y z : R) :
  dot row [x - x; y - y; z - z]%R = 0%R.
Proof.
  unfold dot. destruct row as [|a [|b [|c tl]]]; cbn; try ring.
  destruct tl; cbn; ring.
Qed.

Section AtTarget.
Variables (r : MobileManipulator) (q1 q2 q3 q4 e0 e1 e2 e3 : R) (tl : list R).
Hypothesis Hq : q r = [q1; q2; q3; q4].
Hypothesis Heta : eta r = e0 :: e1 :: e2 :: e3 :: tl.

Let P : Matrix := [[ee_x q1 q2 q3 e0]; [ee_y q1 q2 q3 e1]; [ee_z q2 q3 e2]].

Lemma tracking_error_at_target (t : Task Z) (k1 k2 k3 : list R) :
  sigma_d t = P -> K t = [k1; k2; k3] -> length k1 = 3%nat ->
  np.flatten (FeedForward t) = [0; 0; 0]%R -> task_dim t = 3%nat ->
  exists a b c : R,
    tracking_error Kinematics.getEEposition (r, t) = (Ok [[a]; [b]; [c]], (r, t)) /\
    a = 0%R /\ b = 0%R /\ c = 0%R.
Proof.
  intros Hd HK Hk1 Hff Htd.
  exists (dot k1 [ee_x q1 q2 q3 e0 - ee_x q1 q2 q3 e0;
                  ee_y q1 q2 q3 e1 - ee_y q1 q2 q3 e1;
                  ee_z q2 q3 e2 - ee_z q2 q3 e2] + 0)%R,
         (dot k2 [ee_x q1 q2 q3 e0 - ee_x q1 q2 q3 e0;
                  ee_y q1 q2 q3 e1 - ee_y q1 q2 q3 e1;
                  ee_z q2 q3 e2 - ee_z q2 q3 e2] + 0)%R,
         (dot k3 [ee_x q1 q2 q3 e0 - ee_x q1 q2 q3 e0;
                  ee_y q1 q2 q3 e1 - ee_y q1 q2 q3 e1;
                  ee_z q2 q3 e2 - ee_z q2 q3 e2] + 0)%R.
  split; [|rewrite !dot_with_zero_offsets; repeat split; ring].
  rewrite (tracking_error_read_only _ _ _ getEEposition_read_only). f_equal.
  unfold tracking_error.
  unfold bind at 1. unfold self at 1. unfold gets at 1. cbn [fst snd].
  unfold bind at 1. unfold self at 1. unfold gets at 1. cbn [fst snd].
  unfold bind at 1.
  rewrite (on_robot_read_only _ r t getEEposition_read_only).
  rewrite (getEEposition_run r q1 q2 q3 q4 e0 e1 e2 e3 tl Hq Heta). cbn [fst].
  rewrite Hd, HK. fold P.
  unfold bind at 1. unfold lift at 1. unfold np.sub.
  rewrite elementwise_same_shape by reflexivity.
  unfold bind at 1. unfold lift at 1. unfold np.matmul.
  cbn [ncols]. rewrite Hk1.
  cbn [P zip_with length Nat.eqb seq map np.column nth ncols].
  unfold bind at 1. unfold self at 1. unfold gets at 1. cbn [fst snd].
  unfold bind at 1. unfold self at 1. unfold gets at 1. cbn [fst snd].
  rewrite Hff, Htd.
  unfold bind at 1. unfold lift at 1. rewrite reshape_3_1.
  unfold lift, np.add. rewrite elementwise_same_shape by reflexivity.
  reflexivity.
Qed.

(** X19: at the target the error vanishes.  Setting the desired position
    of an [EEPosition3D] task to the position [getEEposition] returns,
    then [update] and [track_err]: with a 3 x 3 gain and a zero
    feed-forward, the calls return, the error is the zero vector whatever
    the gain is, and [track_err] logs the norm 0. *)
Theorem update_at_target_gives_zero_error
    (t : EEPosition3D.t) (k1 k2 k3 : list R) :
  K t = [k1; k2; k3] -> length k1 = 3%nat ->
  np.flatten (FeedForward t) = [0; 0; 0]%R -> task_dim t = 3%nat ->
  exists (t' : EEPosition3D.t) (a b c h : R),
    (p <- on_robot Kinematics.getEEposition ;;
     TaskMethods.on_self (TaskMethods.setDesired p) ;;;
     EEPosition3D.update ;;;
     TaskMethods.on_self TaskMethods.track_err) (r, t)
    = (Ok tt, (r, t')) /\
    err t' = [[a]; [b]; [c]] /\ a = 0%R /\ b = 0%R /\ c = 0%R /\
    err_hist t' = err_hist t ++ [h] /\ h = 0%R.
Proof.
  intros HK Hk1 Hff Htd.
  destruct (tracking_error_at_target
              (set_J (take 3 (jacobian_rows q1 q2 q3 e3)) (TaskMethods.set_sigma_d P t))
              k1 k2 k3 eq_refl HK Hk1 Hff Htd)
    as [a [b [c [Hte [Ha [Hb Hc]]]]]].
  eexists. exists a, b, c, (np.norm [[a]; [b]; [c]]).
  split; [|split; [|split; [|split; [|split; [|split]]]]].
  - unfold bind at 1.
    rewrite (on_robot_read_only _ r _ getEEposition_read_only).
    rewrite (getEEposition_run r q1 q2 q3 q4 e0 e1 e2 e3 tl Hq Heta). cbn [fst].
    fold P.
    unfold bind at 1. unfold TaskMethods.on_self at 1.
    cbn [fst snd TaskMethods.setDesired modify].
    unfold bind at 1.
    rewrite (EEPosition3D_update_run r q1 q2 q3 q4 e3 Hq ltac:(now rewrite Heta)).
    rewrite Hte. cbn [fst].
    unfold TaskMethods.on_self, TaskMethods.track_err, TaskMethods.getError.
    cbn [fst snd bind gets modify err set_err]. reflexivity.
  - reflexivity.
  - exact Ha.
  - exact Hb.
  - exact Hc.
  - reflexivity.
  - rewrite Ha, Hb, Hc. unfold np.norm, np.flatten. cbn.
    replace (0 * 0 + (0 * 0 + (0 * 0 + 0)))%R with 0%R by ring. apply sqrt_0.
Qed.

End AtTarget.

Lemma update_at_target_gives_zero_error_witness :
  exists (t' : EEPosition3D.t) (h : R),
    (p <- on_robot Kinematics.getEEposition ;;
     TaskMethods.on_self (TaskMethods.setDesired p) ;;;
     EEPosition3D.update ;;;
     TaskMethods.on_self TaskMethods.track_err) (init, reach_task)
    = (Ok tt, (init, t')) /\
    err_hist t' = [h] /\ h = 0%R.
Proof.
  destruct (update_at_target_gives_zero_error init 0 0 0 0 0 0 0 0 []
              eq_refl eq_refl reach_task [1; 0; 0]%R [0; 1; 0]%R [0; 0; 1]%R
              eq_refl eq_refl eq_refl eq_refl)
    as [t' [a [b [c [h [Hrun [_ [_ [_ [_ [Hh Hz]]]]]]]]]]].
  exists t', h. split; [exact Hrun|]. split; [exact Hh|exact Hz].
Defined.

(** ** The orientation and configuration tasks: the shape [update] demands *)

Lemma reshape_one_row (a b c d : R) (td : nat) :
  np.reshape [a; b; c; d] (Z.of_nat td) 4
  = if (td =? 1)%nat then Ok [[a; b; c; d]] else Raise ValueError.
Proof.
  unfold np.reshape. cbn [length].
  destruct (Nat.eqb_spec td 1) as [->|Hne]; [reflexivity|].
  replace (Z.of_nat td * 4 =? Z.of_nat 4) with false
    by (symmetry; apply Z.eqb_neq; lia).
  now rewrite andb_false_r.
Qed.

Lemma reshape_four_rows (r0 r1 r2 r3 : list R) (td : nat) :
  length r0 = 4%nat -> length r1 = 4%nat -> length r2 = 4%nat -> length r3 = 4%nat ->
  np.reshape (np.flatten [r0; r1; r2; r3]) (Z.of_nat td) 4
  = if (td =? 4)%nat then Ok [r0; r1; r2; r3] else Raise ValueError.
Proof.
  intros H0 H1 H2 H3.
  destruct r0 as [|a0 [|b0 [|c0 [|d0 [|]]]]]; try discriminate H0.
  destruct r1 as [|a1 [|b1 [|c1 [|d1 [|]]]]]; try discriminate H1.
  destruct r2 as [|a2 [|b2 [|c2 [|d2 [|]]]]]; try discriminate H2.
  destruct r3 as [|a3 [|b3 [|c3 [|d3 [|]]]]]; try discriminate H3.
  unfold np.reshape, np.flatten. cbn [concat app length].
  destruct (Nat.eqb_spec td 4) as [->|Hne]; [reflexivity|].
  replace (Z.of_nat td * 4 =? Z.of_nat 16) with false
    by (symmetry; apply Z.eqb_neq; lia).
  now rewrite andb_false_r.
Qed.

Section ShapeDemands.
Variables (r : MobileManipulator) (q1 q2 q3 q4 yaw : R).
Variable orientation : Robot.Method Matrix.
Hypothesis Hq : q r = [q1; q2; q3; q4].
Hypothesis Heta : eta r !! 3%nat = Some yaw.
Hypothesis Hdof : dof r = 4.

(** X20: [EEOrientation3D.update] takes the last row of the end-effector
    Jacobian and reshapes it to [(task_dim, DOF)].  With [task_dim = 1]
    the Jacobian of the task after the call is the constant row
    [(1, 0, 0, 1)], whatever the configuration, the orientation accessor
    and the outcome of the error computation; with any other [task_dim]
    the call raises ValueError and leaves the robot and the task as they
    were. *)
Theorem EEOrientation3D_update_jacobian (t : Task Z) :
  (task_dim t = 1%nat ->
   J (snd (snd (EEOrientation3D_update orientation (r, t)))) = Some [[1; 0; 0; 1]]%R) /\
  (task_dim t <> 1%nat ->
   EEOrientation3D_update orientation (r, t) = (Raise ValueError, (r, t))).
Proof.
  assert (Hstart : EEOrientation3D_update orientation (r, t)
                   = (Jr <- lift (np.reshape [1; 0; 0; 1]%R (Z.of_nat (task_dim t)) 4) ;;
                      assign (set_J Jr) ;;;
                      e <- tracking_error orientation ;;
                      assign (set_err e)) (r, t)).
  { unfold EEOrientation3D_update.
    unfold bind at 1. unfold on_robot at 1. cbn [fst snd Robot.getDOF gets].
    rewrite Hdof.
    rewrite (bind_ok _ _ _ _ _ (on_robot_getEEJacobian r q1 q2 q3 q4 yaw Hq Heta t)).
    unfold bind at 1. unfold lift at 1.
    change (getitem (jacobian_rows q1 q2 q3 yaw) (-1)) with (Ok [1; 0; 0; 1]%R).
    unfold bind at 1. unfold self at 1. unfold gets at 1. cbn [fst snd].
    reflexivity. }
  rewrite Hstart, reshape_one_row. split.
  - intros ->. cbn [Nat.eqb].
    unfold bind at 1. unfold lift at 1.
    unfold bind at 1. unfold assign at 1. unfold modify at 1. cbn [fst snd].
    assert (Hrest : keeps_attr (fun k : Task Z => J k)
                      (e <- tracking_error orientation ;; assign (set_err e))).
    { unfold tracking_error. repeat keeps_attr_step. }
    now rewrite (Hrest (r, set_J [[1; 0; 0; 1]]%R t)).
  - intros Hne. destruct (Nat.eqb_spec (task_dim t) 1) as [Heq|_]; [contradiction|].
    reflexivity.
Qed.

(** X21: [EEConfiguration3D.update] takes rows 0, 1, 2 and 5 of the
    end-effector Jacobian and reshapes them to [(task_dim, DOF)].  With
    [task_dim = 4] the Jacobian of the task after the call is the three
    position rows over the heading row [(1, 0, 0, 1)], whatever the
    outcome of the error computation; with any other [task_dim] the call
    raises ValueError and leaves the robot and the task as they were. *)
Theorem EEConfiguration3D_update_jacobian (c : EEConfiguration3D) :
  (task_dim (cfg_task c) = 4%nat ->
   J (cfg_task (snd (snd (EEConfiguration3D_update orientation (r, c)))))
   = Some (take 3 (jacobian_rows q1 q2 q3 yaw) ++ [[1; 0; 0; 1]]%R)) /\
  (task_dim (cfg_task c) <> 4%nat ->
   EEConfiguration3D_update orientation (r, c) = (Raise ValueError, (r, c))).
Proof.
  split; intros Htd; unfold EEConfiguration3D_update;
    (unfold bind at 1; unfold on_robot at 1; cbn [fst snd Robot.getDOF gets]);
    rewrite Hdof;
    rewrite (bind_ok _ _ _ _ _ (on_robot_getEEJacobian r q1 q2 q3 q4 yaw Hq Heta c));
    (unfold bind at 1; unfold lift at 1);
    change (np.take_rows (jacobian_rows q1 q2 q3 yaw) [0; 1; 2; 5])
      with (Ok (take 3 (jacobian_rows q1 q2 q3 yaw) ++ [[1; 0; 0; 1]]%R));
    (unfold bind at 1; unfold self at 1; unfold gets at 1; cbn [fst snd]);
    (unfold bind at 1; unfold lift at 1);
    cbn [take jacobian_rows app];
    rewrite reshape_four_rows by reflexivity.
  - rewrite Htd. cbn [Nat.eqb].
    unfold bind at 1. unfold assign at 1. unfold modify at 1. cbn [fst snd].
    match goal with
    | |- J (cfg_task (snd (snd (?rest ?w)))) = _ =>
        assert (Hrest : keeps_attr (fun k : EEConfiguration3D => J (cfg_task k)) rest)
          by repeat keeps_attr_step;
        rewrite (Hrest w)
    end.
    reflexivity.
  - destruct (Nat.eqb_spec (task_dim (cfg_task c)) 4) as [Heq|_]; [contradiction|].
    reflexivity.
Qed.

End ShapeDemands.

Lemma EEOrientation3D_update_jacobian_witness :
  J (snd (snd (EEOrientation3D_update undefined_accessor
                 (init, Task_init "Heading"%string [[0]]%R [[0]]%R [[1]]%R))))
  = Some [[1; 0; 0; 1]]%R.
Proof.
  apply (EEOrientation3D_update_jacobian init 0 0 0 0 0 undefined_accessor
           eq_refl eq_refl eq_refl); reflexivity.
Defined.

Lemma EEConfiguration3D_update_jacobian_witness :
  EEConfiguration3D_update undefined_accessor
    (init, mkEEConfiguration3D (Task_init "Pose"%string (zeros 3 1) (zeros 3 1) identity4)
             None None)
  = (Raise ValueError,
     (init, mkEEConfiguration3D (Task_init "Pose"%string (zeros 3 1) (zeros 3 1) identity4)
              None None)).
Proof.
  apply (EEConfiguration3D_update_jacobian init 0 0 0 0 0 undefined_accessor
           eq_refl eq_refl eq_refl). cbn. lia.
Defined.

(** ** Obstacle avoidance: the direction of the error, and the two
    methods together *)

Section ObstacleGeometry.
Local Open Scope R_scope.
Variables (r : MobileManipulator) (s : Obstacle3D.t) (px py ox oy : R).
Hypothesis Hee : fst (Obstacle3D.ee_point (r, s)) = Ok [[px]; [py]].
Hypothesis Hob : fst (Obstacle3D.obstacle_point (r, s)) = Ok [[ox]; [oy]].

Let d := sqrt ((ox - px) * (ox - px) + (oy - py) * (oy - py)).
Hypothesis Hd : d <> 0.

Let unit_error : Matrix := [[(px - ox) / d]; [(py - oy) / d]; [0]].

(** [update] after the division: the error is assigned, then the Jacobian
    is asked of the robot. *)
Lemma Obstacle3D_update_after_division :
  Obstacle3D.update (r, s)
  = (Jee <- on_robot Kinematics.getEEJacobian ;;
     n <- on_robot Robot.getDOF ;;
     Jr <- lift (np.reshape (np.flatten (np.rows Jee 0 3)) 3 n) ;;
     assign (Obstacle3D.on_task (set_J Jr)))
      (r, Obstacle3D.on_task (set_err unit_error)
            (Obstacle3D.on_task (set_err [[(px - ox) / d]; [(py - oy) / d]]) s)).
Proof.
  unfold Obstacle3D.update.
  rewrite (Obstacle3D_update_numerator r s px py ox oy _ Hee Hob).
  fold d. rewrite (divide_by_nonzero _ _ Hd). cbn [map].
  unfold bind at 1. unfold assign at 1. unfold modify at 1. cbn [fst snd].
  unfold bind at 1. unfold self at 1. unfold gets at 1.
  cbn [fst snd Obstacle3D.on_task Obstacle3D.task set_err err].
  unfold bind at 1. unfold lift at 1. cbn [np.vstack ncols length Nat.eqb app].
  unfold bind at 1. unfold lift at 1. cbn [np.flatten concat app].
  rewrite reshape_3_1.
  unfold bind at 1. unfold assign at 1. unfold modify at 1. cbn [fst snd].
  reflexivity.
Qed.


End ObstacleGeometry.



(** X23: outside the band between the two thresholds the activation after
    [updateActivation] depends on the distance alone, when
    [activationThreshold < deactivationThreshold]: at a distance of at
    most the activation threshold the task is active after the call,
    at a distance of at least the deactivation threshold it is inactive,
    whatever it was before. *)
Theorem Obstacle3D_activation_outside_the_band
    (r : MobileManipulator) (s : Obstacle3D.t) (d : R) :
  (Obstacle3D.activation_thresh s < Obstacle3D.deactivation_thresh s)%R ->
  fst (Obstacle3D.distance (r, s)) = Ok d ->
  let s' := snd (snd (Obstacle3D.updateActivation (r, s))) in
  fst (Obstacle3D.updateActivation (r, s)) = Ok tt /\
  ((d <= Obstacle3D.activation_thresh s)%R ->
   activation (Obstacle3D.task s') = true) /\
  ((d >= Obstacle3D.deactivation_thresh s)%R ->
   activation (Obstacle3D.task s') = false).
Proof.
  intros Hth Hd s'. subst s'.
  rewrite distance_run in Hd. cbn [fst] in Hd.
  rewrite Obstacle3D_updateActivation_run, Hd.
  cbn [fst snd activation_updated Obstacle3D.on_task Obstacle3D.task activation
       set_activation set_err_hist].
  split; [reflexivity|].
  unfold obstacle_transition.
  destruct (Rleb d (Obstacle3D.activation_thresh s)) eqn:E1;
    [apply Rleb_true in E1|apply Rleb_false in E1];
  (destruct (Rgeb d (Obstacle3D.deactivation_thresh s)) eqn:E2;
    [apply Rgeb_true in E2|apply Rgeb_false in E2]);
  destruct (activation (Obstacle3D.task s)); cbn [negb andb];
  split; intros; try reflexivity; lra.
Qed.

Lemma Obstacle3D_activation_outside_the_band_witness :
  activation
    (Obstacle3D.task
       (snd (snd (Obstacle3D.updateActivation
                    (robot_with_ee_at (3 / 10) 0,
                     Obstacle3D.on_task (set_activation true) obstacle_task)))))
  = true.
Proof.
  destruct (Obstacle3D_activation_outside_the_band
              (robot_with_ee_at (3 / 10) 0)
              (Obstacle3D.on_task (set_activation true) obstacle_task)
              (sqrt ((3 / 10 - 3 / 10) * (3 / 10 - 3 / 10) + (0 - 0) * (0 - 0))))
    as [_ [Hnear _]].
  - cbn. lra.
  - rewrite distance_run.
    now rewrite (distance_value_points
                   (robot_with_ee_at (3 / 10) 0)
                   (Obstacle3D.on_task (set_activation true) obstacle_task)
                   (3 / 10)%R 0%R (3 / 10)%R 0%R eq_refl eq_refl).
  - apply Hnear.
    replace ((3 / 10 - 3 / 10) * (3 / 10 - 3 / 10) + (0 - 0) * (0 - 0))%R
      with 0%R by ring.
    rewrite sqrt_0. cbn. lra.
Defined.

Section ObstacleBothMethods.
Local Open Scope R_scope.
Variables (r : MobileManipulator) (px py ox oy q1 q2 q3 q4 yaw : R).
Hypothesis Hq : q r = [q1; q2; q3; q4].
Hypothesis Heta : eta r !! 3%nat = Some yaw.
Hypothesis Hdof : dof r = 4%Z.

Let d := sqrt ((ox - px) * (ox - px) + (oy - py) * (oy - py)).
Hypothesis Hd : d <> 0.

(** [update] on a robot of four joints away from the obstacle point. *)
Lemma Obstacle3D_update_nonzero_run (s : Obstacle3D.t) :
  fst (Obstacle3D.ee_point (r, s)) = Ok [[px]; [py]] ->
  fst (Obstacle3D.obstacle_point (r, s)) = Ok [[ox]; [oy]] ->
  Obstacle3D.update (r, s)
  = (Ok tt, (r, obstacle_updated px py ox oy q1 q2 q3 yaw s)).
Proof.
  intros Hee Hob.
  rewrite (Obstacle3D_update_after_division r s px py ox oy Hee Hob Hd).
  unfold bind at 1.
  rewrite (on_robot_read_only _ r _ getEEJacobian_read_only).
  rewrite (getEEJacobian_run q1 q2 q3 q4 yaw r Hq Heta). cbn [fst].
  unfold bind at 1. unfold on_robot at 1. cbn [fst snd Robot.getDOF gets].
  rewrite Hdof.
  unfold bind at 1. unfold lift at 1. rewrite reshape_position_rows.
  reflexivity.
Qed.

End ObstacleBothMethods.

(** The two points that [update] and [updateActivation] read do not depend
    on the task's base attributes. *)
Lemma obstacle_points_ignore_the_task
    (r : MobileManipulator) (s : Obstacle3D.t) (f : Task bool -> Task bool) :
  fst (Obstacle3D.ee_point (r, Obstacle3D.on_task f s))
  = fst (Obstacle3D.ee_point (r, s)) /\
  fst (Obstacle3D.obstacle_point (r, Obstacle3D.on_task f s))
  = fst (Obstacle3D.obstacle_point (r, s)).
Proof.
  split.
  - unfold Obstacle3D.ee_point.
    now rewrite !(on_robot_read_only _ r _ planar_position_read_only).
  - reflexivity.
Qed.

(** X24: [update] and [updateActivation] commute.  On a robot of four
    joints whose end effector is not on the obstacle point, calling
    [update] and then [updateActivation] gives the same outcome and the
    same task as calling them in the other order: [update] writes only
    the error and the Jacobian, [updateActivation] only the activation
    and the error history, and neither reads what the other writes. *)
Theorem Obstacle3D_update_and_updateActivation_commute
    (r : MobileManipulator) (s : Obstacle3D.t) (px py ox oy q1 q2 q3 q4 yaw : R) :
  fst (Obstacle3D.ee_point (r, s)) = Ok [[px]; [py]] ->
  fst (Obstacle3D.obstacle_point (r, s)) = Ok [[ox]; [oy]] ->
  q r = [q1; q2; q3; q4] -> eta r !! 3%nat = Some yaw -> dof r = 4 ->
  sqrt ((ox - px) * (ox - px) + (oy - py) * (oy - py)) <> 0%R ->
  (Obstacle3D.update ;;; Obstacle3D.updateActivation) (r, s)
  = (Obstacle3D.updateActivation ;;; Obstacle3D.update) (r, s) /\
  fst ((Obstacle3D.update ;;; Obstacle3D.updateActivation) (r, s)) = Ok tt.
Proof.
  intros Hee Hob Hq Heta Hdof Hd.
  pose proof (distance_value_points r s px py ox oy Hee Hob) as Hdist.
  assert (Hleft :
    (Obstacle3D.update ;;; Obstacle3D.updateActivation) (r, s)
    = (Ok tt, (r, activation_updated
                    (sqrt ((ox - px) * (ox - px) + (oy - py) * (oy - py)))
                    (obstacle_updated px py ox oy q1 q2 q3 yaw s)))).
  { unfold bind.
    rewrite (Obstacle3D_update_nonzero_run r px py ox oy q1 q2 q3 q4 yaw
               Hq Heta Hdof Hd s Hee Hob).
    cbn [fst snd].
    rewrite Obstacle3D_updateActivation_run.
    change (Obstacle3D.obstacle (obstacle_updated px py ox oy q1 q2 q3 yaw s))
      with (Obstacle3D.obstacle s).
    now rewrite Hdist. }
  split; [|now rewrite Hleft].
  rewrite Hleft. unfold bind.
  rewrite Obstacle3D_updateActivation_run, Hdist. cbn [fst snd].
  unfold activation_updated at 2.
  rewrite (Obstacle3D_update_nonzero_run r px py ox oy q1 q2 q3 q4 yaw
             Hq Heta Hdof Hd).
  - reflexivity.
  - rewrite <- Hee.
    etransitivity; [apply obstacle_points_ignore_the_task|].
    apply obstacle_points_ignore_the_task.
  - rewrite <- Hob. reflexivity.
Qed.

Lemma Obstacle3D_update_and_updateActivation_commute_witness :
  (Obstacle3D.update ;;; Obstacle3D.updateActivation)
    (robot_with_ee_at (4 / 10) 0, obstacle_task)
  = (Obstacle3D.updateActivation ;;; Obstacle3D.update)
      (robot_with_ee_at (4 / 10) 0, obstacle_task).
Proof.
  apply (Obstacle3D_update_and_updateActivation_commute
           (robot_with_ee_at (4 / 10) 0) obstacle_task
           (4 / 10)%R 0%R (3 / 10)%R 0%R 0%R 0%R 0%R 0%R 0%R
           eq_refl eq_refl eq_refl eq_refl eq_refl).
  replace ((3 / 10 - 4 / 10) * (3 / 10 - 4 / 10) + (0 - 0) * (0 - 0))%R
    with ((1 / 10) * (1 / 10))%R by field.
  rewrite sqrt_square by lra. lra.
Defined.

(** ** The frame of [update] and [updateActivation] on the task *)

Lemma keeps_attr_and_ {C X} (attr : C -> X) (a b : Method C bool) :
  keeps_attr attr a -> keeps_attr attr b -> keeps_attr attr (and_ a b).
Proof.
  intros Ha Hb. unfold and_. apply keeps_attr_bind; [exact Ha|].
  intros [|]; [exact Hb|apply keeps_attr_ret].
Qed.

Lemma keeps_attr_for_each {C X} (attr : C -> X) (l : list Z) (body : Z -> Method C unit) :
  (forall i, keeps_attr attr (body i)) -> keeps_attr attr (for_each l body).
Proof.
  intros Hbody. induction l as [|i l IH]; simpl.
  - apply keeps_attr_ret.
  - apply keeps_attr_bind; [apply Hbody|intros _; exact IH].
Qed.

Ltac frame_step :=
  first
    [ keeps_attr_step
    | apply keeps_attr_and_
    | apply keeps_attr_for_each; intros ?
    | match goal with
      | |- keeps_attr _ (if ?c then _ else _) => destruct c
      | |- keeps_attr _ (match ?x with _ => _ end) => destruct x
      end ].

Lemma call_keeps_attr {C X} (f : AnyTask -> X) (inj : C -> AnyTask)
    (m : Method C unit) (r : MobileManipulator) (k : C) :
  keeps_attr (fun c => f (inj c)) m -> f (snd (snd (call inj m r k))) = f (inj k).
Proof.
  intros Hm. unfold call. specialize (Hm (r, k)).
  destruct (m (r, k)) as [x [r' k']]. exact Hm.
Qed.

Lemma EEPosition3D_update_frame :
  keeps_attr (fun t => but_listed (AnEEPosition3D t)) EEPosition3D.update.
Proof. unfold EEPosition3D.update, tracking_error. repeat frame_step. Qed.

Lemma JointLimits_updateActivation_frame :
  keeps_attr (fun s => but_listed (AJointLimits s)) JointLimits.updateActivation.
Proof.
  unfold JointLimits.updateActivation, for_range,
    JointLimits.updateActivation_body, JointLimits.near_upper,
    JointLimits.near_lower, JointLimits.clear_of_upper,
    JointLimits.clear_of_lower, JointLimits.activation_is,
    JointLimits.set_activation_at, JointLimits.activation_at,
    JointLimits.upper_at, JointLimits.lower_at.
  repeat frame_step.
Qed.

Lemma JointLimits_update_frame :
  keeps_attr (fun s => but_listed (AJointLimits s)) JointLimits.update.
Proof.
  unfold JointLimits.update.
  repeat first [apply JointLimits_updateActivation_frame | frame_step].
Qed.

Lemma Obstacle3D_update_frame :
  keeps_attr (fun s => but_listed (AnObstacle3D s)) Obstacle3D.update.
Proof.
  unfold Obstacle3D.update, Obstacle3D.distance, Obstacle3D.obstacle_point,
    Obstacle3D.ee_point.
  repeat frame_step.
Qed.

Lemma Obstacle3D_updateActivation_frame :
  keeps_attr (fun s => but_listed (AnObstacle3D s)) Obstacle3D.updateActivation.
Proof.
  unfold Obstacle3D.updateActivation, Obstacle3D.within_activation,
    Obstacle3D.beyond_deactivation, Obstacle3D.isActive,
    Obstacle3D.setActivation, Obstacle3D.distance, Obstacle3D.obstacle_point,
    Obstacle3D.ee_point.
  repeat frame_step.
Qed.

Section AccessorsFrame.
Context (getEEorientation getMMJacobian getMMorientation getMMposition : Robot.Method Matrix).

Lemma EEOrientation3D_update_frame :
  keeps_attr (fun t => but_listed (AnEEOrientation3D t))
    (EEOrientation3D_update getEEorientation).
Proof. unfold EEOrientation3D_update, tracking_error. repeat frame_step. Qed.

Lemma EEConfiguration3D_update_frame :
  keeps_attr (fun c => but_errors (AnEEConfiguration3D c))
    (EEConfiguration3D_update getEEorientation).
Proof. unfold EEConfiguration3D_update. repeat frame_step. Qed.

Lemma MMOrientation_update_frame :
  keeps_attr (fun t => but_listed (AnMMOrientation t))
    (MMOrientation_update getMMJacobian getMMorientation).
Proof. unfold MMOrientation_update, tracking_error. repeat frame_step. Qed.

Lemma MMposition_update_frame :
  keeps_attr (fun t => but_listed (AnMMposition t))
    (MMposition_update getMMJacobian getMMposition).
Proof. unfold MMposition_update, tracking_error. repeat frame_step. Qed.

End AccessorsFrame.

(** The pose task assigns [err_pos] before it asks the robot for the
    orientation; nothing after that assignment touches it. *)
Lemma pose_update_err_pos (orientation : Robot.Method Matrix) :
  exists ep : Matrix,
    err_pos (snd (snd (EEConfiguration3D_update orientation (init, pose_task))))
    = Some ep.
Proof.
  unfold EEConfiguration3D_update.
  unfold bind at 1. unfold on_robot at 1. cbn [fst snd Robot.getDOF gets].
  rewrite (bind_ok _ _ _ _ _
             (on_robot_getEEJacobian init 0 0 0 0 0 eq_refl eq_refl pose_task)).
  unfold bind at 1. unfold lift at 1.
  change (np.take_rows (jacobian_rows 0 0 0 0) [0; 1; 2; 5])
    with (Ok (take 3 (jacobian_rows 0 0 0 0) ++ [[1; 0; 0; 1]]%R)).
  unfold bind at 1. unfold self at 1. unfold gets at 1. cbn [fst snd].
  unfold bind at 1. unfold lift at 1.
  cbn [take jacobian_rows app].
  rewrite reshape_four_rows by reflexivity.
  change (task_dim (cfg_task pose_task)) with 4%nat. cbn [Nat.eqb].
  unfold bind at 1. unfold assign at 1. unfold modify at 1. cbn [fst snd].
  unfold bind at 1. unfold self at 1. unfold gets at 1. cbn [fst snd].
  unfold bind at 1. unfold lift at 1.
  change (np.rows_col (sigma_d (cfg_task (cfg_on_task _ pose_task))) 0 3 0)
    with (Ok [2 / 10; 0; - (1 / 10)]%R).
  unfold bind at 1. unfold lift at 1. rewrite reshape_3_1.
  unfold bind at 1.
  rewrite (on_robot_read_only _ init _ getEEposition_read_only).
  rewrite (getEEposition_run init 0 0 0 0 0 0 0 0 [] eq_refl eq_refl). cbn [fst].
  unfold bind at 1. unfold lift at 1. unfold np.sub.
  rewrite elementwise_same_shape by reflexivity.
  unfold bind at 1. unfold assign at 1. unfold modify at 1. cbn [fst snd].
  match goal with
  | |- exists ep, err_pos (snd (snd (?rest ?w))) = Some ep =>
      assert (Hrest : keeps_attr err_pos rest) by repeat frame_step;
      rewrite (Hrest w)
  end.
  eexists. reflexivity.
Qed.

(** C9, counterexample: the pose task of the constructor on the robot of
    the constructor.  [update] leaves the robot as it was, and it assigns
    [err_pos], an attribute of the task that is none of [J], [err],
    [activation] and the error history.  ([getEEorientation] is the
    accessor [MobileManipulator] does not define; the assignment comes
    before its call.) *)
Lemma pose_update_assigns_err_pos :
  let w := (init, AnEEConfiguration3D pose_task) in
  let after :=
    snd (update undefined_accessor undefined_accessor undefined_accessor
           undefined_accessor w) in
  fst after = fst w /\
  but_listed (snd after) <> but_listed (snd w).
Proof.
  cbv zeta. unfold update. cbn [fst snd].
  split.
  - apply call_keeps_robot, EEConfiguration3D_update_keeps_robot.
    apply read_only_raise.
  - destruct (pose_update_err_pos undefined_accessor) as [ep Hep].
    unfold call.
    destruct (EEConfiguration3D_update undefined_accessor (init, pose_task))
      as [x [r' c']].
    cbn [fst snd] in Hep |- *. intros Heq.
    cbn [but_listed cfg_on_task] in Heq.
    assert (Hpos : err_pos c' = None) by now injection Heq.
    rewrite Hep in Hpos. discriminate Hpos.
Qed.

(** C9, amended: for each of the seven task variants, [update(robot)] and
    [updateActivation(robot)] leave the robot's attributes (the joint
    positions [q], the base pose [eta], and the rest) equal to what they
    were before the call, whether the call returns or raises.  Of the
    task, only [J], [err], [activation] and the error history may differ
    after the call, and for the pose task also its [err_pos] and
    [err_ori]: the variant, the name, the desired value, the dimension,
    the feed-forward, the gain, the limits, the thresholds and the
    obstacle are as before.  The four accessors that [MobileManipulator]
    does not define are parameters, read-only as the defined ones are. *)
Theorem task_update_frame
    (getEEorientation getMMJacobian getMMorientation getMMposition : Robot.Method Matrix)
    (w : World AnyTask) :
  read_only getEEorientation -> read_only getMMJacobian ->
  read_only getMMorientation -> read_only getMMposition ->
  let after_update :=
    snd (update getEEorientation getMMJacobian getMMorientation getMMposition w) in
  let after_activation := snd (updateActivation w) in
  (fst after_update = fst w /\
   q (fst after_update) = q (fst w) /\ eta (fst after_update) = eta (fst w)) /\
  (fst after_activation = fst w /\
   q (fst after_activation) = q (fst w) /\ eta (fst after_activation) = eta (fst w)) /\
  but_errors (snd after_update) = but_errors (snd w) /\
  ((forall c, snd w <> AnEEConfiguration3D c) ->
   but_listed (snd after_update) = but_listed (snd w)) /\
  but_listed (snd after_activation) = but_listed (snd w).
Proof.
  intros H1 H2 H3 H4 after_update after_activation.
  assert (Hu : fst after_update = fst w).
  { subst after_update. destruct w as [r k]. unfold update. simpl.
    destruct k; apply call_keeps_robot;
      auto using EEPosition3D_update_keeps_robot,
        EEOrientation3D_update_keeps_robot, EEConfiguration3D_update_keeps_robot,
        MMOrientation_update_keeps_robot, MMposition_update_keeps_robot,
        JointLimits_update_keeps_robot, Obstacle3D_update_keeps_robot. }
  assert (Ha : fst after_activation = fst w).
  { subst after_activation. destruct w as [r k]. unfold updateActivation. simpl.
    destruct k; try reflexivity; apply call_keeps_robot;
      auto using JointLimits_updateActivation_keeps_robot,
        Obstacle3D_updateActivation_keeps_robot. }
  split; [now rewrite Hu|]. split; [now rewrite Ha|].
  subst after_update after_activation. destruct w as [r k].
  unfold update, updateActivation. cbn [fst snd].
  split; [|split].
  - destruct k.
    + exact (call_keeps_attr but_errors AnEEPosition3D _ r _ EEPosition3D_update_frame).
    + exact (call_keeps_attr but_errors AnEEOrientation3D _ r _
               (EEOrientation3D_update_frame getEEorientation)).
    + exact (call_keeps_attr but_errors AnEEConfiguration3D _ r _
               (EEConfiguration3D_update_frame getEEorientation)).
    + exact (call_keeps_attr but_errors AnMMOrientation _ r _
               (MMOrientation_update_frame getMMJacobian getMMorientation)).
    + exact (call_keeps_attr but_errors AnMMposition _ r _
               (MMposition_update_frame getMMJacobian getMMposition)).
    + exact (call_keeps_attr but_errors AJointLimits _ r _ JointLimits_update_frame).
    + exact (call_keeps_attr but_errors AnObstacle3D _ r _ Obstacle3D_update_frame).
  - intros Hpose. destruct k.
    + apply (call_keeps_attr but_listed), EEPosition3D_update_frame.
    + apply (call_keeps_attr but_listed), EEOrientation3D_update_frame.
    + now destruct (Hpose k).
    + apply (call_keeps_attr but_listed), MMOrientation_update_frame.
    + apply (call_keeps_attr but_listed), MMposition_update_frame.
    + apply (call_keeps_attr but_listed), JointLimits_update_frame.
    + apply (call_keeps_attr but_listed), Obstacle3D_update_frame.
  - destruct k; try reflexivity.
    + apply (call_keeps_attr but_listed), JointLimits_updateActivation_frame.
    + apply (call_keeps_attr but_listed), Obstacle3D_updateActivation_frame.
Qed.

Lemma task_update_frame_witness :
  let w := (mid_range_robot, AJointLimits limits_task) in
  let after :=
    snd (update undefined_accessor undefined_accessor undefined_accessor
           undefined_accessor w) in
  fst after = mid_range_robot /\
  but_listed (snd after) = but_listed (AJointLimits limits_task).
Proof.
  destruct (task_update_frame undefined_accessor undefined_accessor
              undefined_accessor undefined_accessor
              (mid_range_robot, AJointLimits limits_task)
              (read_only_raise AttributeError) (read_only_raise AttributeError)
              (read_only_raise AttributeError) (read_only_raise AttributeError))
    as [[Hu _] [_ [_ [Hl _]]]].
  split; [exact Hu|]. apply Hl. intros c Hc. discriminate Hc.
Defined.
